(** * ReportBench: a shallow embedding of the evaluation toolkit

    The development follows the Python sources module by module:
    - [Py]        the few [str] and [list] primitives the sources rely on;
    - [Utils]     [utils.py]: [split_text_by_headers], [WebLLMClient.generate];
    - [BatchInfer] [infer/batch_infer.py]: rate-limit classifier, retry loop,
                  task construction of [batch_infer_parallel];
    - [WebVerify] [statement/verify_no_citations_web.py]: vote aggregation;
    - [CacheUtils] [cache_utils.py]: the URL cache;
    - [Reference] [process/extract_reference_structured.py];
    - [ProcessJson] [process/process_json.py];
    - [Metrics]   [metrics_calculator.py]: [calculate_file_metrics].

    A Python [str] is a sequence of Unicode code points, so it is modelled
    as [list N]; [len], slicing and [in] then mean what they mean in
    Python also on Chinese text. *)

From Stdlib Require Import ZArith NArith List Bool String Ascii Lia QArith
  DecimalString.
From stdpp Require Import base decidable countable gmap list.

Close Scope Q_scope.
Open Scope Z_scope.

Abbreviation str := (list N).

(** ** Python primitives *)
Module Py.

(** Results of code that may raise. *)
Inductive result (E A : Type) : Type :=
| Returned (a : A)
| Raised (e : E).
Arguments Returned {E A} a.
Arguments Raised {E A} e.

(** String literals of the sources are UTF-8 in the file; [u] decodes the
    bytes of a Rocq literal into code points. *)
Definition bytes_of (s : string) : list N :=
  List.map N_of_ascii (list_ascii_of_string s).

Fixpoint utf8_decode (bs : list N) : list N :=
  match bs with
  | [] => []
  | b0 :: t0 =>
    if (b0 <? 128)%N then b0 :: utf8_decode t0 else
    match t0 with
    | [] => []
    | b1 :: t1 =>
      if (b0 <? 224)%N
      then ((b0 mod 32) * 64 + b1 mod 64)%N :: utf8_decode t1 else
      match t1 with
      | [] => []
      | b2 :: t2 =>
        if (b0 <? 240)%N
        then ((b0 mod 16) * 4096 + (b1 mod 64) * 64 + b2 mod 64)%N
               :: utf8_decode t2 else
        match t2 with
        | [] => []
        | b3 :: t3 =>
          ((b0 mod 8) * 262144 + (b1 mod 64) * 4096
           + (b2 mod 64) * 64 + b3 mod 64)%N :: utf8_decode t3
        end
      end
    end
  end.

Definition u (s : string) : str := utf8_decode (bytes_of s).

Definition NL : N := 10%N.

(** [s.startswith(p)] *)
Fixpoint startswith (p s : str) : bool :=
  match p, s with
  | [], _ => true
  | _ :: _, [] => false
  | a :: p', b :: s' => (a =? b)%N && startswith p' s'
  end.

(** [s.find(sub)]: offset of the first occurrence, [-1] when there is none. *)
Fixpoint find_from (sub s : str) (i : Z) : Z :=
  if startswith sub s then i
  else match s with
       | [] => -1
       | _ :: s' => find_from sub s' (i + 1)
       end.

Definition find (s sub : str) : Z := find_from sub s 0.

(** [sub in s] *)
Definition contains (sub s : str) : bool := 0 <=? find s sub.

(** [s.split(c)] for a one-character separator: never the empty list. *)
Fixpoint split (c : N) (s : str) : list str :=
  match s with
  | [] => [[]]
  | x :: s' =>
    if (x =? c)%N then [] :: split c s'
    else match split c s' with
         | l :: ls => (x :: l) :: ls
         | [] => [[x]]
         end
  end.

(** [sep.join(parts)] *)
Fixpoint join (sep : str) (parts : list str) : str :=
  match parts with
  | [] => []
  | [x] => x
  | x :: rest => x ++ sep ++ join sep rest
  end.

(** [l[a:b]] for indices [0 <= a], [0 <= b]. *)
Definition slice {A} (a b : nat) (l : list A) : list A :=
  firstn (b - a) (skipn a l).

(** [c.isspace()], the table of CPython's [_PyUnicode_IsWhitespace]. *)
Definition isspace (c : N) : bool :=
  ((9 <=? c) && (c <=? 13) || (28 <=? c) && (c <=? 32)
   || (c =? 133) || (c =? 160) || (c =? 5760)
   || (8192 <=? c) && (c <=? 8202)
   || (c =? 8232) || (c =? 8233) || (c =? 8239) || (c =? 8287)
   || (c =? 12288))%N.

(** [s.strip()] *)
Fixpoint lstrip (s : str) : str :=
  match s with
  | c :: s' => if isspace c then lstrip s' else s
  | [] => []
  end.

Fixpoint rstrip (s : str) : str :=
  match s with
  | [] => []
  | c :: s' =>
    match rstrip s' with
    | [] => if isspace c then [] else [c]
    | r => c :: r
    end
  end.

Definition strip (s : str) : str := rstrip (lstrip s).

(** [s.lower()] on the ASCII letters; CPython also maps the cased letters
    outside ASCII through the Unicode tables, they are left as they are
    here. *)
Definition lower_char (c : N) : N :=
  if ((65 <=? c) && (c <=? 90))%N then (c + 32)%N else c.
Definition lower (s : str) : str := List.map lower_char s.

(** Truth value of a list or string: non-empty. *)
Definition truthy {A} (l : list A) : bool :=
  match l with [] => false | _ => true end.

(** [str(n)] for an integer. *)
Definition str_of_Z (z : Z) : str :=
  bytes_of (NilZero.string_of_int (Z.to_int z)).

End Py.
Import Py.

(** ** utils.py *)
Module Utils.

Definition BLOCK_SIZE : Z := 16384.

Inductive error : Type :=
| AssertionError.

(** A line is a heading when it starts with ["# "], ["## "] or ["### "]. *)
Definition is_header (line : str) : bool :=
  startswith (u "#") line
  && (startswith (u "# ") line
      || startswith (u "## ") line
      || startswith (u "### ") line).

Fixpoint header_indices_from (i : nat) (lines : list str) : list nat :=
  match lines with
  | [] => []
  | line :: rest =>
    if is_header line then i :: header_indices_from (S i) rest
    else header_indices_from (S i) rest
  end.

Definition header_indices (lines : list str) : list nat :=
  header_indices_from 0 lines.

(** The loop of the branch without headings: [blocks], [current_block]
    and [current_size] are the loop's three variables. *)
Fixpoint chunk_lines (max_size : Z) (lines : list str)
    (blocks : list str) (current_block : list str) (current_size : Z)
    : list str * list str :=
  match lines with
  | [] => (blocks, current_block)
  | line :: rest =>
    let line_size := Z.of_nat (length line) + 1 in
    if (current_size + line_size >? max_size) && truthy current_block
    then chunk_lines max_size rest
           (blocks ++ [join [NL] current_block]) [line] line_size
    else chunk_lines max_size rest
           blocks (current_block ++ [line]) (current_size + line_size)
  end.

Definition blocks_without_headers (max_size : Z) (lines : list str)
    : list str :=
  let '(blocks, current_block) := chunk_lines max_size lines [] [] 0 in
  if truthy current_block then blocks ++ [join [NL] current_block]
  else blocks.

(** The loop [for i in range(1, len(all_indices))]: [prev] is
    [all_indices[i-1]], the head of [rest] is [all_indices[i]], and [i] is
    the last index exactly when nothing follows the head. *)
Fixpoint assemble (max_size : Z) (lines : list str) (prev : nat)
    (rest : list nat) (current_start : nat) (blocks : list str)
    : nat * list str :=
  match rest with
  | [] => (current_start, blocks)
  | current_end :: rest' =>
    let candidate_lines := slice current_start current_end lines in
    let candidate_text := join [NL] candidate_lines in
    if Z.of_nat (length candidate_text) >? max_size then
      if (current_start =? prev)%nat then
        assemble max_size lines current_end rest' current_end
                 (blocks ++ [candidate_text])
      else
        let prev_lines := slice current_start prev lines in
        let blocks1 :=
          if truthy prev_lines then blocks ++ [join [NL] prev_lines]
          else blocks in
        let current_start1 := prev in
        let current_lines := slice current_start1 current_end lines in
        let current_text := join [NL] current_lines in
        assemble max_size lines current_end rest' current_end
                 (blocks1 ++ [current_text])
    else
      match rest' with
      | [] =>
        let blocks1 :=
          if truthy candidate_lines then blocks ++ [candidate_text]
          else blocks in
        assemble max_size lines current_end rest' current_end blocks1
      | _ :: _ =>
        assemble max_size lines current_end rest' current_start blocks
      end
  end.

Definition blocks_with_headers (max_size : Z) (lines : list str)
    (hdrs : list nat) : list str :=
  let all_indices := [0%nat] ++ hdrs ++ [length lines] in
  let '(current_start, blocks) :=
    assemble max_size lines 0%nat (tl all_indices) 0%nat [] in
  let blocks1 :=
    if (current_start <? length lines)%nat then
      let remaining_lines := skipn current_start lines in
      if truthy remaining_lines then blocks ++ [join [NL] remaining_lines]
      else blocks
    else blocks in
  List.filter (fun block => truthy (strip block)) blocks1.

(** The blocks as computed just before the final assertion. *)
Definition split_blocks (text : str) (max_size : Z) : list str :=
  let lines := split NL text in
  match header_indices lines with
  | [] => blocks_without_headers max_size lines
  | hdrs => blocks_with_headers max_size lines hdrs
  end.

Definition str_eqb (a b : str) : bool := bool_decide (a = b).

Definition split_text_by_headers (text : str) (max_size : Z)
    : result error (list str) :=
  let blocks := split_blocks text max_size in
  let reconstructed_text := join [NL] blocks in
  if str_eqb reconstructed_text text then Returned blocks
  else Raised AssertionError.

(** *** WebLLMClient.generate

    One pass through the [try] block: either [requests.post] raises, or
    it gives a response with a status code and a body text. For status
    200 the body is decoded and indexed ([response.json()],
    [result.get("choices", [{}])[0]...]), which yields the content or
    raises in turn; [json] carries that outcome. *)
Inductive attempt : Type :=
| Response (status_code : Z) (text : str) (json : result str str)
| PostRaised (msg : str).

(** What the [try] block produces: the returned content, or [str(e)] of
    the exception that reaches the [except] clause. *)
Definition attempt_outcome (a : attempt) : result str str :=
  match a with
  | Response status_code text json =>
    if status_code =? 200 then json
    else if status_code =? 429
         then Raised (u "Rate limit exceeded: " ++ text)
         else Raised (u "HTTP " ++ str_of_Z status_code ++ u ": " ++ text)
  | PostRaised msg => Raised msg
  end.

Definition max_retries : Z := 3.
(** [base_wait_time = 1.0]: every wait the loop computes is an integer
    number of seconds below 2^53, so the float arithmetic is exact and the
    waits are kept in [Z]. *)
Definition base_wait_time : Z := 1.

(** The [while True] loop, run against the attempts the gateway answers
    with. [Retrying] is the loop still running when the supplied attempts
    are used up. [sleeps] logs the argument of every [time.sleep]. *)
Inductive run : Type :=
| Done (r : result str str) (sleeps : list Z)
| Retrying (retry_count : Z) (sleeps : list Z).

Fixpoint generate_loop (model_name : str) (attempts : list attempt)
    (retry_count : Z) (sleeps : list Z) : run :=
  match attempts with
  | [] => Retrying retry_count sleeps
  | a :: rest =>
    match attempt_outcome a with
    | Returned content => Done (Returned content) sleeps
    | Raised error_msg =>
      let is_rate_limit := contains (u "reach token limit") error_msg in
      if is_rate_limit then
        let retry_count := retry_count + 1 in
        let wait_time :=
          Z.min (base_wait_time * 2 ^ Z.min (retry_count - 1) 6) 300 in
        generate_loop model_name rest retry_count (sleeps ++ [wait_time])
      else
        let retry_count := retry_count + 1 in
        if retry_count <=? max_retries then
          let wait_time := base_wait_time * retry_count in
          generate_loop model_name rest retry_count (sleeps ++ [wait_time])
        else
          Done (Raised (model_name ++ u "客户端调用最终失败: " ++ error_msg))
               sleeps
    end
  end.

Definition generate (model_name : str) (attempts : list attempt) : run :=
  generate_loop model_name attempts 0 [].

End Utils.

(** ** infer/batch_infer.py *)
Module BatchInfer.

Definition rate_limit_indicators : list str :=
  [ u "rate limit"; u "rate_limit"; u "ratelimit";
    u "429"; u "too many requests"; u "quota exceeded";
    u "throttled"; u "throttling"; u "限流"; u "频率限制";
    u "exceed"; u "maximum"; u "limit exceeded";
    u "retry after"; u "retry-after"; u "请求过于频繁";
    u "concurrent requests"; u "请稍后重试" ].

Definition is_rate_limit_error (error_message : str) : bool :=
  let error_lower := lower error_message in
  existsb (fun indicator => contains indicator error_lower)
          rate_limit_indicators.

Inductive exception : Type :=
| OverflowError.

(** [exponential_backoff] without its random jitter:
    [min(base_delay * (2 ** attempt), max_delay)]. [base_delay] is a
    float and [2 ** attempt] an integer, which the product converts to a
    float: from [2 ** 1024] on the conversion raises [OverflowError].
    Below that the product is exact or infinite, and the minimum is the
    one of the integers. *)
Definition nominal_backoff (attempt base_delay max_delay : Z)
    : result exception Z :=
  if 1024 <=? attempt then Raised OverflowError
  else Returned (Z.min (base_delay * 2 ^ attempt) max_delay).

(** The result record of [infer_single_with_retry]; the wall-clock fields
    ([response_time], [timestamp]) and the jittered [retry_delay] are left
    out, [nominal_delays] keeps the jitter-free part of every sleep.
    [is_rate_limit] is a key of the failure record only. *)
Record infer_result : Type := {
  success : bool;
  response : option str;
  error : option str;
  retry_count : Z;
  is_rate_limit : option bool;
  nominal_delays : list Z
}.

(** [Crashed e]: the call left the loop with the exception [e], raised
    inside the [except] block. *)
Inductive infer_run : Type :=
| Finished (r : infer_result)
| StillRetrying (attempt : Z) (delays : list Z)
| Crashed (e : exception).

(** The [while True] loop of [infer_single_with_retry] against the
    outcomes of the successive [model.invoke] calls. *)
Fixpoint infer_loop (outcomes : list (result str str)) (max_retries : Z)
    (attempt : Z) (delays : list Z) : infer_run :=
  match outcomes with
  | [] => StillRetrying attempt delays
  | Returned content :: _ =>
    Finished {| success := true; response := Some content; error := None;
                retry_count := attempt; is_rate_limit := None;
                nominal_delays := delays |}
  | Raised error_msg :: rest =>
    let is_rl := is_rate_limit_error error_msg in
    let should_retry := if is_rl then true else attempt <? max_retries in
    if should_retry then
      let attempt := attempt + 1 in
      let delay :=
        if is_rl then nominal_backoff (attempt - 1) 2 120
        else nominal_backoff (attempt - 1) 1 30 in
      match delay with
      | Raised e => Crashed e
      | Returned delay =>
        infer_loop rest max_retries attempt (delays ++ [delay])
      end
    else
      Finished {| success := false; response := None;
                  error := Some error_msg; retry_count := attempt;
                  is_rate_limit := Some is_rl; nominal_delays := delays |}
  end.

Definition infer_single_with_retry (outcomes : list (result str str))
    (max_retries : Z) : infer_run :=
  infer_loop outcomes max_retries 0 [].

(** *** Task construction of [batch_infer_parallel]

    The frame comes from [pd.read_csv], so its index is 0, 1, 2, ...: a
    frame is the list of its rows and [idx] is the position. Of a row
    only the cell of the prompt column matters here: [None] is NaN,
    [Some s] a cell that prints as [s]. *)
Record row : Type := { prompt_cell : option str }.

(** A line of an existing output file. *)
Inductive line : Type :=
| Blank
| Rec (row_index : Z) (model_name : str)
| Malformed.

Inductive load_error : Type :=
| JSONError.

Inductive mode : Type :=
| Append
| Overwrite.

Record task : Type := {
  t_row_idx : Z;
  t_model_name : str;
  t_prompt : str
}.

(** How [batch_infer_parallel] leaves the task construction:
    [if not tasks: return], or the file opened for the tasks. *)
Inductive handoff : Type :=
| NothingToDo
| Opened (tasks : list task) (m : mode).

Fixpoint load_processed (lines : list line) (processed_items : gset (Z * str))
    : result load_error (gset (Z * str)) :=
  match lines with
  | [] => Returned processed_items
  | Blank :: rest => load_processed rest processed_items
  | Rec i m :: rest => load_processed rest ({[ (i, m) ]} ∪ processed_items)
  | Malformed :: _ => Raised JSONError
  end.

Section Tasks.
(** The model clients are opaque handles. [render idx prompt] is the
    prompt after the optional template has been applied (the identity
    without a template). *)
Context {Model : Type}.
Variable render : Z -> str -> str.

Definition available_models (models : list (str * option Model))
    : list (str * Model) :=
  flat_map (fun '(name, model) =>
              match model with Some m => [(name, m)] | None => [] end)
           models.

(** The inner loop [for model_name, model in available_models]. *)
Definition row_tasks (idx : Z) (prompt : str)
    (avail : list (str * Model)) (processed_items : gset (Z * str))
    : list task :=
  flat_map (fun '(model_name, _) =>
              if bool_decide ((idx, model_name) ∈ processed_items) then []
              else [ {| t_row_idx := idx; t_model_name := model_name;
                        t_prompt := prompt |} ])
           avail.

(** The outer loop [for idx, row in df.iterrows()]. *)
Fixpoint all_tasks (idx : Z) (rows : list row) (start_idx : Z)
    (avail : list (str * Model)) (processed_items : gset (Z * str))
    : list task :=
  match rows with
  | [] => []
  | r :: rest =>
    let here :=
      if idx <? start_idx then []
      else match prompt_cell r with
           | None => []
           | Some p =>
             if negb (truthy (strip p)) then []
             else row_tasks idx (render idx (strip p)) avail
                            processed_items
           end in
    here ++ all_tasks (idx + 1) rest start_idx avail processed_items
  end.

(** [batch_infer_parallel] up to the point where the tasks are handed
    to the pool: without a task it returns before the output file is
    opened, otherwise it opens the file in a mode and hands over the
    tasks. [output_file] is [None] when the file does not exist. *)
Definition batch_infer_parallel (df : list row)
    (models : list (str * option Model))
    (output_file : option (list line)) (start_idx : Z)
    : result load_error handoff :=
  let loaded :=
    match output_file with
    | Some lines =>
      if 0 <? start_idx then load_processed lines ∅ else Returned ∅
    | None => Returned ∅
    end in
  match loaded with
  | Raised e => Raised e
  | Returned processed_items =>
    let tasks :=
      all_tasks 0 df start_idx (available_models models)
                processed_items in
    if negb (truthy tasks) then Returned NothingToDo
    else Returned (Opened tasks
                          (if 0 <? start_idx then Append else Overwrite))
  end.
End Tasks.

End BatchInfer.

(** ** statement/verify_no_citations_web.py *)
Module WebVerify.

(** What the aggregation raises: [df_verification['ID']] on a frame
    without columns, and ['; '.join] on a reason that is not a [str]. *)
Inductive error : Type :=
| KeyError
| TypeError.

(** A value of the [decision] column as the aggregation looks at it: a
    [bool], a [str], [None], a number held in a numeric column (a float,
    or an int of at most 64 bits), or anything else (a list, a dict, a
    larger int); of the last two only [bool(x)] is used. *)
Inductive pyval : Type :=
| VBool (b : bool)
| VStr (s : str)
| VNone
| VNum (truth : bool)
| VOther (truth : bool).

(** A row of [df_verification]. The reason is whatever the answer of the
    model held under the key [reason]: [Some s] is the [str] s, [None]
    any value that is not a [str]. *)
Record vote : Type := {
  ID : str;
  statement : str;
  llm_model : str;
  attempt : Z;
  decision : pyval;
  reason : option str
}.

(** A row of [df_final]. [confidence] is a quotient of two small
    integers; it is kept as the exact rational the float stands for. *)
Record final : Type := {
  f_ID : str;
  f_statement : str;
  true_votes : Z;
  false_votes : Z;
  total_votes : Z;
  final_decision : str;
  confidence : Q;
  reasons : str
}.

Definition truth_words : list str := [u "true"; u "正确"; u "yes"; u "1"].

(** The loop that fills [boolean_decisions]. *)
Definition to_bool (d : pyval) : bool :=
  match d with
  | VBool b => b
  | VStr s => bool_decide (lower s ∈ truth_words)
  | VNone => false
  | VNum t => t
  | VOther t => t
  end.

(** [sum(boolean_decisions)] *)
Definition sum_bools (l : list bool) : Z :=
  Z.of_nat (length (List.filter (fun b => b) l)).

Definition len {A} (l : list A) : Z := Z.of_nat (length l).

Definition ratio (a b : Z) : Q := Qmake a (Z.to_pos b).

(** The reasons as strings, when every one of them is a [str]. *)
Fixpoint texts (reasons : list (option str)) : option (list str) :=
  match reasons with
  | [] => Some []
  | Some s :: rest =>
    match texts rest with
    | Some l => Some (s :: l)
    | None => None
    end
  | None :: _ => None
  end.

(** ["; ".join(reasons)] *)
Definition join_reasons (reasons : list (option str)) : result error str :=
  match texts reasons with
  | Some l => Returned (join (u "; ") l)
  | None => Raised TypeError
  end.

(** The record appended to [final_results] for the rows
    [statement_data] of one id, once the reasons are joined. *)
Definition tally (statement_id : str) (statement_data : list vote)
    (combined_reasons : str) : final :=
  let statement :=
    match statement_data with v :: _ => statement v | [] => [] end in
  let boolean_decisions := List.map (fun v => to_bool (decision v))
                                    statement_data in
  let true_votes := sum_bools boolean_decisions in
  let false_votes := len boolean_decisions - true_votes in
  let total_valid_votes := len boolean_decisions in
  let '(final_decision, confidence) :=
    if false_votes >? true_votes then
      (u "错误",
       if total_valid_votes >? 0 then ratio false_votes total_valid_votes
       else 0%Q)
    else if true_votes >? false_votes then
      (u "正确",
       if total_valid_votes >? 0 then ratio true_votes total_valid_votes
       else 0%Q)
    else (u "平局", (1 # 2)%Q) in
  {| f_ID := statement_id; f_statement := statement;
     true_votes := true_votes; false_votes := false_votes;
     total_votes := total_valid_votes;
     final_decision := final_decision; confidence := confidence;
     reasons := combined_reasons |}.

(** The body of the loop over the statement ids, for the rows
    [statement_data] of one id (never empty: the id comes from the
    frame). The votes are counted first; the join of the reasons comes
    last and raises on a reason that is not a [str]. *)
Definition aggregate (statement_id : str) (statement_data : list vote)
    : result error final :=
  match join_reasons (List.map reason statement_data) with
  | Returned combined_reasons =>
    Returned (tally statement_id statement_data combined_reasons)
  | Raised e => Raised e
  end.

(** [df_verification['ID'].unique()]: the ids in order of first
    appearance. *)
Fixpoint unique (seen : list str) (ids : list str) : list str :=
  match ids with
  | [] => []
  | i :: rest =>
    if bool_decide (i ∈ seen) then unique seen rest
    else i :: unique (i :: seen) rest
  end.

Definition rows_of (statement_id : str) (df_verification : list vote)
    : list vote :=
  List.filter (fun v => bool_decide (ID v = statement_id)) df_verification.

(** The loop over the statement ids; an exception of the body leaves
    it. *)
Fixpoint final_loop (ids : list str) (df_verification : list vote)
    (final_results : list final) : result error (list final) :=
  match ids with
  | [] => Returned final_results
  | statement_id :: ids =>
    let statement_data := rows_of statement_id df_verification in
    if negb (truthy statement_data)
    then final_loop ids df_verification final_results
    else
      match aggregate statement_id statement_data with
      | Returned r => final_loop ids df_verification (final_results ++ [r])
      | Raised e => Raised e
      end
  end.

(** [verify_no_citations_web] from the point where the votes have been
    collected into [df_verification]: the rows of [df_final]. A frame
    built from no row at all has no column [ID]. *)
Definition verify_no_citations_web (df_verification : list vote)
    : result error (list final) :=
  match df_verification with
  | [] => Raised KeyError
  | _ => final_loop (unique [] (List.map ID df_verification))
                    df_verification []
  end.

End WebVerify.

(** ** cache_utils.py *)
Module CacheUtils.

(** The three components of [urllib.parse.urlparse] the sources read. *)
Record url_parts : Type := {
  scheme : str;
  netloc : str;
  path : str
}.

Record cache_row : Type := {
  url : str;
  normalized_url : str;
  random_id : str
}.

(** The loop around [generate_random_id]: [draws] are the values the
    successive calls return; [None] is the loop still running when the
    supplied draws are used up. *)
Fixpoint draw_fresh (draws : list str) (taken : list str)
    : option (str * list str) :=
  match draws with
  | [] => None
  | random_id :: rest =>
    if bool_decide (random_id ∈ taken) then draw_fresh rest taken
    else Some (random_id, rest)
  end.

(** How a call of [get_or_create_id_for_url] ends: it returns the id and
    the table (with the draws not yet consumed); or the id loop is still
    running when the supplied draws are used up; or [urlparse] rejected
    the URL and its [ValueError] leaves the function. *)
Inductive lookup : Type :=
| Returns (random_id : str) (url_cache : list cache_row) (draws : list str)
| Drawing
| ValueError (message : str).

Section Cache.
(** [urllib.parse.urlparse]: the parts of a URL, or the message of the
    [ValueError] raised on a URL it rejects. *)
Variable urlparse : str -> result str url_parts.

Definition normalize_url (url : str) : result str str :=
  match urlparse url with
  | Returned parsed =>
    Returned (scheme parsed ++ u "://" ++ netloc parsed ++ path parsed)
  | Raised message => Raised message
  end.

Definition get_or_create_id_for_url (url : str)
    (url_cache : list cache_row) (draws : list str) : lookup :=
  match normalize_url url with
  | Raised message => ValueError message
  | Returned normalized =>
    let existing :=
      List.filter (fun r => bool_decide (normalized_url r = normalized))
                  url_cache in
    match existing with
    | r :: _ => Returns (random_id r) url_cache draws
    | [] =>
      match draw_fresh draws (List.map random_id url_cache) with
      | None => Drawing
      | Some (random_id, rest) =>
        let new_row := {| url := url; normalized_url := normalized;
                          random_id := random_id |} in
        Returns random_id (url_cache ++ [new_row]) rest
      end
    end
  end.
End Cache.

(** A small [urlparse] for URLs of the shape [scheme://host/path?query#frag],
    used to run the definitions on concrete URLs. Like [urlsplit] it
    rejects a host that holds one of the brackets [[] and []] without
    the other. *)
Fixpoint take_until (stop : N -> bool) (s : str) : str * str :=
  match s with
  | [] => ([], [])
  | c :: s' =>
    if stop c then ([], s)
    else let '(a, b) := take_until stop s' in (c :: a, b)
  end.

Definition urlparse_simple (url : str) : result str url_parts :=
  let '(sch, rest) := take_until (fun c => (c =? 58)%N) url in
  let rest1 := if startswith (u "://") rest then skipn 3 rest else rest in
  let '(host, rest2) :=
    take_until (fun c => (c =? 47)%N || (c =? 63)%N || (c =? 35)%N) rest1 in
  let '(pth, _) := take_until (fun c => (c =? 63)%N || (c =? 35)%N) rest2 in
  if xorb (existsb (fun c => (c =? 91)%N) host)
          (existsb (fun c => (c =? 93)%N) host)
  then Raised (u "Invalid IPv6 URL")
  else Returned {| scheme := sch; netloc := host; path := pth |}.

End CacheUtils.

(** ** process/process_json.py *)
Module ProcessJson.

(** An entry of the [messages] array; a key that is absent is [None]. *)
Record message : Type := {
  role : option str;
  content : option str
}.

(** The transcript object, as far as the extractor reads it. *)
Record transcript : Type := {
  messages : option (list message);
  activity : option str;
  reference : option str
}.

Record extracted : Type := {
  e_prompt : str;
  e_answer : str;
  e_activity : str;
  e_reference : str
}.

Definition has_role (r : str) (m : message) : bool :=
  bool_decide (role m = Some r).

(** [message.get('content', '')] *)
Definition content_of (m : message) : str :=
  match content m with Some c => c | None => [] end.

(** Loop 1: the first message whose role is ["user"]. *)
Fixpoint first_user_content (ms : list message) : str :=
  match ms with
  | [] => []
  | m :: rest =>
    if has_role (u "user") m then content_of m else first_user_content rest
  end.

(** The loop [for i in range(len(messages) - 1)]: the first adjacent pair
    of assistant messages. *)
Fixpoint consecutive_assistants (ms : list message) : list message :=
  match ms with
  | m1 :: ((m2 :: _) as rest) =>
    if has_role (u "assistant") m1 && has_role (u "assistant") m2
    then [m1; m2] else consecutive_assistants rest
  | _ => []
  end.

Definition answer_of (ms : list message) : str :=
  match consecutive_assistants ms with
  | _ :: m2 :: _ => content_of m2
  | _ => []
  end.

(** [data] is [None] when the file cannot be read or decoded: the
    exception is caught and [None] returned. *)
Definition process_openai_json (data : option transcript)
    : option extracted :=
  match data with
  | None => None
  | Some d =>
    let ms := match messages d with Some l => l | None => [] end in
    Some {| e_prompt := first_user_content ms;
            e_answer := answer_of ms;
            e_activity := match activity d with Some a => a | None => [] end;
            e_reference := match reference d with Some r => r | None => [] end
         |}
  end.

(** The rule in the words of the specification: scan left to right,
    growing the current run of assistant messages; the first run that has
    two or more members when it ends is the one looked for, and the answer
    is the content of its second member. *)
Fixpoint first_long_run (cur : list message) (ms : list message)
    : option (list message) :=
  match ms with
  | [] => if (2 <=? length cur)%nat then Some cur else None
  | m :: rest =>
    if has_role (u "assistant") m then first_long_run (cur ++ [m]) rest
    else if (2 <=? length cur)%nat then Some cur
         else first_long_run [] rest
  end.

Definition answer_spec (ms : list message) : str :=
  match first_long_run [] ms with
  | Some (_ :: m2 :: _) => content_of m2
  | _ => []
  end.

End ProcessJson.

(** ** metrics_calculator.py *)
Module Metrics.

(** What the function finds under one file name: nothing
    ([exists()] is false), a file [pd.read_csv] raises on (a zero-byte
    file, a directory, undecodable bytes), or a table. *)
Inductive file (A : Type) : Type :=
| Absent
| Unreadable
| Table (df : A).
Arguments Absent {A}.
Arguments Unreadable {A}.
Arguments Table {A} df.

(** What the record holds under [aligned_statements] and
    [alignment_rate]: [Exactly a] is the number [a], [Other] a value
    that is no number of the kind (under [aligned_statements] a string
    or a sum that is not an integer, under [alignment_rate] a NaN or an
    infinity). *)
Inductive value (A : Type) : Type :=
| Exactly (a : A)
| Other.
Arguments Exactly {A} a.
Arguments Other {A}.

(** [final.csv]: its [match] column at dtype bool, as [verify] writes
    it; or a table of [n] rows without that column; or a table of [n]
    rows whose [match] column is of another dtype, through what the two
    operations on it do: [total] is what [df_final['match'].sum()]
    returns and [quotient] what the division of it by [len(df_final)]
    returns, [None] when the operation raises. *)
Inductive final_frame : Type :=
| WithMatch (col : list bool)
| NoMatch (n : nat)
| OtherMatch (n : nat) (total : option (value Z))
    (quotient : option (value Q)).

(** [no_citations_web_final.csv], likewise for [final_decision]. *)
Inductive web_frame : Type :=
| WithDecision (col : list str)
| NoDecision (n : nat).

(** The target directory; for the first three tables only [len(df)] is
    read. *)
Record results_dir : Type := {
  citations_csv : file nat;
  no_citations_csv : file nat;
  matched_csv : file nat;
  final_csv : file final_frame;
  no_citations_web_final_csv : file web_frame
}.

(** The returned record (the wall-clock [timestamp] is left out). *)
Record metrics : Type := {
  arxiv_id : str;
  total_citations : Z;
  total_no_citations : Z;
  total_statements : Z;
  matched_statements : Z;
  match_rate : Q;
  aligned_statements : value Z;
  alignment_rate : value Q;
  no_citations_correct : Z;
  no_citations_incorrect : Z;
  no_citations_tie : Z;
  no_citations_accuracy : Q;
  has_citations : bool;
  has_no_citations : bool;
  has_matched : bool;
  has_final : bool;
  has_no_citations_verification : bool;
  missing_files : list str
}.

Definition ratio (a b : Z) : Q := Qmake a (Z.to_pos b).

Definition count_eq (v : str) (col : list str) : Z :=
  Z.of_nat (length (List.filter (fun c => bool_decide (c = v)) col)).

Definition count_true (col : list bool) : Z :=
  Z.of_nat (length (List.filter (fun b => b) col)).

(** Step 2: [(total_no_citations, has_no_citations, missing)]. *)
Definition read_no_citations (f : file nat) : Z * bool * list str :=
  match f with
  | Table n => (Z.of_nat n, true, [])
  | Unreadable => (0, false, [u "no_citations.csv"])
  | Absent => (0, false, [u "no_citations.csv"])
  end.

(** Step 3: [(matched_statements, match_rate, has_matched, missing)]. *)
Definition read_matched (f : file nat) (total_citations : Z)
    : Z * Q * bool * list str :=
  match f with
  | Table n =>
    let matched := Z.of_nat n in
    (matched,
     if total_citations >? 0 then ratio matched total_citations else 0%Q,
     true, [])
  | Unreadable => (0, 0%Q, false, [u "matched.csv"])
  | Absent => (0, 0%Q, false, [u "matched.csv"])
  end.

(** Step 4: [(aligned_statements, alignment_rate, has_final, missing)].
    [has_final] is set once the sum is there; a division that raises
    after that leaves the flag set and lists the file. *)
Definition read_final (f : file final_frame)
    : value Z * value Q * bool * list str :=
  match f with
  | Table (WithMatch col) =>
    let aligned := count_true col in
    let n := Z.of_nat (length col) in
    (Exactly aligned,
     Exactly (if n >? 0 then ratio aligned n else 0%Q), true, [])
  | Table (NoMatch n) => (Exactly 0, Exactly 0%Q, true, [])
  | Table (OtherMatch n total quotient) =>
    match total with
    | None => (Exactly 0, Exactly 0%Q, false, [u "final.csv"])
    | Some aligned =>
      if Z.of_nat n >? 0 then
        match quotient with
        | Some rate => (aligned, rate, true, [])
        | None => (aligned, Exactly 0%Q, true, [u "final.csv"])
        end
      else (aligned, Exactly 0%Q, true, [])
    end
  | Unreadable => (Exactly 0, Exactly 0%Q, false, [u "final.csv"])
  | Absent => (Exactly 0, Exactly 0%Q, false, [u "final.csv"])
  end.

(** Step 5: [(correct, incorrect, tie, accuracy, has_verification,
    missing)]. *)
Definition read_web_final (f : file web_frame)
    : Z * Z * Z * Q * bool * list str :=
  match f with
  | Table (WithDecision col) =>
    let correct := count_eq (u "正确") col in
    let total_verified := Z.of_nat (length col) in
    (correct, count_eq (u "错误") col, count_eq (u "平局") col,
     if total_verified >? 0 then ratio correct total_verified else 0%Q,
     true, [])
  | Table (NoDecision _) => (0, 0, 0, 0%Q, true, [])
  | Unreadable => (0, 0, 0, 0%Q, false, [u "no_citations_web_final.csv"])
  | Absent => (0, 0, 0, 0%Q, false, [u "no_citations_web_final.csv"])
  end.

Definition calculate_file_metrics (dir : results_dir) (arxiv_id : str)
    : option metrics :=
  match citations_csv dir with
  | Absent => None
  | Unreadable => None
  | Table n =>
    let total_citations := Z.of_nat n in
    let '(total_no_citations, has_nc, miss2) :=
      read_no_citations (no_citations_csv dir) in
    let '(matched, match_rate, has_m, miss3) :=
      read_matched (matched_csv dir) total_citations in
    let '(aligned, alignment_rate, has_f, miss4) :=
      read_final (final_csv dir) in
    let '(correct, incorrect, tie, accuracy, has_v, miss5) :=
      read_web_final (no_citations_web_final_csv dir) in
    Some {| arxiv_id := arxiv_id;
            total_citations := total_citations;
            total_no_citations := total_no_citations;
            total_statements := total_citations + total_no_citations;
            matched_statements := matched;
            match_rate := match_rate;
            aligned_statements := aligned;
            alignment_rate := alignment_rate;
            no_citations_correct := correct;
            no_citations_incorrect := incorrect;
            no_citations_tie := tie;
            no_citations_accuracy := accuracy;
            has_citations := true;
            has_no_citations := has_nc;
            has_matched := has_m;
            has_final := has_f;
            has_no_citations_verification := has_v;
            missing_files := miss2 ++ miss3 ++ miss4 ++ miss5 |}
  end.

End Metrics.

(** ** process/extract_reference_structured.py *)
Module Reference.
Import CacheUtils.

(** An element of [soup.find_all('a', href=True)], through the calls the
    code makes on it: [str(link)], [link.get('href')], the
    [get_text(strip=True)] of each [div] inside it in document order, and
    [link.get_text(strip=True)]. *)
Record link : Type := {
  outer_html : str;
  href : str;
  divs : list str;
  text : str
}.

(** The parsed fragment, through the calls made on it: [str(soup)],
    [soup.find_all('a', href=True)] and
    [soup.find(string=re.compile(r'全部来源|All Sources'))]. *)
Record soup : Type := {
  html_str : str;
  all_links : list link;
  source_element : option str
}.

Record detailed_reference : Type := {
  d_index : Z;
  d_domain : str;
  d_url : str;
  d_title : str;
  d_description : str
}.

Record domain_info : Type := {
  s_index : Z;
  s_domain : str;
  s_href : str;
  s_count : Z
}.

Record structured : Type := {
  detailed_references : list detailed_reference;
  domain_summary : list domain_info
}.

(** What leaves the extractors, both a [ValueError]: that of [urlparse]
    on an href it rejects, with its message, and that of [int] on a run
    of more digits than the interpreter converts. *)
Inductive exception : Type :=
| InvalidURL (message : str)
| TooManyDigits.

(** The decimal digits of Unicode (category Nd, version 14.0.0: 66 runs
    of ten consecutive code points), by the code point of the zero of
    each run. These are the characters [\d] matches in a [str] pattern
    and the digits [int] reads. *)
Definition digit_zeros : list N :=
  [48; 1632; 1776; 1984; 2406; 2534; 2662; 2790; 2918; 3046; 3174; 3302;
   3430; 3558; 3664; 3792; 3872; 4160; 4240; 6112; 6160; 6470; 6608;
   6784; 6800; 6992; 7088; 7232; 7248; 42528; 43216; 43264; 43472; 43504;
   43600; 44016; 65296; 66720; 68912; 69734; 69872; 69942; 70096; 70384;
   70736; 70864; 71248; 71360; 71472; 71904; 72016; 72784; 73040; 73120;
   92768; 92864; 93008; 120782; 120792; 120802; 120812; 120822; 123200;
   123632; 125264; 130032]%N.

Definition digit_zero (c : N) : option N :=
  List.find (fun z => ((z <=? c) && (c <? z + 10))%N) digit_zeros.

Definition isdigit (c : N) : bool :=
  match digit_zero c with Some _ => true | None => false end.

Definition digit_value (c : N) : Z :=
  match digit_zero c with Some z => Z.of_N (c - z) | None => 0 end.

Fixpoint span_digits (s : str) : str * str :=
  match s with
  | c :: s' =>
    if isdigit c then let '(d, r) := span_digits s' in (c :: d, r)
    else ([], s)
  | [] => ([], [])
  end.

(** The match of [(\d+)$] in [s], as [(before, digits, after)]: the digit
    run that ends the string, or that ends just before a final newline
    ([$] also matches there); [None] when there is no such run. *)
Definition trailing_digits (s : str) : option (str * str * str) :=
  let r := rev s in
  let '(after, r1) :=
    match r with
    | c :: r' => if (c =? NL)%N then ([NL], r') else ([], r)
    | [] => ([], [])
    end in
  let '(d, before) := span_digits r1 in
  if truthy d then Some (rev before, rev d, after) else None.

(** The number a run of digits spells. *)
Definition int_of_digits (digits : str) : Z :=
  fold_left (fun acc c => 10 * acc + digit_value c) digits 0.

(** [int(digits)] on a run of digits. [max_str_digits] is
    [sys.get_int_max_str_digits()]: 4300 unless configured otherwise, 0
    when the limit is switched off and for an interpreter that has none
    (CPython before 3.11 and its security releases of 2022); a run
    longer than a limit in force raises. *)
Definition int (max_str_digits : nat) (digits : str)
    : result exception Z :=
  if ((0 <? max_str_digits) && (max_str_digits <? length digits))%nat
  then Raised TooManyDigits
  else Returned (int_of_digits digits).

Section Extract.
Variable urlparse : str -> result str url_parts.
Variable int_max_str_digits : nat.

Definition extract_detailed_reference_simple (l : link) (index : Z)
    : result exception (option detailed_reference) :=
  if negb (truthy (href l)) then Returned None else
  match urlparse (href l) with
  | Raised message => Raised (InvalidURL message)
  | Returned parsed_url =>
    let domain := netloc parsed_url in
    let '(title, description) :=
      match divs l with
      | _ :: d1 :: d2 :: _ => (d1, d2)
      | [d0; d1] => (d0, d1)
      | _ =>
        let display_text := text l in
        (if (100 <? length display_text)%nat
         then firstn 100 display_text ++ u "..." else display_text,
         display_text)
      end in
    Returned (Some {| d_index := index; d_domain := domain;
                      d_url := href l; d_title := title;
                      d_description := description |})
  end.

Definition extract_domain_info_simple (l : link) (index : Z)
    : result exception (option domain_info) :=
  if negb (truthy (href l)) then Returned None else
  let display_text := text l in
  match trailing_digits display_text with
  | Some (before, digits, after) =>
    match int int_max_str_digits digits with
    | Raised e => Raised e
    | Returned count =>
      Returned (Some {| s_index := index; s_domain := before ++ after;
                        s_href := href l; s_count := count |})
    end
  | None =>
    Returned (Some {| s_index := index; s_domain := display_text;
                      s_href := href l; s_count := 1 |})
  end.

Definition source_position (html : str) : Z :=
  let p := find html (u "全部来源") in
  if p =? -1 then find html (u "All Sources") else p.

(** The loop [for link in all_links]; an exception of an extractor
    leaves it. *)
Fixpoint classify (html : str) (source_position : Z) (links : list link)
    (detailed : list detailed_reference) (summary : list domain_info)
    : result exception structured :=
  match links with
  | [] =>
    Returned {| detailed_references := detailed; domain_summary := summary |}
  | l :: rest =>
    let link_position := find html (outer_html l) in
    if link_position <? source_position then
      match extract_detailed_reference_simple
              l (Z.of_nat (length detailed) + 1) with
      | Raised e => Raised e
      | Returned (Some ref_info) =>
        classify html source_position rest (detailed ++ [ref_info]) summary
      | Returned None => classify html source_position rest detailed summary
      end
    else
      match extract_domain_info_simple
              l (Z.of_nat (length summary) + 1) with
      | Raised e => Raised e
      | Returned (Some info) =>
        classify html source_position rest detailed (summary ++ [info])
      | Returned None => classify html source_position rest detailed summary
      end
  end.

(** [reference_html] is the input string and [sp] what
    [BeautifulSoup(reference_html, 'html.parser')] gives for it. *)
Definition extract_reference_structured (reference_html : str) (sp : soup)
    : result exception (option structured) :=
  if negb (truthy reference_html) then Returned None else
  match source_element sp with
  | None => Returned None
  | Some _ =>
    match classify (html_str sp) (source_position (html_str sp))
                   (all_links sp) [] [] with
    | Returned r => Returned (Some r)
    | Raised e => Raised e
    end
  end.
End Extract.

End Reference.

(** * Properties *)

(** ** Facts about the string primitives *)

Lemma find_from_lower_bound (sub s : str) (i : Z) :
  find_from sub s i = -1 \/ i <= find_from sub s i.
Proof.
  revert i. induction s as [|c s IH]; intros i; simpl.
  - destruct (startswith sub []); [right; lia | left; reflexivity].
  - destruct (startswith sub (c :: s)); [right; lia|].
    destruct (IH (i + 1)) as [H|H]; [left; exact H | right; lia].
Qed.

(** [find] returns the first occurrence: it is at most any offset at which
    [sub] occurs. *)
Lemma find_from_first (sub s : str) (o : nat) (i : Z) :
  (o <= length s)%nat ->
  startswith sub (skipn o s) = true ->
  i <= find_from sub s i <= i + Z.of_nat o.
Proof.
  revert o i. induction s as [|c s IH]; intros o i Hlen Hocc.
  - destruct o; [|simpl in Hlen; lia].
    simpl in *. rewrite Hocc. lia.
  - destruct o as [|o].
    + simpl in Hocc. simpl. rewrite Hocc. lia.
    + simpl. destruct (startswith sub (c :: s)); [lia|].
      simpl in Hlen, Hocc.
      specialize (IH o (i + 1) ltac:(lia) Hocc). lia.
Qed.

Lemma find_first (s sub : str) (o : nat) :
  (o <= length s)%nat ->
  startswith sub (skipn o s) = true ->
  0 <= find s sub <= Z.of_nat o.
Proof.
  intros Hlen Hocc. unfold find.
  pose proof (find_from_first sub s o 0 Hlen Hocc). lia.
Qed.

(** Joining what [split] gave restores the text. *)
Lemma split_nonempty (c : N) (s : str) : split c s <> [].
Proof.
  destruct s as [|x s]; simpl; [discriminate|].
  destruct (x =? c)%N; [discriminate|].
  destruct (split c s); discriminate.
Qed.

Lemma join_cons (sep x : str) (rest : list str) :
  rest <> [] -> join sep (x :: rest) = x ++ sep ++ join sep rest.
Proof. destruct rest; [contradiction | reflexivity]. Qed.

Lemma join_split (c : N) (s : str) : join [c] (split c s) = s.
Proof.
  induction s as [|x s IH]; simpl split; [reflexivity|].
  destruct (N.eqb_spec x c) as [->|Hne].
  - rewrite join_cons by apply split_nonempty. rewrite IH. reflexivity.
  - pose proof (split_nonempty c s) as Hs.
    destruct (split c s) as [|l ls]; [contradiction|].
    destruct ls as [|l2 ls]; simpl in *; rewrite <- IH; reflexivity.
Qed.

Lemma join_app (sep : str) (a b : list str) :
  a <> [] -> b <> [] ->
  join sep (a ++ b) = join sep a ++ sep ++ join sep b.
Proof.
  intros Ha Hb. induction a as [|x a IH]; [contradiction|].
  destruct a as [|y a].
  - simpl app. rewrite join_cons by exact Hb. reflexivity.
  - change ((x :: y :: a) ++ b) with (x :: ((y :: a) ++ b)).
    rewrite join_cons by discriminate. rewrite IH by discriminate.
    rewrite (join_cons sep x (y :: a)) by discriminate.
    rewrite <- !app_assoc. reflexivity.
Qed.

(** A block that is itself a join can be given as its two parts. *)
Lemma join_last_split (sep : str) (blocks : list str) (x y : str) :
  join sep (blocks ++ [x ++ sep ++ y]) = join sep (blocks ++ [x; y]).
Proof.
  destruct blocks as [|b blocks]; [reflexivity|].
  rewrite !join_app by discriminate. reflexivity.
Qed.

(** ** utils.py: split_text_by_headers *)

Example decode_marker : u "全部来源" = [20840; 37096; 26469; 28304]%N.
Proof. reflexivity. Qed.

Example split_two_sections :
  Utils.split_text_by_headers
    (u "# A" ++ [NL] ++ u "b" ++ [NL] ++ u "## C") 4
  = Returned [u "# A" ++ [NL] ++ u "b"; u "## C"].
Proof. vm_compute. reflexivity. Qed.

Example split_without_headers :
  Utils.split_text_by_headers (u "ab" ++ [NL] ++ u "cd" ++ [NL] ++ u "ef") 6
  = Returned [u "ab" ++ [NL] ++ u "cd"; u "ef"].
Proof. vm_compute. reflexivity. Qed.

(** The branch without headings keeps the invariant: whatever remains to
    be read, appended to the current block and that to the blocks, joins
    to the same text. *)
Lemma chunk_lines_joins (max_size : Z) (lines : list str) :
  forall blocks current_block current_size blocks' current_block',
  Utils.chunk_lines max_size lines blocks current_block current_size
    = (blocks', current_block') ->
  (current_block' = [] ->
   lines = [] /\ current_block = [] /\ blocks' = blocks)
  /\ join [NL] (blocks' ++ [join [NL] current_block'])
     = join [NL] (blocks ++ [join [NL] (current_block ++ lines)]).
Proof.
  induction lines as [|line rest IH];
    intros blocks cur size blocks' cur' Hrun; simpl in Hrun.
  - injection Hrun as <- <-. rewrite app_nil_r. auto.
  - destruct ((size + (Z.of_nat (length line) + 1) >? max_size)
              && truthy cur) eqn:Hflush.
    + apply andb_true_iff in Hflush as [_ Hcur].
      destruct (IH _ _ _ _ _ Hrun) as [Hnil Hjoin]. split.
      * intros E. destruct (Hnil E) as (_ & Hl & _). discriminate.
      * rewrite Hjoin. rewrite <- app_assoc. simpl app.
        assert (Hc : cur <> [])
          by (destruct cur; [discriminate Hcur | discriminate]).
        rewrite (join_app [NL] cur (line :: rest) Hc) by discriminate.
        rewrite join_last_split. reflexivity.
    + destruct (IH _ _ _ _ _ Hrun) as [Hnil Hjoin]. split.
      * intros E. destruct (Hnil E) as (_ & Hl & _).
        destruct cur; discriminate.
      * rewrite Hjoin, <- app_assoc. reflexivity.
Qed.

(** X2. On a text without heading lines the function returns, whatever
    the threshold, and the blocks it returns join with newlines to the
    text. *)
Lemma split_without_headers_reconstructs (text : str) (max_size : Z) :
  Utils.header_indices (split NL text) = [] ->
  Utils.split_text_by_headers text max_size
    = Returned (Utils.split_blocks text max_size)
  /\ join [NL] (Utils.split_blocks text max_size) = text.
Proof.
  intros Hno.
  assert (Hjoin : join [NL] (Utils.split_blocks text max_size) = text).
  { unfold Utils.split_blocks. rewrite Hno.
    unfold Utils.blocks_without_headers.
    destruct (Utils.chunk_lines max_size (split NL text) [] [] 0)
      as [blocks cur] eqn:Hrun.
    destruct (chunk_lines_joins _ _ _ _ _ _ _ Hrun) as [Hnil Hj].
    simpl in Hj. rewrite join_split in Hj.
    destruct cur as [|l cur]; [|exact Hj].
    destruct (Hnil eq_refl) as (Hs & _). 
    exfalso. exact (split_nonempty NL text Hs). }
  split; [|exact Hjoin].
  unfold Utils.split_text_by_headers, Utils.str_eqb.
  rewrite Hjoin, bool_decide_eq_true_2 by reflexivity. reflexivity.
Qed.

(** A report that opens with an empty line, followed by one heading whose
    section is longer than the block size. *)
Definition blank_then_long_section : str :=
  [NL] ++ u "# A" ++ [NL] ++ repeat 120%N (Z.to_nat Utils.BLOCK_SIZE).

(** C1. The reconstruction invariant does not hold for every text: on a
    text whose first line is empty and whose first section exceeds the
    block size, the block made of the empty first line is emitted alone,
    then removed by the final filter of blank blocks, so the blocks join
    to the text without its first newline and the assertion fires. *)
Theorem split_text_by_headers_assertion_fires :
  Utils.split_text_by_headers blank_then_long_section Utils.BLOCK_SIZE
    = Raised Utils.AssertionError
  /\ join [NL] (Utils.split_blocks blank_then_long_section Utils.BLOCK_SIZE)
     = skipn 1 blank_then_long_section.
Proof. vm_compute. split; reflexivity. Qed.

(** The same on a small scale, with a threshold of 3 characters. *)
Lemma split_text_by_headers_drops_blank_block :
  Utils.split_blocks ([NL] ++ u "# A" ++ [NL] ++ u "xxxxx") 3
    = [u "# A" ++ [NL] ++ u "xxxxx"]
  /\ Utils.split_text_by_headers ([NL] ++ u "# A" ++ [NL] ++ u "xxxxx") 3
     = Raised Utils.AssertionError.
Proof. vm_compute. split; reflexivity. Qed.

(** ** utils.py: WebLLMClient.generate *)

Section Generate.
Import Utils.

(** A failure the loop treats as a rate limit: the text of the exception
    contains ["reach token limit"]. *)
Definition token_limited (a : attempt) : Prop :=
  exists msg, attempt_outcome a = Raised msg
              /\ contains (u "reach token limit") msg = true.

(** Any other failure that is not an HTTP 429 response. *)
Definition other_failure (a : attempt) (msg : str) : Prop :=
  attempt_outcome a = Raised msg
  /\ contains (u "reach token limit") msg = false
  /\ (forall text json, a <> Response 429 text json).

(** The wait before the retry that brings the counter to [k]. *)
Definition token_limit_wait (k : Z) : Z := 2 ^ Z.min (k - 1) 6.

Lemma token_limit_wait_code (k : Z) :
  1 <= k ->
  Z.min (base_wait_time * 2 ^ Z.min (k - 1) 6) 300 = token_limit_wait k.
Proof.
  intros Hk. unfold token_limit_wait, base_wait_time.
  rewrite Z.mul_1_l. apply Z.min_l.
  assert (2 ^ Z.min (k - 1) 6 <= 2 ^ 6)
    by (apply Z.pow_le_mono_r; lia).
  change (2 ^ 6) with 64 in *. lia.
Qed.

Lemma generate_loop_token_limited (m : str) (a : attempt)
    (rest : list attempt) (k : Z) (sleeps : list Z) :
  0 <= k -> token_limited a ->
  generate_loop m (a :: rest) k sleeps
  = generate_loop m rest (k + 1) (sleeps ++ [token_limit_wait (k + 1)]).
Proof.
  intros Hk (msg & Hout & Hc). simpl. rewrite Hout, Hc.
  rewrite <- token_limit_wait_code by lia. reflexivity.
Qed.

Lemma generate_loop_other (m : str) (a : attempt) (rest : list attempt)
    (k : Z) (sleeps : list Z) (msg : str) :
  other_failure a msg ->
  generate_loop m (a :: rest) k sleeps
  = if k + 1 <=? 3
    then generate_loop m rest (k + 1) (sleeps ++ [k + 1])
    else Done (Raised (m ++ u "客户端调用最终失败: " ++ msg)) sleeps.
Proof.
  intros (Hout & Hc & _). simpl. rewrite Hout, Hc.
  unfold max_retries, base_wait_time.
  destruct (k + 1 <=? 3); [rewrite Z.mul_1_l|]; reflexivity.
Qed.

Lemma generate_loop_all_token_limited (m : str) (attempts : list attempt) :
  Forall token_limited attempts ->
  forall (k : nat) (sleeps : list Z),
  generate_loop m attempts (Z.of_nat k) sleeps
  = Retrying (Z.of_nat (k + length attempts))
             (sleeps ++ List.map (fun j => token_limit_wait (Z.of_nat j))
                                 (seq (S k) (length attempts))).
Proof.
  induction 1 as [|a rest Ha _ IH]; intros k sleeps.
  - simpl. rewrite Nat.add_0_r, app_nil_r. reflexivity.
  - rewrite generate_loop_token_limited by (auto; lia).
    replace (Z.of_nat k + 1) with (Z.of_nat (S k)) by lia.
    rewrite IH. simpl length. simpl seq. simpl List.map.
    rewrite <- app_assoc. simpl. f_equal. lia.
Qed.

End Generate.

Ltac step_other H :=
  rewrite (generate_loop_other _ _ _ _ _ _ H);
  cbn [Z.add Z.leb Z.compare Pos.compare Pos.compare_cont Pos.add Pos.succ
       app].

(** The by-design part on which C2 fails: the exponent of the backoff is
    capped at 6, so the eighth wait for a rate-limit failure is 64
    seconds, not [min(1.0 * 2^(8-1), 300) = 128]. *)
Lemma generate_eighth_wait_is_64 :
  let rl := Utils.Response 500 (u "reach token limit") (Raised []) in
  exists sleeps,
    Utils.generate (u "gemini-2.5-pro") (repeat rl 8)
      = Utils.Retrying 8 sleeps
    /\ nth 7 sleeps 0 = 64
    /\ nth 7 sleeps 0 <> Z.min (1 * 2 ^ (8 - 1)) 300.
Proof.
  eexists. split; [vm_compute; reflexivity|].
  split; [reflexivity | vm_compute; discriminate].
Qed.

(** C2, amended. For every model name:
    (1) a run of failures whose text contains "reach token limit" is
        retried without bound, and the wait before the k-th retry is
        [2^min(k-1, 6)] seconds (at most 64, so the cap of 300 never
        applies);
    (2) failures of any other kind that are not HTTP 429 responses
        are retried three times with waits of 1, 2 and 3 seconds, and the
        fourth one is raised;
    (3) both kinds share one retry counter: after [k] retries of either
        kind, another failure of the second kind is retried only when
        [k + 1 <= 3], with a wait of [k + 1] seconds. *)
Theorem generate_retry_policy (model_name : str) :
  (forall attempts, Forall token_limited attempts ->
     Utils.generate model_name attempts
     = Utils.Retrying (Z.of_nat (length attempts))
         (List.map (fun k => token_limit_wait (Z.of_nat k))
                   (seq 1 (length attempts))))
  /\ (forall a1 a2 a3 a4 m1 m2 m3 m4 rest,
        other_failure a1 m1 -> other_failure a2 m2 ->
        other_failure a3 m3 -> other_failure a4 m4 ->
        Utils.generate model_name [a1; a2; a3] = Utils.Retrying 3 [1; 2; 3]
        /\ Utils.generate model_name (a1 :: a2 :: a3 :: a4 :: rest)
           = Utils.Done
               (Raised (model_name ++ u "客户端调用最终失败: " ++ m4))
               [1; 2; 3])
  /\ (forall a msg rest k sleeps,
        other_failure a msg ->
        Utils.generate_loop model_name (a :: rest) k sleeps
        = if k + 1 <=? 3
          then Utils.generate_loop model_name rest (k + 1) (sleeps ++ [k + 1])
          else Utils.Done
                 (Raised (model_name ++ u "客户端调用最终失败: " ++ msg))
                 sleeps).
Proof.
  split; [|split].
  - intros attempts Hall. unfold Utils.generate.
    exact (generate_loop_all_token_limited model_name attempts Hall 0 []).
  - intros a1 a2 a3 a4 m1 m2 m3 m4 rest H1 H2 H3 H4.
    unfold Utils.generate. split.
    + step_other H1. step_other H2. step_other H3. reflexivity.
    + step_other H1. step_other H2. step_other H3. step_other H4.
      reflexivity.
  - intros a msg rest k sleeps H.
    exact (generate_loop_other _ _ _ _ _ _ H).
Qed.

Lemma generate_retry_policy_witness :
  Utils.generate (u "gemini-2.5-flash")
    (repeat (Utils.Response 500 (u "reach token limit") (Raised [])) 9)
  = Utils.Retrying 9 [1; 2; 4; 8; 16; 32; 64; 64; 64]
  /\ Utils.generate (u "m")
       (repeat (Utils.Response 503 (u "unavailable") (Raised [])) 4)
     = Utils.Done
         (Raised (u "m" ++ u "客户端调用最终失败: "
                  ++ u "HTTP 503: unavailable"))
         [1; 2; 3].
Proof.
  split.
  - apply (proj1 (generate_retry_policy (u "gemini-2.5-flash"))).
    repeat constructor; eexists; (split; [reflexivity | vm_compute; reflexivity]).
  - apply (proj1 (proj2 (generate_retry_policy (u "m")))
             _ _ _ _ (u "HTTP 503: unavailable") (u "HTTP 503: unavailable")
             (u "HTTP 503: unavailable") (u "HTTP 503: unavailable") []);
      (split; [vm_compute; reflexivity
              | split; [vm_compute; reflexivity | intros ? ?; discriminate]]).
Defined.

(** What the loop does with an HTTP 429 whose body lacks the gateway
    text: the message "Rate limit exceeded: ..." is not recognised, so it
    goes through the bounded branch and the fourth 429 is raised. *)
Lemma generate_http_429_is_bounded :
  Utils.generate (u "m")
    (repeat (Utils.Response 429 (u "slow down") (Raised [])) 4)
  = Utils.Done
      (Raised (u "m" ++ u "客户端调用最终失败: "
               ++ u "Rate limit exceeded: slow down"))
      [1; 2; 3].
Proof. vm_compute. reflexivity. Qed.

(** ** infer/batch_infer.py: the rate-limit classifier *)










(** An error that is not about limits at all is not retried without
    bound: with [max_retries = 3] the fourth failure is final. *)
Example connection_reset_is_bounded :
  BatchInfer.is_rate_limit_error (u "connection reset") = false
  /\ exists r,
       BatchInfer.infer_single_with_retry
         (repeat (Raised (u "connection reset")) 4) 3
       = BatchInfer.Finished r
       /\ BatchInfer.retry_count r = 3
       /\ BatchInfer.nominal_delays r = [1; 2; 4].
Proof. split; [vm_compute; reflexivity|]. eexists. vm_compute. auto. Qed.

(** ** infer/batch_infer.py: resuming *)

Lemma load_processed_spec (lines : list BatchInfer.line) :
  forall (acc s : gset (Z * str)),
  BatchInfer.load_processed lines acc = Returned s ->
  forall i m, (i, m) ∈ s <-> (i, m) ∈ acc \/ In (BatchInfer.Rec i m) lines.
Proof.
  induction lines as [|l lines IH]; intros acc s Hload i m.
  - simpl in Hload. injection Hload as <-. simpl. tauto.
  - destruct l as [|j n|]; simpl in Hload.
    + rewrite (IH _ _ Hload). simpl.
      split; [tauto | intros [H|[H|H]]; [tauto | discriminate | tauto]].
    + rewrite (IH _ _ Hload), elem_of_union, elem_of_singleton. simpl.
      split.
      * intros [[H|H]|H]; [injection H as -> ->|..]; tauto.
      * intros [H|[H|H]]; [tauto | injection H as -> -> | ]; tauto.
    + discriminate.
Qed.

Lemma load_processed_total (lines : list BatchInfer.line) :
  ~ In BatchInfer.Malformed lines ->
  forall acc, exists s, BatchInfer.load_processed lines acc = Returned s.
Proof.
  induction lines as [|l lines IH]; intros Hwf acc.
  - eexists. reflexivity.
  - destruct l; simpl.
    + apply IH. intros H. apply Hwf. right. exact H.
    + apply IH. intros H. apply Hwf. right. exact H.
    + exfalso. apply Hwf. left. reflexivity.
Qed.

Section Resume.
Import BatchInfer.
Context {Model : Type}.
Variable render : Z -> str -> str.

Lemma in_available_models (models : list (str * option Model))
    (name : str) (model : Model) :
  In (name, model) (available_models models) <-> In (name, Some model) models.
Proof.
  unfold available_models. rewrite in_flat_map. split.
  - intros ([n [m|]] & Hin & Hx); simpl in Hx; [|tauto].
    destruct Hx as [[= -> ->]|[]]. exact Hin.
  - intros Hin. exists (name, Some model). split; [exact Hin|].
    left. reflexivity.
Qed.

Lemma in_row_tasks (idx : Z) (prompt : str) (avail : list (str * Model))
    (processed_items : gset (Z * str)) (t : task) :
  In t (row_tasks idx prompt avail processed_items)
  <-> (exists model, In (t_model_name t, model) avail)
      /\ ((idx, t_model_name t) ∉ processed_items)
      /\ t_row_idx t = idx /\ t_prompt t = prompt.
Proof.
  unfold row_tasks. rewrite in_flat_map. split.
  - intros ([name model] & Hin & Ht).
    destruct (bool_decide_reflect ((idx, name) ∈ processed_items))
      as [Hp|Hp]; simpl in Ht; [tauto|].
    destruct Ht as [<-|[]]. simpl. eauto.
  - intros ((model & Hin) & Hp & Hi & Hpr).
    exists (t_model_name t, model). split; [exact Hin|].
    rewrite bool_decide_eq_false_2 by exact Hp.
    left. destruct t; simpl in *; subst. reflexivity.
Qed.

(** The tasks are exactly the pairs of a row at or after [start_idx]
    whose prompt is not blank and of an available model, that are not
    among the processed items. *)
Lemma in_all_tasks (rows : list row) (start_idx : Z)
    (avail : list (str * Model)) (processed_items : gset (Z * str))
    (t : task) :
  forall idx,
  In t (all_tasks render idx rows start_idx avail processed_items)
  <-> exists (k : nat) (p : str),
        nth_error rows k = Some {| prompt_cell := Some p |}
        /\ truthy (strip p) = true
        /\ start_idx <= idx + Z.of_nat k
        /\ (exists model, In (t_model_name t, model) avail)
        /\ ((idx + Z.of_nat k, t_model_name t) ∉ processed_items)
        /\ t_row_idx t = idx + Z.of_nat k
        /\ t_prompt t = render (idx + Z.of_nat k) (strip p).
Proof.
  induction rows as [|r rows IH]; intros idx.
  - simpl. split; [tauto|]. intros ([|k] & p & H & _); discriminate.
  - simpl all_tasks. rewrite in_app_iff, IH. split.
    + intros [Hhere|(k & p & Hnth & Hrest)].
      * exists 0%nat. destruct r as [[p|]]; simpl in Hhere.
        -- destruct (Z.ltb_spec idx start_idx); [destruct Hhere|].
           destruct (truthy (strip p)) eqn:Hp; simpl in Hhere; [|tauto].
           apply in_row_tasks in Hhere.
           exists p. rewrite Z.add_0_r. simpl. rewrite Hp. tauto.
        -- destruct (idx <? start_idx); destruct Hhere.
      * exists (S k), p. simpl nth_error.
        replace (idx + Z.of_nat (S k)) with (idx + 1 + Z.of_nat k) by lia.
        tauto.
    + intros ([|k] & p & Hnth & Hp & Hstart & Hrest).
      * left. simpl in Hnth. injection Hnth as ->. simpl.
        rewrite Z.add_0_r in *.
        destruct (Z.ltb_spec idx start_idx); [lia|].
        rewrite Hp. simpl. apply in_row_tasks. tauto.
      * right. exists k, p. simpl in Hnth.
        replace (idx + 1 + Z.of_nat k) with (idx + Z.of_nat (S k)) by lia.
        tauto.
Qed.

End Resume.

(** Where C3 fails: with [start_idx = 0] the existing file is not read
    (and, there being tasks, it is opened for overwriting), so the pair
    (3, "M") it records is enqueued again. *)
Lemma start_idx_0_enqueues_recorded_pair :
  let df := repeat {| BatchInfer.prompt_cell := Some (u "p") |} 4 in
  let models := [(u "M", Some tt); (u "other_model", Some tt)] in
  let output_file := Some [BatchInfer.Rec 3 (u "M")] in
  exists tasks,
    BatchInfer.batch_infer_parallel (fun _ p => p) df models output_file 0
      = Returned (BatchInfer.Opened tasks BatchInfer.Overwrite)
    /\ In {| BatchInfer.t_row_idx := 3;
             BatchInfer.t_model_name := u "M";
             BatchInfer.t_prompt := u "p" |} tasks.
Proof.
  eexists. split; [vm_compute; reflexivity|].
  vm_compute. do 6 right. left. reflexivity.
Qed.

(** C3, amended. When the harness is re-run with [start_idx > 0] on an
    existing, well-formed result file, the tasks are built; when there
    is at least one the file is opened for appending, and when there is
    none the function returns without opening it. No task is enqueued
    for a pair (row, model) the file records, and every pair the file
    does not record is enqueued, provided the row is at or after
    [start_idx], its prompt is not blank and the model was built. *)
Theorem resume_skips_recorded_pairs {Model : Type} (render : Z -> str -> str)
    (df : list BatchInfer.row) (models : list (str * option Model))
    (lines : list BatchInfer.line) (start_idx : Z) :
  0 < start_idx ->
  ~ In BatchInfer.Malformed lines ->
  exists tasks,
    (tasks <> []
     /\ BatchInfer.batch_infer_parallel render df models (Some lines)
          start_idx
        = Returned (BatchInfer.Opened tasks BatchInfer.Append)
     \/ tasks = []
        /\ BatchInfer.batch_infer_parallel render df models (Some lines)
             start_idx
           = Returned BatchInfer.NothingToDo)
    /\ (forall i m t,
          In (BatchInfer.Rec i m) lines -> In t tasks ->
          ~ (BatchInfer.t_row_idx t = i /\ BatchInfer.t_model_name t = m))
    /\ (forall i m model p,
          ~ In (BatchInfer.Rec i m) lines ->
          In (m, Some model) models ->
          start_idx <= i ->
          nth_error df (Z.to_nat i)
            = Some {| BatchInfer.prompt_cell := Some p |} ->
          truthy (strip p) = true ->
          In {| BatchInfer.t_row_idx := i;
                BatchInfer.t_model_name := m;
                BatchInfer.t_prompt := render i (strip p) |} tasks).
Proof.
  intros Hstart Hwf.
  destruct (load_processed_total lines Hwf ∅) as [s Hs].
  unfold BatchInfer.batch_infer_parallel.
  destruct (Z.ltb_spec 0 start_idx); [|lia]. rewrite Hs.
  exists (BatchInfer.all_tasks render 0 df start_idx
            (BatchInfer.available_models models) s).
  split; [destruct (BatchInfer.all_tasks render 0 df start_idx
                      (BatchInfer.available_models models) s);
          [right; split; reflexivity
          | left; split; [discriminate | reflexivity]]|].
  split.
  - intros i m t Hrec Ht [Hi Hm].
    apply in_all_tasks in Ht.
    destruct Ht as (k & p & _ & _ & _ & _ & Hnot & Hidx & _).
    apply Hnot. rewrite <- Hidx, Hi, Hm.
    apply (load_processed_spec lines ∅ s Hs). right. exact Hrec.
  - intros i m model p Hrec Hmodel Hi Hnth Hp.
    apply in_all_tasks. exists (Z.to_nat i), p. simpl.
    replace (0 + Z.of_nat (Z.to_nat i)) with i by lia.
    repeat split; try assumption.
    + exists model. apply in_available_models. exact Hmodel.
    + intros Hin. apply (load_processed_spec lines ∅ s Hs) in Hin.
      destruct Hin as [Hin|Hin]; [|exact (Hrec Hin)].
      revert Hin. apply not_elem_of_empty.
Qed.

Lemma resume_skips_recorded_pairs_witness :
  let df := repeat {| BatchInfer.prompt_cell := Some (u " p ") |} 5 in
  let models := [(u "M", Some tt); (u "other_model", Some tt)] in
  let lines := [BatchInfer.Rec 3 (u "M"); BatchInfer.Blank] in
  exists tasks,
    BatchInfer.batch_infer_parallel (fun _ p => p) df models (Some lines) 2
      = Returned (BatchInfer.Opened tasks BatchInfer.Append)
    /\ ~ In {| BatchInfer.t_row_idx := 3;
               BatchInfer.t_model_name := u "M";
               BatchInfer.t_prompt := u "p" |} tasks
    /\ In {| BatchInfer.t_row_idx := 3;
             BatchInfer.t_model_name := u "other_model";
             BatchInfer.t_prompt := u "p" |} tasks.
Proof.
  intros df models lines.
  destruct (resume_skips_recorded_pairs (fun _ p => p) df models lines 2)
    as (tasks & Htasks & Hskip & Hkeep).
  - lia.
  - intros [H|[H|[]]]; discriminate.
  - assert (Hother : In {| BatchInfer.t_row_idx := 3;
                           BatchInfer.t_model_name := u "other_model";
                           BatchInfer.t_prompt := u "p" |} tasks).
    { apply (Hkeep 3 (u "other_model") tt (u " p ")).
      * intros [H|[H|[]]]; [|discriminate].
        apply (f_equal (fun l => match l with
                                 | BatchInfer.Rec _ m => length m
                                 | _ => 0%nat end)) in H.
        vm_compute in H. discriminate.
      * right. left. reflexivity.
      * lia.
      * reflexivity.
      * reflexivity. }
    exists tasks.
    destruct Htasks as [[_ Hopen]|[Hnone _]];
      [|rewrite Hnone in Hother; destruct Hother].
    split; [exact Hopen|]. split; [|exact Hother].
    intros Hin. apply (Hskip 3 (u "M") _ (or_introl eq_refl) Hin).
    split; reflexivity.
Defined.

(** A resume that finds every pair recorded builds no task and leaves
    the file unopened. *)
Example resume_with_nothing_left :
  BatchInfer.batch_infer_parallel (fun _ p => p)
    [{| BatchInfer.prompt_cell := Some (u "a") |};
     {| BatchInfer.prompt_cell := Some (u "b") |}]
    [(u "M", Some tt)]
    (Some [BatchInfer.Rec 1 (u "M")]) 1
  = Returned BatchInfer.NothingToDo.
Proof. vm_compute. reflexivity. Qed.

(** With [start_idx <= 0] the result does not depend on the file. *)
Lemma start_idx_0_ignores_file {Model : Type} (render : Z -> str -> str)
    (df : list BatchInfer.row) (models : list (str * option Model))
    (output_file : option (list BatchInfer.line)) (start_idx : Z) :
  start_idx <= 0 ->
  BatchInfer.batch_infer_parallel render df models output_file start_idx
  = BatchInfer.batch_infer_parallel render df models None start_idx.
Proof.
  intros H. unfold BatchInfer.batch_infer_parallel.
  destruct (Z.ltb_spec 0 start_idx); [lia|].
  destruct output_file; reflexivity.
Qed.

(** ** statement/verify_no_citations_web.py: the vote *)

Section Vote.
Import WebVerify.

Lemma in_unique (ids : list str) (i : str) :
  forall seen, In i (unique seen ids) <-> In i ids /\ (i ∉ seen).
Proof.
  induction ids as [|j ids IH]; intros seen; simpl.
  - tauto.
  - destruct (bool_decide_reflect (j ∈ seen)) as [Hj|Hj].
    + rewrite IH. split; [tauto|].
      intros [[->|H] Hn]; [contradiction | tauto].
    + simpl. rewrite IH, not_elem_of_cons. split.
      * intros [->|(H & Hne & Hn)]; tauto.
      * intros [[->|H] Hn]; [tauto|].
        destruct (decide (j = i)) as [->|Hne]; [tauto|].
        right. split; [exact H|]. split; [congruence | exact Hn].
Qed.

(** The reason of a vote is a [str]. *)
Definition has_text (v : vote) : bool :=
  match reason v with Some _ => true | None => false end.

Definition reason_text (v : vote) : str :=
  match reason v with Some s => s | None => [] end.

(** The record of one id when the join succeeds. *)
Definition record_of (sid : str) (data : list vote) : final :=
  tally sid data (join (u "; ") (List.map reason_text data)).

(** The final table when every join succeeds. *)
Definition finals_of (df : list vote) : list final :=
  flat_map (fun sid =>
              let data := rows_of sid df in
              if truthy data then [record_of sid data] else [])
           (unique [] (List.map ID df)).

Lemma texts_spec (data : list vote) :
  texts (List.map reason data)
  = if forallb has_text data then Some (List.map reason_text data)
    else None.
Proof.
  induction data as [|v data IH]; [reflexivity|].
  cbn [List.map texts forallb]. unfold has_text at 1, reason_text at 1.
  destruct (reason v); [|reflexivity].
  rewrite IH. cbn [andb]. destruct (forallb has_text data); reflexivity.
Qed.

Lemma aggregate_cases (sid : str) (data : list vote) :
  aggregate sid data
  = if forallb has_text data then Returned (record_of sid data)
    else Raised TypeError.
Proof.
  unfold aggregate, join_reasons. rewrite texts_spec.
  destruct (forallb has_text data); reflexivity.
Qed.

Lemma final_loop_cases (df : list vote) (ids : list str) :
  forall acc,
  final_loop ids df acc
  = if forallb (fun sid => forallb has_text (rows_of sid df)) ids
    then Returned
           (acc ++ flat_map (fun sid =>
                               let data := rows_of sid df in
                               if truthy data then [record_of sid data]
                               else []) ids)
    else Raised TypeError.
Proof.
  induction ids as [|sid ids IH]; intros acc.
  - cbn [final_loop forallb flat_map]. rewrite app_nil_r. reflexivity.
  - cbn [final_loop forallb flat_map].
    destruct (rows_of sid df) as [|v vs] eqn:E.
    + cbn [truthy negb forallb andb app]. apply IH.
    + change (truthy (v :: vs)) with true. cbn [negb].
      rewrite aggregate_cases.
      destruct (forallb has_text (v :: vs)); cbn [andb]; [|reflexivity].
      rewrite IH. rewrite <- app_assoc. reflexivity.
Qed.

Lemma has_text_by_ids (df : list vote) :
  forallb (fun sid => forallb has_text (rows_of sid df))
          (unique [] (List.map ID df))
  = forallb has_text df.
Proof.
  apply Bool.eq_iff_eq_true. rewrite !List.forallb_forall. split.
  - intros H v Hv.
    specialize (H (ID v)).
    rewrite List.forallb_forall in H. apply H.
    + apply in_unique. split; [apply List.in_map, Hv|apply not_elem_of_nil].
    + apply List.filter_In. split; [exact Hv|].
      apply bool_decide_eq_true_2. reflexivity.
  - intros H sid _. apply List.forallb_forall. intros v Hv.
    apply List.filter_In in Hv as [Hv _]. apply H, Hv.
Qed.

(** The three ways [verify_no_citations_web] ends. *)
Lemma verify_no_citations_web_cases (df : list vote) :
  verify_no_citations_web df
  = match df with
    | [] => Raised KeyError
    | _ => if forallb has_text df then Returned (finals_of df)
           else Raised TypeError
    end.
Proof.
  destruct df as [|v df]; [reflexivity|].
  unfold verify_no_citations_web.
  rewrite final_loop_cases, has_text_by_ids. reflexivity.
Qed.

Lemma in_finals_of (df : list vote) (r : final) :
  In r (finals_of df)
  <-> exists sid, In sid (List.map ID df)
                  /\ rows_of sid df <> []
                  /\ r = record_of sid (rows_of sid df).
Proof.
  unfold finals_of. rewrite in_flat_map. split.
  - intros (sid & Hin & Hr). apply in_unique in Hin as [Hin _].
    exists sid. destruct (rows_of sid df) eqn:E; simpl in Hr; [tauto|].
    destruct Hr as [<-|[]]. split; [exact Hin|]. split; [discriminate|].
    reflexivity.
  - intros (sid & Hin & Hne & ->). exists sid. split.
    + apply in_unique. split; [exact Hin | apply not_elem_of_nil].
    + destruct (rows_of sid df); [contradiction|]. left. reflexivity.
Qed.

Lemma rows_of_in_ids (df : list vote) (sid : str) :
  rows_of sid df <> [] -> In sid (List.map ID df).
Proof.
  unfold rows_of. induction df as [|v df IH]; simpl; [tauto|].
  destruct (bool_decide_reflect (ID v = sid)) as [E|E]; [tauto|].
  intros H. right. apply IH, H.
Qed.

(** The fields of the record the loop body builds. *)
Lemma tally_spec (sid : str) (data : list vote) (combined : str) :
  let t := sum_bools (List.map (fun v => to_bool (decision v)) data) in
  let n := len data in
  let r := tally sid data combined in
  f_ID r = sid /\ true_votes r = t /\ false_votes r = n - t
  /\ total_votes r = n
  /\ (t < n - t ->
      final_decision r = u "错误"
      /\ confidence r = if n >? 0 then ratio (n - t) n else 0%Q)
  /\ (n - t < t ->
      final_decision r = u "正确"
      /\ confidence r = if n >? 0 then ratio t n else 0%Q)
  /\ (t = n - t ->
      final_decision r = u "平局" /\ confidence r = (1 # 2)%Q).
Proof.
  intros t n r. subst r. unfold tally.
  replace (len (List.map (fun v => to_bool (decision v)) data)) with n
    by (unfold n, len; rewrite length_map; reflexivity).
  fold t. rewrite !Z.gtb_ltb.
  destruct (Z.ltb_spec t (n - t)) as [H1|H1];
    [|destruct (Z.ltb_spec (n - t) t) as [H2|H2]]; simpl;
    repeat split; try reflexivity; intros; try lia.
Qed.

Lemma forallb_has_text (df : list vote) :
  forallb has_text df = true <-> Forall (fun v => reason v <> None) df.
Proof.
  rewrite List.forallb_forall, List.Forall_forall.
  split; intros H v Hv; specialize (H v Hv); unfold has_text in *;
    destruct (reason v); congruence.
Qed.

End Vote.


Definition six_votes (sid : str) (ds : list WebVerify.pyval)
    : list WebVerify.vote :=
  List.map (fun d => {| WebVerify.ID := sid; WebVerify.statement := u "s";
                        WebVerify.llm_model := u "gemini-2.5-pro";
                        WebVerify.attempt := 1; WebVerify.decision := d;
                        WebVerify.reason := Some (u "r") |}) ds.



Example three_against_three_is_a_tie :
  match WebVerify.verify_no_citations_web
          (six_votes (u "NC_002")
             [WebVerify.VBool true; WebVerify.VBool false;
              WebVerify.VBool true; WebVerify.VBool false;
              WebVerify.VBool false; WebVerify.VBool true]) with
  | Returned df_final =>
    List.map (fun r => (WebVerify.final_decision r, WebVerify.confidence r))
             df_final
    = [(u "平局", (1 # 2)%Q)]
  | Raised _ => False
  end.
Proof. vm_compute. reflexivity. Qed.

(** ** cache_utils.py: get-or-create *)

Section GetOrCreate.
Import CacheUtils.

Lemma draw_fresh_some (draws taken : list str) :
  (exists d, In d draws /\ d ∉ taken) ->
  exists random_id rest,
    draw_fresh draws taken = Some (random_id, rest) /\ random_id ∉ taken.
Proof.
  induction draws as [|d draws IH]; intros (x & Hin & Hx).
  - destruct Hin.
  - simpl. destruct (bool_decide_reflect (d ∈ taken)) as [Hd|Hd].
    + apply IH. exists x. split; [|exact Hx].
      destruct Hin as [->|Hin]; [contradiction | exact Hin].
    + eauto.
Qed.

(** The table has a row for the normalized URL. *)
Definition known (normalized : str) (url_cache : list cache_row) : Prop :=
  exists r, In r url_cache /\ normalized_url r = normalized.

Lemma existing_nil (normalized : str) (url_cache : list cache_row) :
  List.filter (fun r => bool_decide (normalized_url r = normalized))
              url_cache = [] ->
  ~ known normalized url_cache.
Proof.
  intros E (r & Hin & Hr).
  assert (H : In r (List.filter
                      (fun r => bool_decide (normalized_url r = normalized))
                      url_cache)).
  { apply List.filter_In. split; [exact Hin|].
    apply bool_decide_eq_true_2, Hr. }
  rewrite E in H. destruct H.
Qed.

Lemma existing_cons (normalized : str) (url_cache : list cache_row)
    (r : cache_row) (rs : list cache_row) :
  List.filter (fun r => bool_decide (normalized_url r = normalized))
              url_cache = r :: rs ->
  known normalized url_cache.
Proof.
  intros E. exists r.
  assert (H : In r (List.filter
                      (fun r => bool_decide (normalized_url r = normalized))
                      url_cache))
    by (rewrite E; left; reflexivity).
  apply List.filter_In in H as [Hin Hr].
  apply bool_decide_eq_true in Hr. split; [exact Hin | exact Hr].
Qed.

End GetOrCreate.

(** C5, amended. For a URL that urlparse accepts: whenever the first
    call returns (the URL is already in the table, or one of the ids
    drawn is not yet in use), the second call on the table it returned
    gives the same id, draws nothing and leaves the table as it is; the
    first call added exactly one row, for this URL and with an id that
    was not in use, when no row had the URL's normalized form, and no row
    otherwise. For a URL that urlparse rejects, the call raises the
    ValueError of urlparse and returns no id, whatever the table. *)
Theorem get_or_create_twice
    (urlparse : str -> result str CacheUtils.url_parts)
    (url : str) (url_cache : list CacheUtils.cache_row)
    (draws draws' : list str) :
  (forall normalized,
     CacheUtils.normalize_url urlparse url = Returned normalized ->
     known normalized url_cache
     \/ (exists d, In d draws
                   /\ d ∉ List.map CacheUtils.random_id url_cache) ->
     exists random_id url_cache1 rest,
       CacheUtils.get_or_create_id_for_url urlparse url url_cache draws
         = CacheUtils.Returns random_id url_cache1 rest
       /\ CacheUtils.get_or_create_id_for_url urlparse url url_cache1 draws'
          = CacheUtils.Returns random_id url_cache1 draws'
       /\ (~ known normalized url_cache ->
           length url_cache1 = S (length url_cache)
           /\ url_cache1
              = url_cache
                ++ [{| CacheUtils.url := url;
                       CacheUtils.normalized_url := normalized;
                       CacheUtils.random_id := random_id |}]
           /\ random_id ∉ List.map CacheUtils.random_id url_cache)
       /\ (known normalized url_cache ->
           url_cache1 = url_cache /\ rest = draws))
  /\ (forall message,
        urlparse url = Raised message ->
        CacheUtils.get_or_create_id_for_url urlparse url url_cache draws
        = CacheUtils.ValueError message).
Proof.
  split.
  2:{ intros message E.
      unfold CacheUtils.get_or_create_id_for_url, CacheUtils.normalize_url.
      rewrite E. reflexivity. }
  intros normalized Hnorm Hret.
  unfold CacheUtils.get_or_create_id_for_url. rewrite Hnorm.
  destruct (List.filter _ url_cache) as [|r rs] eqn:E.
  - pose proof (existing_nil normalized url_cache E) as Hnew.
    destruct Hret as [Hk|Hd]; [contradiction|].
    destruct (draw_fresh_some draws _ Hd) as (rid & rest & -> & Hfresh).
    exists rid, (url_cache ++
                 [{| CacheUtils.url := url;
                     CacheUtils.normalized_url := normalized;
                     CacheUtils.random_id := rid |}]), rest.
    split; [reflexivity|]. split; [|split].
    + rewrite List.filter_app, E. simpl.
      rewrite bool_decide_eq_true_2 by reflexivity. reflexivity.
    + intros _. rewrite length_app. simpl.
      split; [lia|]. split; [reflexivity | exact Hfresh].
    + intros Hk. contradiction.
  - pose proof (existing_cons normalized url_cache r rs E) as Hk.
    exists (CacheUtils.random_id r), url_cache, draws.
    split; [reflexivity|]. split; [|split].
    + rewrite E. reflexivity.
    + intros Hn. contradiction.
    + intros _. split; reflexivity.
Qed.

Lemma get_or_create_twice_witness :
  exists random_id url_cache1 rest,
    CacheUtils.get_or_create_id_for_url CacheUtils.urlparse_simple
      (u "https://a.com/x?y=1#frag")
      [{| CacheUtils.url := u "https://b.org/";
          CacheUtils.normalized_url := u "https://b.org/";
          CacheUtils.random_id := u "Ab3dE6gH9j" |}]
      [u "Ab3dE6gH9j"; u "k2LmN5pQ8r"; u "zzzzzzzzzz"]
      = CacheUtils.Returns random_id url_cache1 rest
    /\ CacheUtils.get_or_create_id_for_url CacheUtils.urlparse_simple
         (u "https://a.com/x?y=1#frag") url_cache1 []
       = CacheUtils.Returns random_id url_cache1 []
    /\ length url_cache1 = 2%nat.
Proof.
  destruct (proj1 (get_or_create_twice CacheUtils.urlparse_simple
              (u "https://a.com/x?y=1#frag")
              [{| CacheUtils.url := u "https://b.org/";
                  CacheUtils.normalized_url := u "https://b.org/";
                  CacheUtils.random_id := u "Ab3dE6gH9j" |}]
              [u "Ab3dE6gH9j"; u "k2LmN5pQ8r"; u "zzzzzzzzzz"] [])
              (u "https://a.com/x") eq_refl)
    as (rid & c1 & rest & H1 & H2 & Hnew & _).
  - right. exists (u "k2LmN5pQ8r"). split; [right; left; reflexivity|].
    vm_compute. intros H. inversion H as [|? ? ? H']; inversion H'.
  - exists rid, c1, rest. split; [exact H1|]. split; [exact H2|].
    apply Hnew. intros (r & [<-|[]] & Hr). vm_compute in Hr. discriminate.
Defined.

(** Where C5 fails: [urlparse('http://a]b/c')] raises
    ValueError('Invalid IPv6 URL'), so neither call returns an id. *)
Example rejected_url_gets_no_id :
  CacheUtils.urlparse_simple (u "http://a]b/c")
  = Raised (u "Invalid IPv6 URL")
  /\ CacheUtils.get_or_create_id_for_url CacheUtils.urlparse_simple
       (u "http://a]b/c") [] [u "k2LmN5pQ8r"]
     = CacheUtils.ValueError (u "Invalid IPv6 URL").
Proof. vm_compute. split; reflexivity. Qed.

Example get_or_create_same_normalized_url :
  CacheUtils.get_or_create_id_for_url CacheUtils.urlparse_simple
    (u "https://a.com/x?y=2")
    [{| CacheUtils.url := u "https://a.com/x?y=1#frag";
        CacheUtils.normalized_url := u "https://a.com/x";
        CacheUtils.random_id := u "k2LmN5pQ8r" |}]
    [u "zzzzzzzzzz"]
  = CacheUtils.Returns (u "k2LmN5pQ8r")
      [{| CacheUtils.url := u "https://a.com/x?y=1#frag";
          CacheUtils.normalized_url := u "https://a.com/x";
          CacheUtils.random_id := u "k2LmN5pQ8r" |}]
      [u "zzzzzzzzzz"].
Proof. vm_compute. reflexivity. Qed.

(** ** process/process_json.py *)

Section Transcript.
Import ProcessJson.

Definition is_assistant (m : message) : bool := has_role (u "assistant") m.
Definition is_user (m : message) : bool := has_role (u "user") m.

(** Content of the second member of a run. *)
Definition second_content (run : list message) : str :=
  match run with
  | _ :: m2 :: _ => content_of m2
  | _ => []
  end.

(** No two neighbours of the list are both assistant messages. *)
Definition no_assistant_pair (ms : list message) : Prop :=
  forall l1 a b l2, ms = l1 ++ a :: b :: l2 ->
                    is_assistant a && is_assistant b = false.

Lemma first_user_content_spec (pre post : list message) (m : message) :
  Forall (fun x => is_user x = false) pre ->
  is_user m = true ->
  first_user_content (pre ++ m :: post) = content_of m.
Proof.
  intros Hpre Hm. induction Hpre as [|x pre Hx _ IH]; simpl.
  - unfold is_user in Hm. rewrite Hm. reflexivity.
  - unfold is_user in Hx. rewrite Hx. exact IH.
Qed.

Lemma first_user_content_none (ms : list message) :
  Forall (fun x => is_user x = false) ms -> first_user_content ms = [].
Proof.
  induction 1 as [|x ms Hx _ IH]; simpl; [reflexivity|].
  unfold is_user in Hx. rewrite Hx. exact IH.
Qed.

Lemma consecutive_skip (m : message) (rest : list message) :
  is_assistant m = false ->
  consecutive_assistants (m :: rest) = consecutive_assistants rest.
Proof.
  intros Hm. unfold is_assistant in Hm.
  destruct rest as [|m2 rest]; simpl; [reflexivity|].
  rewrite Hm. reflexivity.
Qed.

Lemma consecutive_pair (m1 m2 : message) (rest : list message) :
  is_assistant m1 = true -> is_assistant m2 = true ->
  consecutive_assistants (m1 :: m2 :: rest) = [m1; m2].
Proof.
  unfold is_assistant. intros H1 H2. simpl. rewrite H1, H2. reflexivity.
Qed.

(** Once the current run has two members, it is the run that is found,
    possibly longer, and its second member is settled. *)
Lemma first_long_run_long (ms cur : list message) :
  (2 <= length cur)%nat ->
  exists run, first_long_run cur ms = Some run
              /\ second_content run = second_content cur.
Proof.
  revert cur. induction ms as [|m ms IH]; intros cur Hlen;
    assert (E : (2 <=? length cur)%nat = true) by (apply Nat.leb_le; lia);
    cbn [first_long_run].
  - rewrite E. exists cur. split; reflexivity.
  - destruct (has_role (u "assistant") m).
    + destruct (IH (cur ++ [m])) as (run & -> & Hrun).
      * rewrite length_app. simpl. lia.
      * exists run. split; [reflexivity|]. rewrite Hrun.
        destruct cur as [|a [|b cur]]; simpl in *; try lia. reflexivity.
    + rewrite E. exists cur. split; reflexivity.
Qed.

Definition spec_answer (found : option (list message)) : str :=
  match found with Some run => second_content run | None => [] end.

Lemma first_long_run_refines (ms : list message) :
  (forall m0, is_assistant m0 = true ->
     spec_answer (first_long_run [m0] ms)
     = second_content (consecutive_assistants (m0 :: ms)))
  /\ spec_answer (first_long_run [] ms)
     = second_content (consecutive_assistants ms).
Proof.
  induction ms as [|m ms [IH1 IH0]].
  - split; [intros m0 _|]; reflexivity.
  - split.
    + intros m0 H0. cbn [first_long_run app length Nat.leb].
      destruct (has_role (u "assistant") m) eqn:Hm.
      * destruct (first_long_run_long ms [m0; m]) as (run & -> & Hr);
          [simpl; lia|].
        rewrite consecutive_pair by assumption. exact Hr.
      * rewrite IH0.
        rewrite <- (consecutive_skip m ms) by exact Hm.
        unfold is_assistant in H0.
        cbn [consecutive_assistants]. rewrite H0, Hm. reflexivity.
    + cbn [first_long_run app length Nat.leb].
      destruct (has_role (u "assistant") m) eqn:Hm.
      * apply IH1. exact Hm.
      * rewrite IH0. rewrite (consecutive_skip m) by exact Hm.
        reflexivity.
Qed.

Lemma answer_of_refines (ms : list message) :
  answer_of ms = answer_spec ms.
Proof.
  unfold answer_of, answer_spec.
  pose proof (proj2 (first_long_run_refines ms)) as H.
  unfold spec_answer, second_content in H.
  destruct (first_long_run [] ms) as [run|];
    destruct (consecutive_assistants ms) as [|? [|? ?]];
    try destruct run as [|? [|? ?]]; congruence.
Qed.

Lemma answer_of_first_pair (pre post : list message) (m1 m2 : message) :
  is_assistant m1 = true -> is_assistant m2 = true ->
  no_assistant_pair (pre ++ [m1]) ->
  answer_of (pre ++ m1 :: m2 :: post) = content_of m2.
Proof.
  intros H1 H2. unfold answer_of. induction pre as [|x pre IH]; intros Hno.
  - simpl app. rewrite consecutive_pair by assumption. reflexivity.
  - assert (Hno' : no_assistant_pair (pre ++ [m1])).
    { intros l1 a b l2 E. apply (Hno (x :: l1) a b l2).
      simpl. rewrite E. reflexivity. }
    specialize (IH Hno').
    assert (Hx : exists y rest, pre ++ m1 :: m2 :: post = y :: rest
                                /\ is_assistant x && is_assistant y = false).
    { destruct pre as [|y pre].
      - exists m1, (m2 :: post). split; [reflexivity|].
        apply (Hno [] x m1 []). reflexivity.
      - exists y, (pre ++ m1 :: m2 :: post). split; [reflexivity|].
        apply (Hno [] x y (pre ++ [m1])). reflexivity. }
    destruct Hx as (y & rest & E & Hxy).
    simpl app. rewrite E in *. simpl.
    unfold is_assistant in Hxy. rewrite Hxy. exact IH.
Qed.

Lemma answer_of_no_pair (ms : list message) :
  no_assistant_pair ms -> answer_of ms = [].
Proof.
  unfold answer_of. induction ms as [|m1 ms IH]; intros Hno.
  - reflexivity.
  - destruct ms as [|m2 ms]; [reflexivity|].
    simpl. pose proof (Hno [] m1 m2 ms eq_refl) as H.
    unfold is_assistant in H. rewrite H.
    apply IH. intros l1 a b l2 E. apply (Hno (m1 :: l1) a b l2).
    simpl. rewrite E. reflexivity.
Qed.

End Transcript.

(** C7. For a transcript whose [messages] array is [ms], the extractor
    returns a record; its prompt is the content of the first message with
    role "user"; its answer is the content of the second member of the
    first run, from the left, of two or more consecutive "assistant"
    messages, which is the second message of the first pair of
    neighbouring assistant messages; and the answer is the empty string
    when no two neighbours are both assistant messages. *)
Theorem process_openai_json_extraction (d : ProcessJson.transcript)
    (ms : list ProcessJson.message) :
  ProcessJson.messages d = Some ms ->
  exists r,
    ProcessJson.process_openai_json (Some d) = Some r
    /\ (forall pre m post,
          ms = pre ++ m :: post ->
          Forall (fun x => is_user x = false) pre ->
          is_user m = true ->
          ProcessJson.e_prompt r = ProcessJson.content_of m)
    /\ ProcessJson.e_answer r = ProcessJson.answer_spec ms
    /\ (forall pre m1 m2 post,
          ms = pre ++ m1 :: m2 :: post ->
          is_assistant m1 = true -> is_assistant m2 = true ->
          no_assistant_pair (pre ++ [m1]) ->
          ProcessJson.e_answer r = ProcessJson.content_of m2)
    /\ (no_assistant_pair ms -> ProcessJson.e_answer r = []).
Proof.
  intros Hms. unfold ProcessJson.process_openai_json. rewrite Hms.
  eexists. split; [reflexivity|]. simpl. split; [|split; [|split]].
  - intros pre m post -> Hpre Hm. apply first_user_content_spec; assumption.
  - apply answer_of_refines.
  - intros pre m1 m2 post -> H1 H2 Hno.
    apply answer_of_first_pair; assumption.
  - apply answer_of_no_pair.
Qed.

Definition msg (r c : string) : ProcessJson.message :=
  {| ProcessJson.role := Some (u r); ProcessJson.content := Some (u c) |}.

Lemma process_openai_json_extraction_witness :
  exists r,
    ProcessJson.process_openai_json
      (Some {| ProcessJson.messages :=
                 Some [msg "system" "s"; msg "user" "question";
                       msg "assistant" "plan"; msg "user" "go on";
                       msg "assistant" "thinking"; msg "assistant" "report";
                       msg "assistant" "extra"];
               ProcessJson.activity := None;
               ProcessJson.reference := Some (u "<a></a>") |}) = Some r
    /\ ProcessJson.e_prompt r = u "question"
    /\ ProcessJson.e_answer r = u "report".
Proof.
  destruct (process_openai_json_extraction
              {| ProcessJson.messages :=
                   Some [msg "system" "s"; msg "user" "question";
                         msg "assistant" "plan"; msg "user" "go on";
                         msg "assistant" "thinking"; msg "assistant" "report";
                         msg "assistant" "extra"];
                 ProcessJson.activity := None;
                 ProcessJson.reference := Some (u "<a></a>") |}
              _ eq_refl)
    as (r & Hr & Hprompt & Hspec & Hpair & _).
  exists r. split; [exact Hr|]. split.
  - apply (Hprompt [msg "system" "s"] (msg "user" "question")
             [msg "assistant" "plan"; msg "user" "go on";
              msg "assistant" "thinking"; msg "assistant" "report";
              msg "assistant" "extra"]).
    + reflexivity.
    + repeat constructor.
    + reflexivity.
  - rewrite Hspec. vm_compute. reflexivity.
Defined.

Example single_assistant_runs_give_no_answer :
  ProcessJson.answer_of
    [msg "user" "q"; msg "assistant" "a1"; msg "user" "q2";
     msg "assistant" "a2"] = []
  /\ ProcessJson.answer_spec
       [msg "user" "q"; msg "assistant" "a1"; msg "user" "q2";
        msg "assistant" "a2"] = [].
Proof. split; vm_compute; reflexivity. Qed.

(** ** metrics_calculator.py: calculate_file_metrics *)

Section FileMetrics.
Import Metrics.

(** The entry a file contributes to [missing_files]. *)
Definition miss {A} (f : file A) (name : string) : list str :=
  match f with
  | Table _ => []
  | _ => [u name]
  end.








Lemma in_miss {A} (f : file A) (name : string) :
  f = Absent \/ f = Unreadable -> In (u name) (miss f name).
Proof. intros [->| ->]; left; reflexivity. Qed.

End FileMetrics.


Definition only_citations : Metrics.results_dir :=
  {| Metrics.citations_csv := Metrics.Table 12%nat;
     Metrics.no_citations_csv := Metrics.Absent;
     Metrics.matched_csv := Metrics.Table 9%nat;
     Metrics.final_csv := Metrics.Absent;
     Metrics.no_citations_web_final_csv := Metrics.Absent |}.


Example metrics_of_only_citations :
  option_map (fun r => (Metrics.missing_files r, Metrics.match_rate r,
                        Metrics.total_statements r))
    (Metrics.calculate_file_metrics only_citations (u "2401.00001"))
  = Some ([u "no_citations.csv"; u "final.csv";
           u "no_citations_web_final.csv"], (9 # 12)%Q, 12).
Proof. vm_compute. reflexivity. Qed.



(** ** process/extract_reference_structured.py *)

Section ReferenceSplit.
Import CacheUtils Reference.
Variable urlparse : str -> result str url_parts.
Variable int_max_str_digits : nat.

(** The anchor [l] is serialized at offset [o] of the document. *)
Definition serialized_at (html : str) (l : link) (o : nat) : Prop :=
  (o <= length html)%nat /\ startswith (outer_html l) (skipn o html) = true.

Definition before (boundary : Z) (o : nat) : bool := Z.of_nat o <? boundary.

Definition count_before (boundary : Z) (offs : list nat) : nat :=
  length (List.filter (before boundary) offs).

Definition count_after (boundary : Z) (offs : list nat) : nat :=
  length (List.filter (fun o => negb (before boundary o)) offs).

(** The count read off a display text: its trailing digit run, else 1. *)
Definition count_of (display_text : str) : Z :=
  match trailing_digits display_text with
  | Some (_, digits, _) => int_of_digits digits
  | None => 1
  end.

(** A summary entry made from one of the anchors. *)
Definition summarizes (links : list link) (info : domain_info) : Prop :=
  exists l, In l links /\ s_href info = href l
            /\ s_count info = count_of (text l).

(** [urlparse] accepts the href. *)
Definition accepted (target : str) : Prop :=
  exists parsed_url, urlparse target = Returned parsed_url.

(** [int] converts the trailing digit run of the text, if there is
    one. *)
Definition digits_convert (display_text : str) : Prop :=
  match trailing_digits display_text with
  | Some (_, digits, _) =>
    exists count, int int_max_str_digits digits = Returned count
  | None => True
  end.

(** The exception an anchor makes the loop end with, if any: an anchor
    with an href, found before the boundary, whose href [urlparse]
    rejects; or one found at or after it whose text ends in more digits
    than [int] converts. *)
Definition trouble (html : str) (boundary : Z) (l : link)
    : option exception :=
  if negb (truthy (href l)) then None
  else if find html (outer_html l) <? boundary then
    match urlparse (href l) with
    | Raised message => Some (InvalidURL message)
    | Returned _ => None
    end
  else
    match trailing_digits (text l) with
    | Some (_, digits, _) =>
      match int int_max_str_digits digits with
      | Raised e => Some e
      | Returned _ => None
      end
    | None => None
    end.

Fixpoint first_trouble (html : str) (boundary : Z) (links : list link)
    : option exception :=
  match links with
  | [] => None
  | l :: rest =>
    match trouble html boundary l with
    | Some e => Some e
    | None => first_trouble html boundary rest
    end
  end.

Lemma int_returns (digits : str) :
  int_max_str_digits = 0%nat \/ (length digits <= int_max_str_digits)%nat ->
  int int_max_str_digits digits = Returned (int_of_digits digits).
Proof.
  intros H. unfold int.
  destruct (Nat.ltb_spec 0 int_max_str_digits) as [H0|H0];
    [|reflexivity].
  destruct (Nat.ltb_spec int_max_str_digits (length digits)) as [H1|H1];
    [lia | reflexivity].
Qed.

Lemma int_raises (digits : str) :
  (0 < int_max_str_digits < length digits)%nat ->
  int int_max_str_digits digits = Raised TooManyDigits.
Proof.
  intros [H0 H1]. unfold int.
  destruct (Nat.ltb_spec 0 int_max_str_digits); [|lia].
  destruct (Nat.ltb_spec int_max_str_digits (length digits)); [|lia].
  reflexivity.
Qed.

Lemma extract_detailed_some (l : link) (index : Z) :
  href l <> [] -> accepted (href l) ->
  exists ref_info, extract_detailed_reference_simple urlparse l index
                   = Returned (Some ref_info).
Proof.
  intros Hh (parsed_url & Hp). unfold extract_detailed_reference_simple.
  rewrite Hp. destruct (href l) as [|c h]; [contradiction|]. simpl.
  destruct (match divs l with
            | [] => _ | _ :: _ => _ end) as [title description].
  eexists. reflexivity.
Qed.

Lemma extract_domain_info_some (l : link) (index : Z) :
  href l <> [] -> digits_convert (text l) ->
  exists info, extract_domain_info_simple int_max_str_digits l index
               = Returned (Some info)
               /\ s_href info = href l
               /\ s_count info = count_of (text l).
Proof.
  intros Hh Hc. unfold extract_domain_info_simple, count_of.
  unfold digits_convert in Hc.
  destruct (href l) as [|c h] eqn:E; [contradiction|]. simpl.
  destruct (trailing_digits (text l)) as [[[b d] a]|].
  - destruct Hc as (count & Hc). rewrite Hc.
    eexists. split; [reflexivity|]. simpl. split; [reflexivity|].
    unfold int in Hc. destruct (_ && _); [discriminate|].
    injection Hc as <-. reflexivity.
  - eexists. split; [reflexivity|]. simpl. auto.
Qed.

(** The loop, for anchors laid out at [offs]: an anchor that starts
    before the boundary is found before it; an anchor that starts at or
    after it goes to the summary if its text does not occur earlier. *)
Lemma classify_counts (html : str) (boundary : Z)
    (links0 : list link) (links : list link) (offs : list nat) :
  Forall2 (serialized_at html) links offs ->
  Forall (fun l => href l <> []) links ->
  Forall2 (fun l o => boundary <= Z.of_nat o ->
                      boundary <= find html (outer_html l)) links offs ->
  Forall2 (fun l o => before boundary o = true -> accepted (href l))
          links offs ->
  Forall2 (fun l o => before boundary o = false -> digits_convert (text l))
          links offs ->
  (forall l, In l links -> In l links0) ->
  forall detailed summary,
  Forall (summarizes links0) summary ->
  exists r,
    classify urlparse int_max_str_digits html boundary links detailed summary
    = Returned r
    /\ length (detailed_references r)
       = (length detailed + count_before boundary offs)%nat
    /\ length (domain_summary r)
       = (length summary + count_after boundary offs)%nat
    /\ Forall (summarizes links0) (domain_summary r).
Proof.
  intros Hlay. induction Hlay as [|l o links offs [Hlen Hocc] _ IH];
    intros Hhref Hlate Hacc Hdig Hsub detailed summary Hsum.
  - eexists. split; [reflexivity|].
    simpl. unfold count_before, count_after. simpl.
    rewrite !Nat.add_0_r. auto.
  - inversion Hhref as [|? ? Hl Hhref']; subst.
    inversion Hlate as [|? ? ? ? Ho Hlate']; subst.
    inversion Hacc as [|? ? ? ? Ha Hacc']; subst.
    inversion Hdig as [|? ? ? ? Hd Hdig']; subst.
    assert (Hsub' : forall x, In x links -> In x links0)
      by (intros x Hx; apply Hsub; right; exact Hx).
    pose proof (find_first html (outer_html l) o Hlen Hocc) as Hfind.
    cbn [classify]. unfold count_before, count_after. cbn [List.filter].
    destruct (before boundary o) eqn:Hbef; cbn [negb length].
    + specialize (Ha eq_refl). unfold before in Hbef.
      apply Z.ltb_lt in Hbef.
      destruct (Z.ltb_spec (find html (outer_html l)) boundary); [|lia].
      destruct (extract_detailed_some l (Z.of_nat (length detailed) + 1)
                  Hl Ha) as (ref_info & ->).
      destruct (IH Hhref' Hlate' Hacc' Hdig' Hsub'
                  (detailed ++ [ref_info]) summary Hsum)
        as (r & Hr & H1 & H2 & H3).
      exists r. split; [exact Hr|].
      rewrite length_app in H1. simpl in H1.
      unfold count_before, count_after in H1, H2.
      split; [lia|]. split; [lia | exact H3].
    + specialize (Hd eq_refl). unfold before in Hbef.
      apply Z.ltb_ge in Hbef. specialize (Ho Hbef).
      destruct (Z.ltb_spec (find html (outer_html l)) boundary); [lia|].
      destruct (extract_domain_info_some l (Z.of_nat (length summary) + 1)
                  Hl Hd) as (info & -> & Hi1 & Hi2).
      destruct (IH Hhref' Hlate' Hacc' Hdig' Hsub'
                  detailed (summary ++ [info]))
        as (r & Hr & H1 & H2 & H3).
      { apply Forall_app. split; [exact Hsum|].
        constructor; [|constructor].
        exists l. split; [apply Hsub; left; reflexivity | auto]. }
      exists r. split; [exact Hr|].
      rewrite length_app in H2. simpl in H2.
      unfold count_before, count_after in H1, H2.
      split; [lia|]. split; [lia | exact H3].
Qed.

Lemma extract_detailed_cases (html : str) (boundary : Z) (l : link)
    (index : Z) :
  (find html (outer_html l) <? boundary) = true ->
  match trouble html boundary l with
  | Some e =>
    extract_detailed_reference_simple urlparse l index = Raised e
  | None =>
    exists o, extract_detailed_reference_simple urlparse l index
              = Returned o
  end.
Proof.
  intros Hpos. unfold trouble, extract_detailed_reference_simple.
  rewrite Hpos. destruct (negb (truthy (href l))); [eauto|].
  destruct (urlparse (href l)); [|reflexivity].
  destruct (match divs l with [] => _ | _ :: _ => _ end). eauto.
Qed.

Lemma extract_domain_info_cases (html : str) (boundary : Z) (l : link)
    (index : Z) :
  (find html (outer_html l) <? boundary) = false ->
  match trouble html boundary l with
  | Some e =>
    extract_domain_info_simple int_max_str_digits l index = Raised e
  | None =>
    exists o, extract_domain_info_simple int_max_str_digits l index
              = Returned o
  end.
Proof.
  intros Hpos. unfold trouble, extract_domain_info_simple.
  rewrite Hpos. destruct (negb (truthy (href l))); [eauto|].
  destruct (trailing_digits (text l)) as [[[b d] a]|]; [|eauto].
  destruct (int int_max_str_digits d); [eauto | reflexivity].
Qed.

(** The loop ends with the exception of the first anchor that brings
    one, and returns when no anchor does. *)
Lemma classify_cases (html : str) (boundary : Z) (links : list link) :
  forall detailed summary,
  match first_trouble html boundary links with
  | Some e =>
    classify urlparse int_max_str_digits html boundary links
             detailed summary = Raised e
  | None =>
    exists r, classify urlparse int_max_str_digits html boundary links
                       detailed summary = Returned r
  end.
Proof.
  induction links as [|l rest IH]; intros detailed summary.
  - simpl. eauto.
  - cbn [first_trouble classify].
    destruct (find html (outer_html l) <? boundary) eqn:Hpos.
    + pose proof (extract_detailed_cases html boundary l
                    (Z.of_nat (length detailed) + 1) Hpos) as Hc.
      destruct (trouble html boundary l) as [e|].
      * rewrite Hc. reflexivity.
      * destruct Hc as ([ref_info|] & ->); apply IH.
    + pose proof (extract_domain_info_cases html boundary l
                    (Z.of_nat (length summary) + 1) Hpos) as Hc.
      destruct (trouble html boundary l) as [e|].
      * rewrite Hc. reflexivity.
      * destruct Hc as ([info|] & ->); apply IH.
Qed.

End ReferenceSplit.

(** Concrete fragments: an anchor as the parser shows it. *)
Definition quote : str := [34%N].

Definition anchor (target : string) (inner : string) (div_texts : list str)
    (display : string) : Reference.link :=
  {| Reference.outer_html :=
       u "<a href=" ++ quote ++ u target ++ quote ++ u ">" ++ u inner
       ++ u "</a>";
     Reference.href := u target;
     Reference.divs := div_texts;
     Reference.text := u display |}.

Definition soup_of (before_marker : list Reference.link) (marker : string)
    (after_marker : list Reference.link) : Reference.soup :=
  {| Reference.html_str :=
       concat (List.map Reference.outer_html before_marker)
       ++ u "<p>" ++ u marker ++ u "</p>"
       ++ concat (List.map Reference.outer_html after_marker);
     Reference.all_links := before_marker ++ after_marker;
     Reference.source_element := Some (u marker) |}.

(** Offsets at which the anchors of [soup_of] start. *)
Fixpoint offsets_from (o : nat) (links : list Reference.link) : list nat :=
  match links with
  | [] => []
  | l :: rest =>
    o :: offsets_from (o + length (Reference.outer_html l)) rest
  end.

Definition offsets_of (before_marker : list Reference.link)
    (marker : string) (after_marker : list Reference.link) : list nat :=
  offsets_from 0 before_marker
  ++ offsets_from
       (length (concat (List.map Reference.outer_html before_marker))
        + length (u "<p>" ++ u marker ++ u "</p>"))
       after_marker.

Definition three_detailed : list Reference.link :=
  [ anchor "https://a.com/1"
      "<div>a.com</div><div>Title</div><div>Text</div>"
      [u "a.com"; u "Title"; u "Text"] "a.comTitleText";
    anchor "https://b.org/2" "b" [] "b";
    anchor "https://c.net/3" "c" [] "c" ].

Definition two_domains : list Reference.link :=
  [ anchor "https://a.com" "a.com2" [] "a.com2";
    anchor "https://c.net" "c.net" [] "c.net" ].

Ltac each_entry :=
  repeat match goal with
         | |- Forall2 _ _ _ => constructor
         | |- Forall _ _ => constructor
         end.

Ltac compute_lists :=
  match goal with
  | |- Forall2 ?P ?ls ?os =>
    let ls' := eval vm_compute in ls in
    let os' := eval vm_compute in os in
    change (Forall2 P ls' os')
  end.

Ltac solve_layout :=
  vm_compute; each_entry; (split; [lia | reflexivity]).

(** Where C6 fails: an anchor whose [href] is empty is found by
    [find_all('a', href=True)] but both extractors return nothing for it,
    so of three anchors before the marker only two become detailed
    references. *)
Lemma empty_href_anchor_is_not_counted :
  let before_marker :=
    [ anchor "https://a.com/1" "a" [] "a"; anchor "" "b" [] "b";
      anchor "https://c.net/3" "c" [] "c" ] in
  let sp := soup_of before_marker "全部来源" two_domains in
  let offs := offsets_of before_marker "全部来源" two_domains in
  let boundary := Reference.source_position (Reference.html_str sp) in
  Forall2 (serialized_at (Reference.html_str sp)) (Reference.all_links sp)
          offs
  /\ count_before boundary offs = 3%nat
  /\ count_after boundary offs = 2%nat
  /\ exists r,
       Reference.extract_reference_structured CacheUtils.urlparse_simple
         4300 (Reference.html_str sp) sp = Returned (Some r)
       /\ length (Reference.detailed_references r) = 2%nat
       /\ length (Reference.domain_summary r) = 2%nat.
Proof.
  cbv zeta. split.
  - solve_layout.
  - split; [vm_compute; reflexivity|]. split; [vm_compute; reflexivity|].
    eexists. split; [vm_compute; reflexivity|]. split; reflexivity.
Qed.

(** C6, amended. Without a text node that contains "全部来源" or
    "All Sources", and for an empty fragment, there is no result. With
    one, let the boundary be the first occurrence of "全部来源" in the
    serialized document, or of "All Sources" when "全部来源" does not
    occur. If every anchor has a non-empty [href], no anchor that starts
    at or after the boundary has a serialization that also occurs before
    it, urlparse accepts the href of every anchor that starts before the
    boundary, and the text of no anchor that starts at or after it ends
    in more digits than int converts, then a result is returned with as
    many detailed references as anchors start before the boundary and as
    many domain-summary entries as anchors start at or after it (3 and 2
    for 3 and 2 anchors); every summary entry comes from an anchor, with
    the count parsed from the trailing run of decimal digits of its
    text, 1 without one. Whenever there is a marker, the call ends with
    the exception of the first anchor that brings one: the ValueError of
    urlparse for an anchor found before the boundary, that of int for
    one found at or after it. *)
Theorem reference_split_boundary
    (urlparse : str -> result str CacheUtils.url_parts)
    (int_max_str_digits : nat) :
  (forall reference_html sp,
     reference_html = [] \/ Reference.source_element sp = None ->
     Reference.extract_reference_structured urlparse int_max_str_digits
       reference_html sp
     = Returned None)
  /\ (forall reference_html sp offs marker,
        reference_html <> [] ->
        Reference.source_element sp = Some marker ->
        Forall2 (serialized_at (Reference.html_str sp))
                (Reference.all_links sp) offs ->
        Forall (fun l => Reference.href l <> []) (Reference.all_links sp) ->
        Forall2 (fun l o =>
                   Reference.source_position (Reference.html_str sp)
                     <= Z.of_nat o ->
                   Reference.source_position (Reference.html_str sp)
                     <= find (Reference.html_str sp)
                             (Reference.outer_html l))
                (Reference.all_links sp) offs ->
        Forall2 (fun l o =>
                   before (Reference.source_position (Reference.html_str sp))
                          o = true ->
                   accepted urlparse (Reference.href l))
                (Reference.all_links sp) offs ->
        Forall2 (fun l o =>
                   before (Reference.source_position (Reference.html_str sp))
                          o = false ->
                   digits_convert int_max_str_digits (Reference.text l))
                (Reference.all_links sp) offs ->
        exists r,
          Reference.extract_reference_structured urlparse int_max_str_digits
            reference_html sp
            = Returned (Some r)
          /\ length (Reference.detailed_references r)
             = count_before
                 (Reference.source_position (Reference.html_str sp)) offs
          /\ length (Reference.domain_summary r)
             = count_after
                 (Reference.source_position (Reference.html_str sp)) offs
          /\ Forall (summarizes (Reference.all_links sp))
                    (Reference.domain_summary r))
  /\ (forall reference_html sp marker e,
        reference_html <> [] ->
        Reference.source_element sp = Some marker ->
        first_trouble urlparse int_max_str_digits (Reference.html_str sp)
          (Reference.source_position (Reference.html_str sp))
          (Reference.all_links sp) = Some e ->
        Reference.extract_reference_structured urlparse int_max_str_digits
          reference_html sp
        = Raised e).
Proof.
  split; [|split].
  - intros reference_html sp [-> | H];
      unfold Reference.extract_reference_structured; [reflexivity|].
    rewrite H. destruct (negb (truthy reference_html)); reflexivity.
  - intros reference_html sp offs marker Hne Hmark Hlay Hhref Hlate
      Hacc Hdig.
    unfold Reference.extract_reference_structured. rewrite Hmark.
    destruct reference_html as [|c rest]; [contradiction|]. simpl.
    destruct (classify_counts urlparse int_max_str_digits
                (Reference.html_str sp) _
                (Reference.all_links sp) (Reference.all_links sp) offs
                Hlay Hhref Hlate Hacc Hdig (fun l H => H) [] [])
      as (r & -> & H); [constructor|].
    exists r. split; [reflexivity | exact H].
  - intros reference_html sp marker e Hne Hmark Hfirst.
    unfold Reference.extract_reference_structured. rewrite Hmark.
    destruct reference_html as [|c rest]; [contradiction|]. simpl.
    pose proof (classify_cases urlparse int_max_str_digits
                  (Reference.html_str sp)
                  (Reference.source_position (Reference.html_str sp))
                  (Reference.all_links sp) [] []) as Hc.
    rewrite Hfirst in Hc. rewrite Hc. reflexivity.
Qed.

Lemma reference_split_boundary_witness :
  let sp := soup_of three_detailed "全部来源" two_domains in
  exists r,
    Reference.extract_reference_structured CacheUtils.urlparse_simple 4300
      (Reference.html_str sp) sp = Returned (Some r)
    /\ length (Reference.detailed_references r) = 3%nat
    /\ length (Reference.domain_summary r) = 2%nat.
Proof.
  intros sp.
  destruct (proj1 (proj2 (reference_split_boundary
                            CacheUtils.urlparse_simple 4300))
              (Reference.html_str sp) sp
              (offsets_of three_detailed "全部来源" two_domains)
              (u "全部来源"))
    as (r & Hr & Hd & Hs & _).
  - vm_compute. discriminate.
  - reflexivity.
  - solve_layout.
  - vm_compute. each_entry; discriminate.
  - vm_compute. each_entry; intros H; exact H.
  - vm_compute. each_entry; intros _; eexists; reflexivity.
  - compute_lists. each_entry; intros _; vm_compute; try exact I;
      eexists; reflexivity.
  - exists r. split; [exact Hr|]. split.
    + rewrite Hd. vm_compute. reflexivity.
    + rewrite Hs. vm_compute. reflexivity.
Defined.

Example reference_split_result :
  let sp := soup_of three_detailed "All Sources" two_domains in
  match Reference.extract_reference_structured CacheUtils.urlparse_simple
          4300 (Reference.html_str sp) sp with
  | Returned (Some r) =>
    (List.map (fun d => (Reference.d_index d, Reference.d_domain d,
                         Reference.d_title d))
              (Reference.detailed_references r),
     List.map (fun s => (Reference.s_index s, Reference.s_domain s,
                         Reference.s_count s))
              (Reference.domain_summary r))
    = ([(1, u "a.com", u "Title"); (2, u "b.org", u "b");
        (3, u "c.net", u "c")],
       [(1, u "a.com", 2); (2, u "c.net", 1)])
  | _ => False
  end.
Proof. vm_compute. reflexivity. Qed.

(** What the loop does with an anchor after the marker whose
    serialization also occurs before it: [find] locates the first
    occurrence, so the anchor is counted with the detailed references. *)
Lemma repeated_anchor_counts_as_detailed :
  let repeated := anchor "https://b.org/2" "b" [] "b" in
  let sp := soup_of three_detailed "全部来源" [repeated; repeated] in
  exists r,
    Reference.extract_reference_structured CacheUtils.urlparse_simple 4300
      (Reference.html_str sp) sp = Returned (Some r)
    /\ length (Reference.detailed_references r) = 5%nat
    /\ length (Reference.domain_summary r) = 0%nat.
Proof. eexists. split; [vm_compute; reflexivity|]. split; reflexivity. Qed.

(** An anchor before the marker whose href urlparse rejects: the
    ValueError leaves [extract_reference_structured], and the anchors
    after it are not looked at. *)
Example rejected_href_ends_the_extraction :
  let sp :=
    soup_of [ anchor "https://a.com/1" "a" [] "a";
              anchor "http://[" "b" [] "b";
              anchor "https://c.net/3" "c" [] "c" ]
            "全部来源" two_domains in
  Reference.extract_reference_structured CacheUtils.urlparse_simple 4300
    (Reference.html_str sp) sp
  = Raised (Reference.InvalidURL (u "Invalid IPv6 URL")).
Proof. vm_compute. reflexivity. Qed.

(** The count is read off digits of any script: fullwidth "１２" is 12. *)
Example fullwidth_digits_are_counted :
  Reference.extract_domain_info_simple 4300
    (anchor "https://www.sohu.com" "sohu１２" [] "sohu１２") 1
  = Returned (Some {| Reference.s_index := 1;
                      Reference.s_domain := u "sohu";
                      Reference.s_href := u "https://www.sohu.com";
                      Reference.s_count := 12 |}).
Proof. vm_compute. reflexivity. Qed.

(** * Further functions of the cited files and of their callers *)

(** ** Occurrences of a substring *)

Lemma startswith_app (p rest : str) : startswith p (p ++ rest) = true.
Proof.
  induction p as [|c p IH]; simpl; [reflexivity|].
  rewrite N.eqb_refl. exact IH.
Qed.

Lemma startswith_inv (p s : str) :
  startswith p s = true -> exists rest, s = p ++ rest.
Proof.
  revert s. induction p as [|c p IH]; intros s H.
  - exists s. reflexivity.
  - destruct s as [|d s]; simpl in H; [discriminate|].
    apply andb_true_iff in H as [Hc Hp]. apply N.eqb_eq in Hc as ->.
    destruct (IH s Hp) as (rest & ->). exists rest. reflexivity.
Qed.

Lemma find_from_occurrence (sub s : str) (i : Z) :
  find_from sub s i <> -1 -> 0 <= i ->
  exists pre post,
    s = pre ++ sub ++ post
    /\ find_from sub s i = i + Z.of_nat (length pre).
Proof.
  revert i. induction s as [|c s IH]; intros i Hfound Hi; simpl in *.
  - destruct (startswith sub []) eqn:E; [|contradiction].
    destruct (startswith_inv _ _ E) as (rest & Hs).
    exists [], rest. simpl. split; [exact Hs | lia].
  - destruct (startswith sub (c :: s)) eqn:E.
    + destruct (startswith_inv _ _ E) as (rest & Hs).
      exists [], rest. simpl. split; [exact Hs | lia].
    + destruct (IH (i + 1) Hfound ltac:(lia)) as (pre & post & -> & Hr).
      exists (c :: pre), post. simpl. split; [reflexivity|].
      rewrite Hr. lia.
Qed.

(** [sub in s] holds exactly when [s] can be cut around a copy of [sub]. *)
Lemma contains_iff (sub s : str) :
  contains sub s = true <-> exists pre post, s = pre ++ sub ++ post.
Proof.
  unfold contains. split.
  - intros H. apply Z.leb_le in H.
    destruct (find_from_occurrence sub s 0) as (pre & post & Hs & _);
      [unfold find in H; lia | lia |]. eauto.
  - intros (pre & post & ->). apply Z.leb_le.
    apply (find_first _ sub (length pre)).
    + rewrite length_app. lia.
    + rewrite drop_app_length. apply startswith_app.
Qed.

(** ** utils.py: post_process_json *)
Module UtilsJson.

(** [s.endswith(suffix)] *)
Definition endswith (suffix s : str) : bool :=
  startswith (rev suffix) (rev s).

(** [raw[a:-b]] for [0 <= a], [0 < b]. *)
Definition slice_to_end {A} (a b : nat) (l : list A) : list A :=
  firstn (length l - b - a) (skipn a l).

Definition post_process_json (raw : str) : str :=
  if startswith (u "```json") raw && endswith (u "```") raw
  then slice_to_end (length (u "```json")) (length (u "```")) raw
  else raw.

End UtilsJson.

Lemma endswith_app (suffix rest : str) :
  UtilsJson.endswith suffix (rest ++ suffix) = true.
Proof.
  unfold UtilsJson.endswith. rewrite rev_app_distr. apply startswith_app.
Qed.

(** X1. A response wrapped in a "```json" ... "```" fence is unwrapped to
    exactly what lies between the two markers, whatever that is; a
    response that does not both start with "```json" and end with "```"
    (one with a space before the fence, for instance) is returned as it
    is; the result is never longer than the input. *)
Theorem post_process_json_unwraps :
  (forall body,
     UtilsJson.post_process_json (u "```json" ++ body ++ u "```") = body)
  /\ (forall raw,
        startswith (u "```json") raw = false
        \/ UtilsJson.endswith (u "```") raw = false ->
        UtilsJson.post_process_json raw = raw)
  /\ (forall raw,
        (length (UtilsJson.post_process_json raw) <= length raw)%nat).
Proof.
  split; [|split].
  - intros body. unfold UtilsJson.post_process_json.
    rewrite startswith_app.
    rewrite (app_assoc (u "```json") body (u "```")), endswith_app.
    rewrite <- app_assoc. simpl andb. cbv iota.
    unfold UtilsJson.slice_to_end.
    rewrite drop_app_length, !length_app.
    replace (length (u "```json") + (length body + length (u "```"))
             - length (u "```") - length (u "```json"))%nat
      with (length body) by lia.
    apply take_app_length.
  - intros raw [H|H]; unfold UtilsJson.post_process_json; rewrite H;
      [reflexivity | rewrite andb_false_r; reflexivity].
  - intros raw. unfold UtilsJson.post_process_json, UtilsJson.slice_to_end.
    destruct (_ && _); [|lia].
    rewrite length_take, length_drop. lia.
Qed.

Lemma post_process_json_unwraps_witness :
  UtilsJson.post_process_json (u " ```json{}```") = u " ```json{}```"
  /\ UtilsJson.post_process_json (u "```json{}```") = u "{}".
Proof.
  split.
  - apply (proj1 (proj2 post_process_json_unwraps)). left. reflexivity.
  - apply (proj1 post_process_json_unwraps (u "{}")).
Defined.

(** ** utils.py: more on split_text_by_headers *)

(** A string without any visible character. *)
Definition blank (s : str) : bool := forallb isspace s.

Lemma lstrip_nil_iff (s : str) : lstrip s = [] <-> blank s = true.
Proof.
  induction s as [|c s IH]; simpl; [tauto|].
  destruct (isspace c); simpl; [exact IH|]. split; discriminate.
Qed.

Lemma lstrip_head (s : str) :
  match lstrip s with
  | [] => True
  | c :: _ => isspace c = false
  end.
Proof.
  induction s as [|c s IH]; simpl; [exact I|].
  destruct (isspace c) eqn:E; [exact IH | exact E].
Qed.

Lemma rstrip_keeps_head (c : N) (s : str) :
  isspace c = false -> rstrip (c :: s) <> [].
Proof.
  intros Hc. simpl. destruct (rstrip s); [rewrite Hc|]; discriminate.
Qed.

(** [block.strip()] is falsy exactly for a blank block. *)
Lemma strip_truthy (s : str) : truthy (strip s) = negb (blank s).
Proof.
  unfold strip. pose proof (lstrip_head s) as Hh.
  destruct (lstrip s) as [|c t] eqn:E.
  - apply lstrip_nil_iff in E. rewrite E. reflexivity.
  - assert (Hb : blank s = false).
    { destruct (blank s) eqn:B; [|reflexivity].
      apply lstrip_nil_iff in B. congruence. }
    rewrite Hb. pose proof (rstrip_keeps_head c t Hh) as Hr.
    destruct (rstrip (c :: t)); [contradiction | reflexivity].
Qed.

Lemma blank_app (a b : str) : blank (a ++ b) = blank a && blank b.
Proof. unfold blank. apply forallb_app. Qed.

Lemma is_header_app (l rest : str) :
  Utils.is_header l = true -> Utils.is_header (l ++ rest) = true.
Proof.
  unfold Utils.is_header. intros H.
  apply andb_true_iff in H as [H1 H2]. apply andb_true_iff. split.
  - destruct (startswith_inv _ _ H1) as (x & ->).
    rewrite <- app_assoc. apply startswith_app.
  - apply orb_true_iff in H2 as [H2|H2];
      [apply orb_true_iff in H2 as [H2|H2]|];
      destruct (startswith_inv _ _ H2) as (x & ->);
      rewrite <- app_assoc, startswith_app;
      rewrite ?orb_true_r; reflexivity.
Qed.

Lemma is_header_not_blank (s : str) :
  Utils.is_header s = true -> blank s = false.
Proof.
  unfold Utils.is_header. intros H. apply andb_true_iff in H as [H _].
  destruct (startswith_inv _ _ H) as (x & ->). reflexivity.
Qed.

(** Joining joined groups is joining all their lines. *)
Lemma join_concat (sep : str) (gs : list (list str)) :
  Forall (fun g => g <> []) gs ->
  join sep (List.map (join sep) gs) = join sep (concat gs).
Proof.
  induction 1 as [|g gs Hg Hgs IH]; [reflexivity|].
  destruct gs as [|g2 gs].
  - simpl. rewrite app_nil_r. reflexivity.
  - change (List.map (join sep) (g :: g2 :: gs))
      with (join sep g :: List.map (join sep) (g2 :: gs)).
    rewrite join_cons by discriminate. rewrite IH.
    change (concat (g :: g2 :: gs)) with (g ++ concat (g2 :: gs)).
    rewrite join_app; [reflexivity | exact Hg |].
    inversion Hgs as [|? ? Hg2 _]; subst.
    destruct g2; [contradiction | discriminate].
Qed.

Lemma join_head (sep l : str) (g : list str) :
  exists rest, join sep (l :: g) = l ++ rest.
Proof.
  destruct g as [|l2 g]; simpl; eexists; [symmetry; apply app_nil_r|].
  reflexivity.
Qed.

Lemma join_length_firstn (sep : str) (a b : nat) (l : list str) :
  (a <= b)%nat ->
  (length (join sep (firstn a l)) <= length (join sep (firstn b l)))%nat.
Proof.
  intros Hab.
  replace b with (a + (b - a))%nat by lia.
  rewrite <- take_take_drop.
  destruct (firstn a l) as [|x xs] eqn:Ea; [simpl; lia|].
  destruct (take (b - a) (drop a l)) as [|y ys] eqn:Eb.
  - rewrite app_nil_r. lia.
  - rewrite join_app by discriminate. rewrite length_app. lia.
Qed.

Lemma slice_joins (a b : nat) (l : list str) :
  (a <= b)%nat -> firstn a l ++ slice a b l = firstn b l.
Proof.
  intros Hab. unfold slice. rewrite take_take_drop. f_equal. lia.
Qed.

Lemma slice_from_0 (b : nat) (l : list str) : slice 0 b l = firstn b l.
Proof. unfold slice. simpl. rewrite Nat.sub_0_r. reflexivity. Qed.

Lemma slice_head (a b : nat) (l : list str) (x : str) :
  nth_error l a = Some x -> (a < b)%nat ->
  exists rest, slice a b l = x :: rest.
Proof.
  unfold slice. revert b l. induction a as [|a IH]; intros b l Hx Hab.
  - destruct l as [|y l]; [discriminate|]. injection Hx as ->.
    destruct (b - 0)%nat eqn:E; [lia|]. simpl. eauto.
  - destruct l as [|y l]; [discriminate|]. simpl in Hx.
    destruct b as [|b]; [lia|].
    destruct (IH b l Hx ltac:(lia)) as (rest & Hr).
    exists rest. simpl. exact Hr.
Qed.

From Stdlib Require Import Sorted.

(** *** The branch with headings *)

Lemma blank_join (g : list str) : blank (join [NL] g) = forallb blank g.
Proof.
  induction g as [|l g IH]; [reflexivity|].
  destruct g as [|l2 g].
  - simpl. rewrite andb_true_r. reflexivity.
  - rewrite join_cons by discriminate.
    rewrite !blank_app, IH. reflexivity.
Qed.

Lemma header_indices_from_spec (lines : list str) :
  forall i h, In h (Utils.header_indices_from i lines) ->
  exists k l, h = (i + k)%nat /\ nth_error lines k = Some l
              /\ Utils.is_header l = true.
Proof.
  induction lines as [|l lines IH]; intros i h Hin; simpl in Hin; [tauto|].
  destruct (Utils.is_header l) eqn:E.
  - destruct Hin as [<-|Hin].
    + exists 0%nat, l. rewrite Nat.add_0_r. auto.
    + destruct (IH _ _ Hin) as (k & l' & -> & Hk & Hl).
      exists (S k), l'. split; [lia | auto].
  - destruct (IH _ _ Hin) as (k & l' & -> & Hk & Hl).
    exists (S k), l'. split; [lia | auto].
Qed.

Lemma header_indices_from_sorted (lines : list str) :
  forall i, StronglySorted lt (Utils.header_indices_from i lines).
Proof.
  induction lines as [|l lines IH]; intros i; simpl; [constructor|].
  destruct (Utils.is_header l); [|apply IH].
  constructor; [apply IH|].
  apply List.Forall_forall. intros h Hin.
  destruct (header_indices_from_spec _ _ _ Hin) as (k & _ & -> & _). lia.
Qed.

(** Line [i] exists and is a heading. *)
Definition header_at (lines : list str) (i : nat) : Prop :=
  exists l, nth_error lines i = Some l /\ Utils.is_header l = true.

(** A group of lines that opens with a heading. *)
Definition header_started (g : list str) : Prop :=
  exists l g', g = l :: g' /\ Utils.is_header l = true.

(** The boundaries after the first: strictly increasing, each a heading
    or the number of lines, which comes last. *)
Definition boundaries (lines : list str) (prev : nat) (rest : list nat)
    : Prop :=
  StronglySorted lt rest
  /\ Forall (fun e => (prev <= e <= length lines)%nat
                      /\ (e = length lines \/ header_at lines e)) rest
  /\ (forall e, last rest = Some e -> e = length lines).

(** Where the first block ends when the loop starts at line 0 with no
    block yet: the loop, reduced to that question. *)
Fixpoint first_end (max_size : Z) (lines : list str) (prev : nat)
    (rest : list nat) : nat :=
  match rest with
  | [] => length lines
  | e :: rest' =>
    if Z.of_nat (length (join [NL] (firstn e lines))) >? max_size then
      if (0 =? prev)%nat then e else prev
    else match rest' with
         | [] => e
         | _ :: _ => first_end max_size lines e rest'
         end
  end.

Lemma boundaries_tail (lines : list str) (prev e : nat) (rest : list nat) :
  boundaries lines prev (e :: rest) ->
  boundaries lines e rest /\ Forall (fun x => (e < x)%nat) rest
  /\ (prev <= e <= length lines)%nat
  /\ (e = length lines \/ header_at lines e)
  /\ (rest = [] -> e = length lines).
Proof.
  intros (Hs & Hf & Hl).
  inversion Hs as [|? ? Hs' Hlt]; subst.
  inversion Hf as [|? ? [He Hh] Hf']; subst.
  split; [|split; [exact Hlt|split; [exact He|split; [exact Hh|]]]].
  - split; [exact Hs'|]. split.
    + rewrite List.Forall_forall in *. intros x Hx.
      specialize (Hf' x Hx). specialize (Hlt x Hx). simpl in *.
      split; [lia | tauto].
    + intros x Hx. apply Hl. destruct rest; [discriminate|].
      rewrite last_cons, Hx. reflexivity.
  - intros ->. apply Hl. reflexivity.
Qed.

Lemma slice_nil {A} (a b : nat) (l : list A) :
  (b <= a)%nat -> slice a b l = [].
Proof. intros H. unfold slice. replace (b - a)%nat with 0%nat by lia. reflexivity. Qed.

Lemma slice_nonempty {A} (a b : nat) (l : list A) :
  (a < b <= length l)%nat -> slice a b l <> [].
Proof.
  intros H E. apply (f_equal (@length A)) in E. unfold slice in E.
  rewrite length_take, length_drop in E. simpl in E. lia.
Qed.

Lemma slice_nonempty_inv {A} (a b : nat) (l : list A) :
  slice a b l <> [] -> (a < b)%nat.
Proof.
  intros H. destruct (Nat.lt_ge_cases a b) as [Hlt|Hge]; [exact Hlt|].
  exfalso. apply H, slice_nil, Hge.
Qed.

(** The blocks made so far are the joins of groups of lines that cover
    the first [cs] lines; every group but the first opens with a
    heading, and so will the next one. *)
Definition grouped (lines : list str) (cs : nat) (gs : list (list str))
    : Prop :=
  concat gs = firstn cs lines
  /\ Forall (fun g => g <> []) gs
  /\ Forall header_started (tl gs)
  /\ (cs = 0%nat \/ cs = length lines \/ header_at lines cs).

Lemma grouped_nil_start (lines : list str) (cs : nat) :
  (0 < length lines)%nat -> grouped lines cs [] -> cs = 0%nat.
Proof.
  intros Hn (Hc & _). simpl in Hc. destruct cs; [reflexivity|].
  destruct lines; [simpl in Hn; lia | discriminate].
Qed.

Lemma grouped_push (lines : list str) (cs e : nat) (gs : list (list str)) :
  grouped lines cs gs ->
  (cs < e <= length lines)%nat ->
  (e = length lines \/ header_at lines e) ->
  grouped lines e (gs ++ [slice cs e lines]).
Proof.
  intros (Hc & Hne & Hh & Hcs) Hlt He. split; [|split; [|split]].
  - rewrite concat_app, Hc. simpl. rewrite app_nil_r.
    apply slice_joins. lia.
  - apply Forall_app. split; [exact Hne|].
    constructor; [apply slice_nonempty; lia | constructor].
  - destruct gs as [|g gs]; [constructor|]. simpl.
    apply Forall_app. split; [exact Hh|]. constructor; [|constructor].
    destruct Hcs as [->|[->|(l & Hl & Hhd)]].
    + simpl in Hc. destruct g; [inversion Hne; contradiction|discriminate].
    + lia.
    + destruct (slice_head cs e lines l Hl ltac:(lia)) as (r & ->).
      exists l, r. auto.
  - right. exact He.
Qed.

Lemma assemble_groups (max_size : Z) (lines : list str) :
  0 <= max_size -> (0 < length lines)%nat ->
  forall rest prev cs gs,
  rest <> [] ->
  boundaries lines prev rest ->
  grouped lines cs gs ->
  (cs <= prev)%nat ->
  (prev = 0%nat \/ header_at lines prev) ->
  (cs = prev \/ Forall (fun e => (prev < e)%nat) rest) ->
  exists ext,
    Utils.assemble max_size lines prev rest cs (List.map (join [NL]) gs)
      = (length lines, List.map (join [NL]) (gs ++ ext))
    /\ grouped lines (length lines) (gs ++ ext)
    /\ (gs = [] ->
        exists ext',
          ext = firstn (first_end max_size lines prev rest) lines :: ext').
Proof.
  intros Hmax Hn. induction rest as [|e rest IH];
    intros prev cs gs Hne Hb Hg Hcp Hprev Hstrict; [contradiction|].
  destruct (boundaries_tail _ _ _ _ Hb) as (Hb' & Hlt & He & Hhe & Hlast).
  assert (Hcs0 : gs = [] -> cs = 0%nat)
    by (intros ->; eapply grouped_nil_start; eassumption).
  (* what happens once a block ending at [e] has been appended *)
  assert (Hfinish : forall gs1, gs1 <> [] -> grouped lines e gs1 ->
            exists ext1,
              Utils.assemble max_size lines e rest e
                             (List.map (join [NL]) gs1)
                = (length lines, List.map (join [NL]) (gs1 ++ ext1))
              /\ grouped lines (length lines) (gs1 ++ ext1)).
  { intros gs1 Hgs1 Hg1. destruct rest as [|e' rest'].
    - exists []. rewrite app_nil_r, <- (Hlast eq_refl). simpl.
      split; [reflexivity | exact Hg1].
    - destruct (IH e e gs1 ltac:(discriminate) Hb' Hg1 ltac:(lia))
        as (ext1 & H1 & H2 & _).
      + destruct Hhe as [->|Hh]; [|right; exact Hh].
        inversion Hlt; subst. destruct Hb' as (_ & Hf & _).
        inversion Hf as [|? ? [Hle _] _]; subst. lia.
      + left. reflexivity.
      + exists ext1. auto. }
  cbn [Utils.assemble first_end].
  destruct (Z.of_nat (length (join [NL] (slice cs e lines))) >? max_size)
    eqn:Hov.
  - (* the candidate is too long *)
    assert (Hcand : (cs < e)%nat).
    { apply (slice_nonempty_inv cs e lines). intros E. rewrite E in Hov.
      simpl in Hov. apply Z.gtb_lt in Hov. lia. }
    destruct (Nat.eqb_spec cs prev) as [Heq|Hneq].
    + pose proof (grouped_push lines cs e gs Hg ltac:(lia) Hhe) as Hg1.
      destruct (Hfinish (gs ++ [slice cs e lines])) as (ext1 & H1 & H2);
        [destruct gs; discriminate | exact Hg1 |].
      exists (slice cs e lines :: ext1).
      rewrite map_app in H1. simpl in H1.
      rewrite <- app_assoc in H1, H2. simpl in H1, H2.
      split; [exact H1|]. split; [exact H2|].
      intros Hgs. specialize (Hcs0 Hgs). subst cs. subst prev.
      rewrite slice_from_0 in Hov. rewrite Hov. simpl.
      rewrite slice_from_0. eexists; reflexivity.
    + assert (Hpe : (prev < e)%nat).
      { destruct Hstrict as [?|Hs]; [contradiction|].
        inversion Hs; subst. assumption. }
      assert (Hg0 : grouped lines prev (gs ++ [slice cs prev lines])).
      { apply grouped_push; [exact Hg | lia |].
        destruct Hprev as [->|Hh]; [lia | right; exact Hh]. }
      pose proof (grouped_push lines prev e _ Hg0 ltac:(lia) Hhe) as Hg1.
      destruct (Hfinish ((gs ++ [slice cs prev lines])
                         ++ [slice prev e lines])) as (ext1 & H1 & H2);
        [destruct gs; discriminate | exact Hg1 |].
      exists (slice cs prev lines :: slice prev e lines :: ext1).
      assert (Ht : truthy (slice cs prev lines) = true).
      { pose proof (slice_nonempty cs prev lines ltac:(lia)) as Hs.
        destruct (slice cs prev lines); [contradiction | reflexivity]. }
      rewrite Ht. rewrite !map_app in H1. simpl in H1.
      rewrite <- !app_assoc in H1, H2. simpl in H1, H2.
      rewrite <- !app_assoc. simpl.
      split; [rewrite map_app; exact H1|]. split; [exact H2|].
      intros Hgs. specialize (Hcs0 Hgs). subst cs.
      rewrite slice_from_0 in Hov. rewrite Hov.
      destruct prev as [|p]; [lia|].
      rewrite slice_from_0. eexists; reflexivity.
  - (* the candidate fits *)
    destruct rest as [|e' rest'].
    + specialize (Hlast eq_refl). subst e.
      destruct (Nat.eq_dec cs (length lines)) as [->|Hcs].
      * rewrite slice_nil by lia. simpl. exists [].
        rewrite app_nil_r. split; [reflexivity|]. split; [exact Hg|].
        intros Hgs. specialize (Hcs0 Hgs). lia.
      * pose proof (grouped_push lines cs (length lines) gs Hg
                      ltac:(lia) Hhe) as Hg1.
        assert (Ht : truthy (slice cs (length lines) lines) = true).
        { pose proof (slice_nonempty cs (length lines) lines ltac:(lia))
            as Hs.
          destruct (slice cs (length lines) lines);
            [contradiction | reflexivity]. }
        rewrite Ht. simpl. exists [slice cs (length lines) lines].
        rewrite map_app. simpl. split; [reflexivity|].
        split; [exact Hg1|].
        intros Hgs. specialize (Hcs0 Hgs). subst cs.
        rewrite slice_from_0 in Hov. rewrite Hov, slice_from_0. eexists; reflexivity.
    + destruct (IH e cs gs ltac:(discriminate) Hb' Hg ltac:(lia))
        as (ext1 & H1 & H2 & H3).
      * destruct Hhe as [->|Hh]; [|right; exact Hh].
        inversion Hlt; subst. destruct Hb' as (_ & Hf & _).
        inversion Hf as [|? ? [Hle _] _]; subst. lia.
      * right. exact Hlt.
      * exists ext1. split; [exact H1|]. split; [exact H2|].
        intros Hgs. specialize (Hcs0 Hgs). subst cs.
        rewrite slice_from_0 in Hov. rewrite Hov. apply H3, Hgs.
Qed.

Lemma header_boundaries (lines : list str) :
  boundaries lines 0 (Utils.header_indices lines ++ [length lines]).
Proof.
  unfold Utils.header_indices.
  assert (Hspec : forall h, In h (Utils.header_indices_from 0 lines) ->
                            (h < length lines)%nat /\ header_at lines h).
  { intros h Hin.
    destruct (header_indices_from_spec _ _ _ Hin) as (k & l & -> & Hk & Hl).
    simpl. split; [|exists l; auto].
    apply nth_error_Some. rewrite Hk. discriminate. }
  split; [|split].
  - pose proof (header_indices_from_sorted lines 0) as Hs.
    induction Hs as [|h hs Hs IH Hlt]; simpl.
    + constructor; constructor.
    + constructor.
      * apply IH. intros x Hx. apply Hspec. right. exact Hx.
      * apply Forall_app. split; [exact Hlt|].
        constructor; [|constructor]. apply Hspec. left. reflexivity.
  - apply Forall_app. split.
    + apply List.Forall_forall. intros h Hin.
      destruct (Hspec h Hin). split; [lia | right; assumption].
    + constructor; [|constructor]. split; [lia | left; reflexivity].
  - intros e He. rewrite last_snoc in He. congruence.
Qed.

(** The blocks of the branch with headings before the blank ones are
    filtered out. *)
Definition raw_blocks_with_headers (max_size : Z) (lines : list str)
    (hdrs : list nat) : list str :=
  let all_indices := [0%nat] ++ hdrs ++ [length lines] in
  let '(current_start, blocks) :=
    Utils.assemble max_size lines 0%nat (tl all_indices) 0%nat [] in
  if (current_start <? length lines)%nat then
    let remaining_lines := skipn current_start lines in
    if truthy remaining_lines then blocks ++ [join [NL] remaining_lines]
    else blocks
  else blocks.

Lemma blocks_with_headers_filter (max_size : Z) (lines : list str)
    (hdrs : list nat) :
  Utils.blocks_with_headers max_size lines hdrs
  = List.filter (fun block => negb (blank block))
                (raw_blocks_with_headers max_size lines hdrs).
Proof.
  unfold Utils.blocks_with_headers, raw_blocks_with_headers.
  destruct (Utils.assemble _ _ _ _ _ _) as [cs blocks].
  apply List.filter_ext. intros b. apply strip_truthy.
Qed.

(** The raw blocks are the joins of groups that cut the lines at
    headings only; the first group ends where [first_end] says. *)
Lemma raw_blocks_groups (max_size : Z) (lines : list str) :
  0 <= max_size -> (0 < length lines)%nat ->
  exists g0 ext,
    raw_blocks_with_headers max_size lines (Utils.header_indices lines)
      = join [NL] g0 :: List.map (join [NL]) ext
    /\ g0 ++ concat ext = lines
    /\ g0 = firstn (first_end max_size lines 0
                      (Utils.header_indices lines ++ [length lines])) lines
    /\ g0 <> []
    /\ Forall (fun g => g <> []) ext
    /\ Forall header_started ext.
Proof.
  intros Hmax Hn. unfold raw_blocks_with_headers. simpl tl.
  destruct (assemble_groups max_size lines Hmax Hn
              (Utils.header_indices lines ++ [length lines]) 0%nat 0%nat [])
    as (ext & Hrun & (Hc & Hne & Hh & _) & Hfirst).
  - destruct (Utils.header_indices lines); discriminate.
  - apply header_boundaries.
  - split; [reflexivity|]. split; [constructor|].
    split; [constructor | left; reflexivity].
  - lia.
  - left. reflexivity.
  - left. reflexivity.
  - simpl List.map in Hrun. rewrite Hrun, Nat.ltb_irrefl.
    destruct (Hfirst eq_refl) as (ext' & ->).
    simpl in Hc, Hne, Hh. rewrite firstn_all in Hc.
    inversion Hne as [|? ? Hg0 Hne']; subst.
    eexists _, ext'. split; [reflexivity|].
    split; [exact Hc|]. split; [reflexivity|].
    split; [exact Hg0|]. split; [exact Hne' | exact Hh].
Qed.

Lemma header_started_not_blank (g : list str) :
  header_started g -> blank (join [NL] g) = false.
Proof.
  intros (l & g' & -> & Hl). destruct (join_head [NL] l g') as (r & ->).
  rewrite blank_app, (is_header_not_blank l Hl). reflexivity.
Qed.

Lemma header_started_is_header (g : list str) :
  header_started g -> Utils.is_header (join [NL] g) = true.
Proof.
  intros (l & g' & -> & Hl). destruct (join_head [NL] l g') as (r & ->).
  apply is_header_app, Hl.
Qed.

Lemma filter_header_started (ext : list (list str)) :
  Forall header_started ext ->
  List.filter (fun block => negb (blank block)) (List.map (join [NL]) ext)
  = List.map (join [NL]) ext.
Proof.
  induction 1 as [|g ext Hg _ IH]; simpl; [reflexivity|].
  rewrite (header_started_not_blank g Hg). simpl. rewrite IH. reflexivity.
Qed.

Lemma in_firstn_nth {A} (l : list A) :
  forall h x a, nth_error l h = Some a -> (h < x)%nat -> In a (firstn x l).
Proof.
  induction l as [|b l IH]; intros h x a Hh Hx; [destruct h; discriminate|].
  destruct x as [|x]; [lia|]. destruct h as [|h]; simpl in *.
  - injection Hh as ->. left. reflexivity.
  - right. apply (IH h); [exact Hh | lia].
Qed.

Lemma blank_prefix_stops_at_header (lines : list str) (h x : nat) :
  header_at lines h ->
  blank (join [NL] (firstn x lines)) = true -> (x <= h)%nat.
Proof.
  intros (l & Hl & Hh) Hb.
  destruct (Nat.le_gt_cases x h) as [Hle|Hgt]; [exact Hle|].
  rewrite blank_join in Hb.
  rewrite forallb_forall in Hb.
  specialize (Hb l (in_firstn_nth lines h x l Hl Hgt)).
  rewrite (is_header_not_blank l Hh) in Hb. discriminate.
Qed.

Lemma first_end_ge (max_size : Z) (lines : list str) :
  forall rest prev,
  rest <> [] -> boundaries lines prev rest ->
  (prev <= first_end max_size lines prev rest)%nat.
Proof.
  induction rest as [|e rest IH]; intros prev Hne Hb; [contradiction|].
  destruct (boundaries_tail _ _ _ _ Hb) as (Hb' & _ & He & _).
  cbn [first_end].
  destruct (_ >? _).
  - destruct (0 =? prev)%nat; lia.
  - destruct rest as [|e' rest']; [lia|].
    specialize (IH e ltac:(discriminate) Hb'). lia.
Qed.

Lemma snoc_head (hs : list nat) (n : nat) :
  exists rest2, hs ++ [n] = hd n hs :: rest2.
Proof. destruct hs; simpl; eauto. Qed.

(** The first raw block is blank in exactly one situation: the lines
    before the first heading are all blank, and together with the first
    section they exceed the block size. *)
Lemma first_block_blank_iff (max_size : Z) (lines : list str)
    (h1 : nat) (hs : list nat) :
  Utils.header_indices lines = h1 :: hs ->
  let x := first_end max_size lines 0 (h1 :: hs ++ [length lines]) in
  (0 < x)%nat ->
  blank (join [NL] (firstn x lines)) = true
  <-> (0 < h1)%nat
      /\ blank (join [NL] (firstn h1 lines)) = true
      /\ max_size
         < Z.of_nat (length (join [NL]
                               (firstn (hd (length lines) hs) lines))).
Proof.
  intros Hh x Hx. subst x.
  pose proof (header_boundaries lines) as Hb. rewrite Hh in Hb.
  simpl app in Hb.
  destruct (boundaries_tail _ _ _ _ Hb) as (Hb1 & Hlt1 & _ & _ & _).
  assert (Hh1 : header_at lines h1).
  { destruct (header_indices_from_spec lines 0 h1) as (k & l & -> & Hk & Hl).
    - unfold Utils.header_indices in Hh. rewrite Hh. left. reflexivity.
    - exists l. auto. }
  destruct (snoc_head hs (length lines)) as (rest2 & Hrest).
  set (e2 := hd (length lines) hs) in *.
  rewrite Hrest in *.
  assert (He2 : (h1 < e2)%nat) by (inversion Hlt1; assumption).
  pose proof (join_length_firstn [NL] h1 e2 lines ltac:(lia)) as Hmono.
  revert Hx. cbn [first_end].
  destruct (Z.gtb_spec (Z.of_nat (length (join [NL] (firstn h1 lines))))
                       max_size) as [Hov1|Hov1]; cbn [Nat.eqb].
  - (* the text before the first heading is already too long *)
    intros Hx. split.
    + intros Hblank. split; [exact Hx|]. split; [exact Hblank | lia].
    + intros (_ & Hblank & _). exact Hblank.
  - destruct (Z.gtb_spec (Z.of_nat (length (join [NL] (firstn e2 lines))))
                         max_size) as [Hov2|Hov2].
    + destruct h1 as [|h1']; cbv iota.
      * intros _. split.
        -- intros Hblank.
           pose proof (blank_prefix_stops_at_header _ _ _ Hh1 Hblank). lia.
        -- intros (Hpos & _). lia.
      * intros _. split.
        -- intros Hblank. split; [lia|]. split; [exact Hblank | lia].
        -- intros (_ & Hblank & _). exact Hblank.
    + intros Hx. split.
      * intros Hblank.
        pose proof (blank_prefix_stops_at_header _ _ _ Hh1 Hblank) as Hle.
        destruct rest2 as [|e3 rest3]; [lia|].
        pose proof (first_end_ge max_size lines (e3 :: rest3) e2
                      ltac:(discriminate)) as Hge.
        destruct (boundaries_tail _ _ _ _ Hb1) as (Hb2 & _).
        specialize (Hge Hb2). lia.
      * intros (_ & _ & Hlen). lia.
Qed.

(** What the function computes on a text with headings, from the groups
    of lines. *)
Lemma split_with_headers_cases (text : str) (max_size : Z)
    (h1 : nat) (hs : list nat) :
  0 <= max_size ->
  Utils.header_indices (split NL text) = h1 :: hs ->
  let lines := split NL text in
  let first :=
    firstn (first_end max_size lines 0 (h1 :: hs ++ [length lines])) lines in
  exists ext,
    Forall header_started ext
    /\ (0 < first_end max_size lines 0 (h1 :: hs ++ [length lines]))%nat
    /\ (blank (join [NL] first) = false ->
        Utils.split_text_by_headers text max_size
        = Returned (join [NL] first :: List.map (join [NL]) ext))
    /\ (blank (join [NL] first) = true ->
        Utils.split_text_by_headers text max_size
        = Raised Utils.AssertionError).
Proof.
  intros Hmax Hh lines first.
  assert (Hn : (0 < length lines)%nat).
  { pose proof (split_nonempty NL text) as Hs. fold lines in Hs.
    destruct lines; [contradiction | simpl; lia]. }
  destruct (raw_blocks_groups max_size lines Hmax Hn)
    as (g0 & ext & Hraw & Hcat & Hg0 & Hg0ne & Hne & Hhs).
  fold lines in Hh. rewrite Hh in Hraw, Hg0. simpl app in Hg0.
  fold first in Hg0. subst g0.
  assert (Hblocks : Utils.split_blocks text max_size
                    = List.filter (fun block => negb (blank block))
                        (join [NL] first :: List.map (join [NL]) ext)).
  { unfold Utils.split_blocks. fold lines. rewrite Hh.
    rewrite blocks_with_headers_filter, Hraw. reflexivity. }
  assert (Hjoin : join [NL] lines = text) by apply join_split.
  exists ext. split; [exact Hhs|]. split.
  { destruct (first_end max_size lines 0 (h1 :: hs ++ [length lines]));
      [contradiction | lia]. }
  split.
  - intros Hb. unfold Utils.split_text_by_headers, Utils.str_eqb.
    rewrite Hblocks. simpl List.filter. rewrite Hb. simpl negb. cbv iota.
    rewrite (filter_header_started ext Hhs).
    change (join [NL] first :: List.map (join [NL]) ext)
      with (List.map (join [NL]) (first :: ext)).
    rewrite join_concat by (constructor; assumption).
    simpl concat. rewrite Hcat, Hjoin.
    rewrite bool_decide_eq_true_2 by reflexivity. reflexivity.
  - intros Hb. unfold Utils.split_text_by_headers, Utils.str_eqb.
    rewrite Hblocks. simpl List.filter. rewrite Hb. simpl negb. cbv iota.
    rewrite (filter_header_started ext Hhs).
    rewrite join_concat by exact Hne.
    rewrite bool_decide_eq_false_2; [reflexivity|].
    intros E. rewrite <- Hjoin, <- Hcat in E.
    assert (Hext : concat ext <> []).
    { intros Hnil. rewrite Hnil, app_nil_r in Hcat.
      assert (Hat : header_at lines h1).
      { destruct (header_indices_from_spec lines 0 h1)
          as (k & l & -> & Hk & Hl).
        - unfold Utils.header_indices in Hh. rewrite Hh. left. reflexivity.
        - exists l. auto. }
      pose proof (blank_prefix_stops_at_header _ _ _ Hat Hb) as Hle.
      destruct Hat as (l & Hl & _).
      assert (h1 < length lines)%nat
        by (apply nth_error_Some; rewrite Hl; discriminate).
      apply (f_equal (@length str)) in Hcat. unfold first in Hcat.
      rewrite length_take in Hcat. lia. }
    rewrite (join_app [NL] first (concat ext) Hg0ne Hext) in E.
    apply (f_equal (@length N)) in E. rewrite !length_app in E.
    simpl in E. lia.
Qed.

(** X4. On a text with at least one heading line and for every threshold
    [max_size >= 0], the function fails on its own assertion in exactly
    one situation: there are lines before the first heading, all of them
    blank, and the text up to the end of the first heading's section is
    longer than [max_size]. In every other case it returns. *)
Theorem split_text_by_headers_raises_iff (text : str) (max_size : Z)
    (h1 : nat) (hs : list nat) :
  0 <= max_size ->
  Utils.header_indices (split NL text) = h1 :: hs ->
  let lines := split NL text in
  Utils.split_text_by_headers text max_size = Raised Utils.AssertionError
  <-> (0 < h1)%nat
      /\ blank (join [NL] (firstn h1 lines)) = true
      /\ max_size
         < Z.of_nat (length (join [NL]
                               (firstn (hd (length lines) hs) lines))).
Proof.
  intros Hmax Hh lines.
  destruct (split_with_headers_cases text max_size h1 hs Hmax Hh)
    as (ext & _ & Hpos & Hret & Hraise).
  fold lines in Hpos, Hret, Hraise.
  rewrite <- (first_block_blank_iff max_size lines h1 hs Hh Hpos).
  destruct (blank _) eqn:Hb.
  - split; [reflexivity | intros _; apply Hraise; reflexivity].
  - split; [|discriminate]. rewrite (Hret eq_refl). discriminate.
Qed.

Lemma split_text_by_headers_raises_iff_witness :
  Utils.split_text_by_headers ([NL] ++ u "# A" ++ [NL] ++ u "xxxxx") 3
    = Raised Utils.AssertionError
  /\ Utils.split_text_by_headers ([NL] ++ u "# A" ++ [NL] ++ u "xxxxx") 10
     <> Raised Utils.AssertionError.
Proof.
  split.
  - apply (proj2 (split_text_by_headers_raises_iff
                    ([NL] ++ u "# A" ++ [NL] ++ u "xxxxx") 3 1 []
                    ltac:(lia) eq_refl)).
    split; [lia|]. split; [reflexivity | vm_compute; reflexivity].
  - intros H.
    apply (proj1 (split_text_by_headers_raises_iff
                    ([NL] ++ u "# A" ++ [NL] ++ u "xxxxx") 10 1 []
                    ltac:(lia) eq_refl)) in H.
    destruct H as (_ & _ & H). vm_compute in H. discriminate.
Defined.

(** X5. When the function returns on a text with headings (threshold
    [max_size >= 0]), the blocks join to the text, none of them is
    blank, and every block after the first begins with a heading line:
    the text is only ever cut in front of a heading. *)
Theorem split_text_by_headers_cuts_at_headings (text : str) (max_size : Z)
    (blocks : list str) :
  0 <= max_size ->
  Utils.header_indices (split NL text) <> [] ->
  Utils.split_text_by_headers text max_size = Returned blocks ->
  join [NL] blocks = text
  /\ Forall (fun block => blank block = false) blocks
  /\ Forall (fun block => Utils.is_header block = true) (tl blocks).
Proof.
  intros Hmax Hne Hret.
  destruct (Utils.header_indices (split NL text)) as [|h1 hs] eqn:Hh;
    [contradiction|].
  destruct (split_with_headers_cases text max_size h1 hs Hmax Hh)
    as (ext & Hhs & _ & Hok & Hraise).
  destruct (blank _) eqn:Hb.
  - rewrite (Hraise eq_refl) in Hret. discriminate.
  - rewrite (Hok eq_refl) in Hret. injection Hret as <-.
    split; [|split].
    + pose proof (Hok eq_refl) as H.
      unfold Utils.split_text_by_headers, Utils.str_eqb in H.
      destruct (bool_decide_reflect
                  (join [NL] (Utils.split_blocks text max_size) = text))
        as [E|E]; [|discriminate].
      injection H as H. rewrite <- H. exact E.
    + constructor; [exact Hb|].
      apply List.Forall_forall. intros b Hin.
      apply in_map_iff in Hin as (g & <- & Hg).
      rewrite List.Forall_forall in Hhs.
      apply header_started_not_blank, Hhs, Hg.
    + simpl. apply List.Forall_forall. intros b Hin.
      apply in_map_iff in Hin as (g & <- & Hg).
      rewrite List.Forall_forall in Hhs.
      apply header_started_is_header, Hhs, Hg.
Qed.

Lemma split_text_by_headers_cuts_at_headings_witness :
  Forall (fun block => Utils.is_header block = true)
         (tl [u "intro"; u "# A" ++ [NL] ++ u "b"; u "## C"]).
Proof.
  apply (split_text_by_headers_cuts_at_headings
           (u "intro" ++ [NL] ++ u "# A" ++ [NL] ++ u "b" ++ [NL] ++ u "## C")
           6 [u "intro"; u "# A" ++ [NL] ++ u "b"; u "## C"]).
  - lia.
  - vm_compute. discriminate.
  - vm_compute. reflexivity.
Defined.

(** *** The branch without headings: sizes *)

Lemma split_no_sep (c : N) (s : str) :
  Forall (fun l => ~ In c l) (split c s).
Proof.
  induction s as [|x s IH]; simpl.
  - constructor; [intros [] | constructor].
  - destruct (N.eqb_spec x c) as [->|Hne].
    + constructor; [intros [] | exact IH].
    + destruct (split c s) as [|l ls]; inversion IH; subst.
      * constructor; [|constructor]. intros [H|[]]. congruence.
      * constructor; [|assumption]. intros [H|H]; [congruence|tauto].
Qed.

(** A block within the size: one line of the text, however long, or
    fewer than [max_size] characters. *)
Definition within_size (max_size : Z) (block : str) : Prop :=
  ~ In NL block \/ Z.of_nat (length block) < max_size.

(** The loop's current block and the size it keeps for it. *)
Definition current_ok (max_size : Z) (cur : list str) (size : Z) : Prop :=
  (cur = [] /\ size = 0)
  \/ (cur <> [] /\ size = Z.of_nat (length (join [NL] cur)) + 1
      /\ ((exists l, cur = [l] /\ ~ In NL l) \/ size <= max_size)).

Lemma current_ok_block (max_size : Z) (cur : list str) (size : Z) :
  current_ok max_size cur size -> cur <> [] ->
  within_size max_size (join [NL] cur).
Proof.
  intros [[-> _]|(_ & Hs & [(l & -> & Hl)|Hle])] Hne;
    [contradiction | left; exact Hl | right; lia].
Qed.

Lemma chunk_lines_sizes (max_size : Z) (lines : list str) :
  Forall (fun l => ~ In NL l) lines ->
  forall blocks cur size blocks' cur',
  Forall (within_size max_size) blocks ->
  current_ok max_size cur size ->
  Utils.chunk_lines max_size lines blocks cur size = (blocks', cur') ->
  Forall (within_size max_size) blocks'
  /\ (cur' <> [] -> within_size max_size (join [NL] cur')).
Proof.
  induction 1 as [|line rest Hline _ IH];
    intros blocks cur size blocks' cur' Hb Hc Hrun; simpl in Hrun.
  - injection Hrun as <- <-. split; [exact Hb|].
    intros Hne. exact (current_ok_block _ _ _ Hc Hne).
  - destruct ((size + (Z.of_nat (length line) + 1) >? max_size)
              && truthy cur) eqn:Hflush.
    + apply andb_true_iff in Hflush as [_ Hcur].
      assert (Hne : cur <> []) by (destruct cur; [discriminate Hcur|discriminate]).
      eapply IH; [| |exact Hrun].
      * apply Forall_app. split; [exact Hb|].
        constructor; [|constructor]. apply (current_ok_block _ _ _ Hc Hne).
      * right. split; [discriminate|]. split; [reflexivity|].
        left. exists line. auto.
    + eapply IH; [exact Hb| |exact Hrun].
      destruct Hc as [[-> ->]|(Hne & Hs & _)].
      * right. split; [discriminate|]. simpl. split; [lia|].
        left. exists line. auto.
      * right. split; [destruct cur; discriminate|].
        rewrite (join_app [NL] cur [line] Hne) by discriminate.
        rewrite !length_app. simpl. split; [lia|]. right.
        apply andb_false_iff in Hflush as [Hf|Hf].
        -- rewrite Z.gtb_ltb in Hf. apply Z.ltb_ge in Hf. lia.
        -- destruct cur; [contradiction | discriminate].
Qed.

(** X3. On a text without heading lines, every block is either free of
    newlines (one line of the text, however long) or shorter than
    [max_size]: only a line that is itself too long gives a block of
    [max_size] characters or more. *)
Theorem split_without_headers_sizes (text : str) (max_size : Z) :
  Utils.header_indices (split NL text) = [] ->
  Forall (within_size max_size) (Utils.split_blocks text max_size).
Proof.
  intros Hno. unfold Utils.split_blocks. rewrite Hno.
  unfold Utils.blocks_without_headers.
  destruct (Utils.chunk_lines max_size (split NL text) [] [] 0)
    as [blocks cur] eqn:Hrun.
  destruct (chunk_lines_sizes max_size (split NL text) (split_no_sep NL text)
              [] [] 0 blocks cur) as [Hb Hc];
    [constructor | left; auto | exact Hrun |].
  destruct cur as [|l cur]; simpl truthy; cbv iota; [exact Hb|].
  apply Forall_app. split; [exact Hb|].
  constructor; [|constructor]. apply Hc. discriminate.
Qed.

Lemma split_without_headers_sizes_witness :
  Forall (within_size 6)
    (Utils.split_blocks
       (u "ab" ++ [NL] ++ u "cd" ++ [NL] ++ u "a long line") 6).
Proof.
  apply split_without_headers_sizes. reflexivity.
Defined.

Lemma split_without_headers_reconstructs_witness :
  Utils.split_text_by_headers
    (u "ab" ++ [NL] ++ u "cd" ++ [NL] ++ u "a long line") 6
  = Returned
      (Utils.split_blocks
         (u "ab" ++ [NL] ++ u "cd" ++ [NL] ++ u "a long line") 6).
Proof.
  apply (split_without_headers_reconstructs
           (u "ab" ++ [NL] ++ u "cd" ++ [NL] ++ u "a long line") 6).
  reflexivity.
Defined.
(** ** utils.py: every wait of WebLLMClient.generate *)

Definition run_sleeps (r : Utils.run) : list Z :=
  match r with
  | Utils.Done _ sleeps => sleeps
  | Utils.Retrying _ sleeps => sleeps
  end.

Lemma generate_loop_waits (model_name : str) (attempts : list Utils.attempt) :
  forall (k : Z) (sleeps : list Z),
  k = Z.of_nat (length sleeps) ->
  Forall (fun s => 1 <= s <= 64) sleeps ->
  let r := Utils.generate_loop model_name attempts k sleeps in
  Forall (fun s => 1 <= s <= 64) (run_sleeps r)
  /\ (forall e sl, r = Utils.Done (Raised e) sl ->
        (3 <= length sl)%nat
        /\ exists msg,
             e = model_name ++ u "客户端调用最终失败: " ++ msg
             /\ contains (u "reach token limit") msg = false)
  /\ (forall c sl, r = Utils.Done (Returned c) sl ->
        exists a, In a attempts
                  /\ Utils.attempt_outcome a = Returned c).
Proof.
  induction attempts as [|a rest IH]; intros k sleeps Hk Hs; simpl.
  - split; [exact Hs|]. split; intros; discriminate.
  - destruct (Utils.attempt_outcome a) as [content|error_msg] eqn:Hout.
    + simpl. split; [exact Hs|]. split; [intros; discriminate|].
      intros c sl [= <- <-]. exists a. split; [left; reflexivity|exact Hout].
    + destruct (contains (u "reach token limit") error_msg) eqn:Hrl.
      * rewrite token_limit_wait_code by lia.
        destruct (IH (k + 1) (sleeps ++ [token_limit_wait (k + 1)]))
          as (H1 & H2 & H3).
        -- rewrite length_app. simpl. lia.
        -- apply Forall_app. split; [exact Hs|].
           constructor; [|constructor]. unfold token_limit_wait.
           replace (k + 1 - 1) with k by lia.
           assert (0 <= Z.min k 6 <= 6) by lia.
           assert (0 < 2 ^ Z.min k 6) by (apply Z.pow_pos_nonneg; lia).
           assert (2 ^ Z.min k 6 <= 2 ^ 6) by (apply Z.pow_le_mono_r; lia).
           change (2 ^ 6) with 64 in *. lia.
        -- split; [exact H1|]. split; [exact H2|].
           intros c sl E. destruct (H3 c sl E) as (a' & Hin & Ha').
           exists a'. split; [right; exact Hin | exact Ha'].
      * unfold Utils.max_retries, Utils.base_wait_time.
        destruct (Z.leb_spec (k + 1) 3) as [Hle|Hgt].
        -- destruct (IH (k + 1) (sleeps ++ [1 * (k + 1)]))
             as (H1 & H2 & H3).
           ++ rewrite length_app. simpl. lia.
           ++ apply Forall_app. split; [exact Hs|].
              constructor; [lia | constructor].
           ++ split; [exact H1|]. split; [exact H2|].
              intros c sl E. destruct (H3 c sl E) as (a' & Hin & Ha').
              exists a'. split; [right; exact Hin | exact Ha'].
        -- simpl. split; [exact Hs|]. split; [|intros; discriminate].
           intros e sl [= <- <-]. split; [lia|].
           exists error_msg. auto.
Qed.

(** X6. Whatever the gateway answers, no single wait of [generate] is
    shorter than 1 second or longer than 64 seconds; the call gives up
    only after at least three waits, on a failure whose text lacks
    "reach token limit", and the exception it raises carries the model
    name, the fixed notice and that failure's text; what it returns is
    the content of one of the attempts. *)
Theorem generate_waits_and_outcomes (model_name : str)
    (attempts : list Utils.attempt) :
  Forall (fun s => 1 <= s <= 64)
         (run_sleeps (Utils.generate model_name attempts))
  /\ (forall e sl,
        Utils.generate model_name attempts = Utils.Done (Raised e) sl ->
        (3 <= length sl)%nat
        /\ exists msg,
             e = model_name ++ u "客户端调用最终失败: " ++ msg
             /\ contains (u "reach token limit") msg = false)
  /\ (forall c sl,
        Utils.generate model_name attempts = Utils.Done (Returned c) sl ->
        exists a, In a attempts /\ Utils.attempt_outcome a = Returned c).
Proof.
  apply (generate_loop_waits model_name attempts 0 []);
    [reflexivity | constructor].
Qed.

Lemma generate_waits_and_outcomes_witness :
  exists a,
    In a [Utils.Response 500 (u "reach token limit") (Raised []);
          Utils.PostRaised (u "timeout");
          Utils.Response 200 [] (Returned (u "ok"))]
    /\ Utils.attempt_outcome a = Returned (u "ok").
Proof.
  apply (proj2 (proj2 (generate_waits_and_outcomes (u "m")
           [Utils.Response 500 (u "reach token limit") (Raised []);
            Utils.PostRaised (u "timeout");
            Utils.Response 200 [] (Returned (u "ok"))])) (u "ok") [1; 2]).
  vm_compute. reflexivity.
Defined.

(** ** infer/batch_infer.py: what infer_single_with_retry reports *)

Lemma nominal_backoff_bounds (attempt base_delay max_delay delay : Z) :
  0 <= attempt -> 1 <= base_delay <= max_delay ->
  BatchInfer.nominal_backoff attempt base_delay max_delay = Returned delay ->
  1 <= delay <= max_delay.
Proof.
  intros Ha Hb. unfold BatchInfer.nominal_backoff.
  destruct (1024 <=? attempt); [discriminate|]. intros [= <-].
  assert (0 < 2 ^ attempt) by (apply Z.pow_pos_nonneg; lia).
  split; [|apply Z.le_min_r]. apply Z.min_glb; [nia | lia].
Qed.

Lemma infer_loop_report (max_retries : Z)
    (outcomes : list (result str str)) :
  forall (attempt : Z) (delays : list Z) (r : BatchInfer.infer_result),
  attempt = Z.of_nat (length delays) ->
  Forall (fun d => 1 <= d <= 120) delays ->
  BatchInfer.infer_loop outcomes max_retries attempt delays
    = BatchInfer.Finished r ->
  BatchInfer.retry_count r
    = Z.of_nat (length (BatchInfer.nominal_delays r))
  /\ attempt <= BatchInfer.retry_count r
  /\ Forall (fun d => 1 <= d <= 120) (BatchInfer.nominal_delays r)
  /\ (BatchInfer.success r = true ->
      BatchInfer.is_rate_limit r = None /\ BatchInfer.error r = None
      /\ exists c, BatchInfer.response r = Some c
                   /\ In (Returned c) outcomes)
  /\ (BatchInfer.success r = false ->
      BatchInfer.is_rate_limit r = Some false
      /\ BatchInfer.response r = None
      /\ max_retries <= BatchInfer.retry_count r
      /\ exists msg, BatchInfer.error r = Some msg
                     /\ In (Raised msg) outcomes
                     /\ BatchInfer.is_rate_limit_error msg = false).
Proof.
  induction outcomes as [|o rest IH]; intros attempt delays r Ha Hd Hrun;
    simpl in Hrun; [discriminate|].
  destruct o as [content|error_msg].
  - injection Hrun as <-. simpl.
    repeat split; try assumption; try lia; try discriminate.
    exists content. split; [reflexivity | left; reflexivity].
  - assert (Hstep : forall base_delay max_delay,
              1 <= base_delay <= max_delay -> max_delay <= 120 ->
              match BatchInfer.nominal_backoff (attempt + 1 - 1)
                      base_delay max_delay with
              | Raised e => BatchInfer.Crashed e
              | Returned delay =>
                BatchInfer.infer_loop rest max_retries (attempt + 1)
                  (delays ++ [delay])
              end = BatchInfer.Finished r ->
              BatchInfer.retry_count r
                = Z.of_nat (length (BatchInfer.nominal_delays r))
              /\ attempt <= BatchInfer.retry_count r
              /\ Forall (fun d => 1 <= d <= 120)
                        (BatchInfer.nominal_delays r)
              /\ (BatchInfer.success r = true ->
                  BatchInfer.is_rate_limit r = None
                  /\ BatchInfer.error r = None
                  /\ exists c, BatchInfer.response r = Some c
                               /\ In (Returned c) (Raised error_msg :: rest))
              /\ (BatchInfer.success r = false ->
                  BatchInfer.is_rate_limit r = Some false
                  /\ BatchInfer.response r = None
                  /\ max_retries <= BatchInfer.retry_count r
                  /\ exists msg, BatchInfer.error r = Some msg
                       /\ In (Raised msg) (Raised error_msg :: rest)
                       /\ BatchInfer.is_rate_limit_error msg = false)).
    { intros base_delay max_delay Hb Hmax Hnext.
      destruct (BatchInfer.nominal_backoff (attempt + 1 - 1) base_delay
                  max_delay) as [delay|e] eqn:Hdelay; [|discriminate].
      apply nominal_backoff_bounds in Hdelay; [|lia|exact Hb].
      apply IH in Hnext as (H1 & H2 & H3 & H4 & H5);
        [| rewrite length_app; simpl; lia
         | apply Forall_app; split; [exact Hd|];
           constructor; [lia | constructor]].
      split; [exact H1|]. split; [lia|]. split; [exact H3|]. split.
      - intros Hs. destruct (H4 Hs) as (? & ? & c & ? & ?).
        repeat split; try assumption. exists c. split; [assumption|].
        right. assumption.
      - intros Hs. destruct (H5 Hs) as (? & ? & ? & msg & ? & ? & ?).
        repeat split; try assumption.
        exists msg. split; [assumption|]. split; [right|]; assumption. }
    destruct (BatchInfer.is_rate_limit_error error_msg) eqn:Hrl.
    + apply (Hstep 2 120); [lia | lia | exact Hrun].
    + destruct (Z.ltb_spec attempt max_retries) as [Hlt|Hge].
      * apply (Hstep 1 30); [lia | lia | exact Hrun].
      * injection Hrun as <-. simpl.
        repeat split; try assumption; try lia; try discriminate.
        exists error_msg. split; [reflexivity|].
        split; [left; reflexivity | exact Hrl].
Qed.

(** X7. When [infer_single_with_retry] finishes, its record counts one
    retry per wait, each wait being between 1 and 120 seconds before
    jitter. A success carries the content of one of the calls and no
    error. A failure is never reported as a rate-limit failure: its
    [is_rate_limit] flag is always false, its error text is one the
    classifier rejects, and at least [max_retries] retries were made
    before it. *)
Theorem infer_single_with_retry_report (outcomes : list (result str str))
    (max_retries : Z) (r : BatchInfer.infer_result) :
  BatchInfer.infer_single_with_retry outcomes max_retries
    = BatchInfer.Finished r ->
  BatchInfer.retry_count r
    = Z.of_nat (length (BatchInfer.nominal_delays r))
  /\ Forall (fun d => 1 <= d <= 120) (BatchInfer.nominal_delays r)
  /\ (BatchInfer.success r = true ->
      BatchInfer.is_rate_limit r = None /\ BatchInfer.error r = None
      /\ exists c, BatchInfer.response r = Some c
                   /\ In (Returned c) outcomes)
  /\ (BatchInfer.success r = false ->
      BatchInfer.is_rate_limit r = Some false
      /\ BatchInfer.response r = None
      /\ max_retries <= BatchInfer.retry_count r
      /\ exists msg, BatchInfer.error r = Some msg
                     /\ In (Raised msg) outcomes
                     /\ BatchInfer.is_rate_limit_error msg = false).
Proof.
  intros Hrun.
  destruct (infer_loop_report max_retries outcomes 0 [] r eq_refl
              ltac:(constructor) Hrun) as (H1 & _ & H3 & H4 & H5).
  auto.
Qed.

Lemma infer_single_with_retry_report_witness :
  let r := {| BatchInfer.success := false; BatchInfer.response := None;
              BatchInfer.error := Some (u "connection reset");
              BatchInfer.retry_count := 1;
              BatchInfer.is_rate_limit := Some false;
              BatchInfer.nominal_delays := [2] |} in
  BatchInfer.infer_single_with_retry
    [Raised (u "HTTP 429"); Raised (u "connection reset");
     Raised (u "connection reset")] 1 = BatchInfer.Finished r
  /\ BatchInfer.is_rate_limit r = Some false
  /\ 1 <= BatchInfer.retry_count r.
Proof.
  intros r.
  assert (Hrun : BatchInfer.infer_single_with_retry
            [Raised (u "HTTP 429"); Raised (u "connection reset");
             Raised (u "connection reset")] 1 = BatchInfer.Finished r)
    by (vm_compute; reflexivity).
  split; [exact Hrun|].
  destruct (infer_single_with_retry_report _ _ _ Hrun)
    as (_ & _ & _ & Hfail).
  destruct (Hfail eq_refl) as (Hflag & _ & Hcount & _).
  split; [exact Hflag | exact Hcount].
Defined.
(** ** cache_utils.py and statement/extract_citations.py: ids of URLs *)

(** The loop over the text blocks of [extract_citations_from_text]
    (statement/extract_citations.py), from the point where the blocks
    and the cache table are at hand. *)
Module ExtractCitations.
Import CacheUtils.

(** An element of the array the model answered, with both keys holding
    strings. *)
Record item : Type := { item_url : str; item_statement : str }.

Record citation : Type := { ID : str; statement : str; url : str }.

(** One pass through the [try] body for a block. [Raises msg]: the call
    of the chain, [post_process_json] or [json.loads] raised an exception
    that prints as [msg]. [Data items]: the answer parsed; an element
    [None] is one on which [item["url"].strip()] or
    [item["statement"].strip()] raises (a missing key, a value that is
    not a string), which happens before the table is consulted and
    prints without the words the handler looks for. *)
Inductive attempt : Type :=
| Raises (error_msg : str)
| Data (items : list (option item)).

Definition state : Type := list citation * list cache_row * list str.

(** How [for item in data] ends: at its end or at an element that is not
    as expected, with nothing to retry; with the [ValueError] of
    [urlparse], for the handler to look at; or not at all, the id loop
    of [get_or_create_id_for_url] still running when the draws are used
    up. The rows appended and the table are kept as they are at that
    point. *)
Inductive items_end : Type :=
| Ended (st : state)
| Failed (error_msg : str) (st : state)
| Running.

Section Loop.
Variable urlparse : str -> result str url_parts.

(** [for item in data] *)
Fixpoint items_loop (data : list (option item)) (st : state)
    : items_end :=
  match data with
  | [] => Ended st
  | None :: _ => Ended st
  | Some it :: rest =>
    let '(all_rows, url_cache, draws) := st in
    let url := strip (item_url it) in
    let statement := strip (item_statement it) in
    match get_or_create_id_for_url urlparse url url_cache draws with
    | Drawing => Running
    | ValueError message => Failed message st
    | Returns random_id url_cache draws =>
      items_loop rest
        (all_rows ++ [{| ID := random_id; statement := statement;
                         url := url |}], url_cache, draws)
    end
  end.

(** [while retry]; [None] when every supplied attempt asked for another. *)
Fixpoint block_loop (attempts : list attempt) (st : state) : option state :=
  match attempts with
  | [] => None
  | Raises error_msg :: rest =>
    if contains (u "reach token limit") error_msg then block_loop rest st
    else Some st
  | Data items :: rest =>
    match items_loop items st with
    | Ended st => Some st
    | Failed error_msg st =>
      if contains (u "reach token limit") error_msg then block_loop rest st
      else Some st
    | Running => None
    end
  end.

(** [for i, block in enumerate(text_blocks, 1)], each block with the
    attempts made for it. *)
Fixpoint blocks_loop (blocks : list (list attempt)) (st : state)
    : option state :=
  match blocks with
  | [] => Some st
  | attempts :: rest =>
    match block_loop attempts st with
    | None => None
    | Some st => blocks_loop rest st
    end
  end.

Definition extract_citations_rows (blocks : list (list attempt))
    (url_cache : list cache_row) (draws : list str) : option state :=
  blocks_loop blocks ([], url_cache, draws).

End Loop.
End ExtractCitations.

Lemma draw_fresh_inv (draws taken : list str) (random_id : str)
    (rest : list str) :
  CacheUtils.draw_fresh draws taken = Some (random_id, rest) ->
  (random_id ∉ taken) /\ In random_id draws.
Proof.
  induction draws as [|d draws IH]; simpl; [discriminate|].
  destruct (bool_decide_reflect (d ∈ taken)) as [Hd|Hd].
  - intros H. destruct (IH H). auto.
  - intros [= <- <-]. auto.
Qed.

Lemma NoDup_map_injective {A B} (f : A -> B) (l : list A) (a b : A) :
  List.NoDup (List.map f l) -> In a l -> In b l -> f a = f b -> a = b.
Proof.
  induction l as [|x l IH]; simpl; [intros _ []|].
  intros Hnd Ha Hb E. apply List.NoDup_cons_iff in Hnd as [Hx Hnd].
  destruct Ha as [->|Ha], Hb as [->|Hb]; auto.
  - exfalso. apply Hx. rewrite E. apply List.in_map, Hb.
  - exfalso. apply Hx. rewrite <- E. apply List.in_map, Ha.
Qed.

Lemma NoDup_snoc {A} (l : list A) (x : A) :
  List.NoDup l -> ~ In x l -> List.NoDup (l ++ [x]).
Proof.
  intros Hl Hx. induction Hl as [|y l Hy Hl IH]; simpl.
  - constructor; [intros []|constructor].
  - constructor.
    + rewrite List.in_app_iff. intros [H|[->|[]]]; [contradiction|].
      apply Hx. left. reflexivity.
    + apply IH. intros H. apply Hx. right. exact H.
Qed.

Section CacheInvariants.
Variable urlparse : str -> result str CacheUtils.url_parts.

(** The id the table holds for a normalized URL: that of the first row
    with it, as [existing.iloc[0]['random_id']] reads it. *)
Definition id_of (normalized : str)
    (url_cache : list CacheUtils.cache_row) : option str :=
  match List.filter
          (fun r => bool_decide (CacheUtils.normalized_url r = normalized))
          url_cache with
  | r :: _ => Some (CacheUtils.random_id r)
  | [] => None
  end.

Lemma id_of_app (normalized : str)
    (url_cache ext : list CacheUtils.cache_row) (i : str) :
  id_of normalized url_cache = Some i ->
  id_of normalized (url_cache ++ ext) = Some i.
Proof.
  unfold id_of. rewrite List.filter_app.
  destruct (List.filter _ url_cache); [discriminate|]. simpl. auto.
Qed.

Lemma id_of_row (normalized : str)
    (url_cache : list CacheUtils.cache_row) (i : str) :
  id_of normalized url_cache = Some i ->
  exists r, In r url_cache /\ CacheUtils.normalized_url r = normalized
            /\ CacheUtils.random_id r = i.
Proof.
  unfold id_of.
  destruct (List.filter _ url_cache) as [|r rs] eqn:E; [discriminate|].
  intros [= <-]. exists r.
  assert (H : In r (List.filter
                      (fun r => bool_decide
                                  (CacheUtils.normalized_url r = normalized))
                      url_cache)) by (rewrite E; left; reflexivity).
  apply List.filter_In in H as [Hin Hr].
  apply bool_decide_eq_true in Hr. auto.
Qed.

Lemma get_or_create_cases (url : str)
    (url_cache url_cache1 : list CacheUtils.cache_row)
    (draws rest : list str) (random_id : str) :
  CacheUtils.get_or_create_id_for_url urlparse url url_cache draws
    = CacheUtils.Returns random_id url_cache1 rest ->
  exists normalized,
    CacheUtils.normalize_url urlparse url = Returned normalized
    /\ id_of normalized url_cache1 = Some random_id
    /\ (url_cache1 = url_cache
        \/ (id_of normalized url_cache = None
            /\ (random_id ∉ List.map CacheUtils.random_id url_cache)
            /\ In random_id draws
            /\ url_cache1
               = url_cache
                 ++ [{| CacheUtils.url := url;
                        CacheUtils.normalized_url := normalized;
                        CacheUtils.random_id := random_id |}])).
Proof.
  unfold CacheUtils.get_or_create_id_for_url, id_of.
  destruct (CacheUtils.normalize_url urlparse url) as [normalized|message];
    [|discriminate].
  intros Hcall. exists normalized. split; [reflexivity|]. revert Hcall.
  destruct (List.filter _ url_cache) as [|r rs] eqn:E.
  - destruct (CacheUtils.draw_fresh draws _) as [[rid rest']|] eqn:Hd;
      [|discriminate].
    intros [= <- <- <-]. apply draw_fresh_inv in Hd as [Hfresh Hin].
    split.
    + rewrite List.filter_app, E. simpl.
      rewrite bool_decide_eq_true_2 by reflexivity. reflexivity.
    + right. auto.
  - intros [= <- <- <-]. rewrite E. auto.
Qed.

End CacheInvariants.

(** X8. A call of [get_or_create_id_for_url] that returns only ever
    appends to the table: urlparse accepted the URL; the old table is a
    prefix of the new one with at most one row more; the id returned is
    the one the new table holds for the URL's normalized form; every
    normalized URL that had an id keeps it; and a table whose ids are
    pairwise distinct, or whose normalized URLs are pairwise distinct,
    stays so. *)
Theorem get_or_create_keeps_table_consistent
    (urlparse : str -> result str CacheUtils.url_parts) (url : str)
    (url_cache url_cache1 : list CacheUtils.cache_row)
    (draws rest : list str) (random_id : str) :
  CacheUtils.get_or_create_id_for_url urlparse url url_cache draws
    = CacheUtils.Returns random_id url_cache1 rest ->
  (exists ext, url_cache1 = url_cache ++ ext /\ (length ext <= 1)%nat)
  /\ (exists normalized,
        CacheUtils.normalize_url urlparse url = Returned normalized
        /\ id_of normalized url_cache1 = Some random_id)
  /\ (forall normalized i,
        id_of normalized url_cache = Some i ->
        id_of normalized url_cache1 = Some i)
  /\ (List.NoDup (List.map CacheUtils.random_id url_cache) ->
      List.NoDup (List.map CacheUtils.random_id url_cache1))
  /\ (List.NoDup (List.map CacheUtils.normalized_url url_cache) ->
      List.NoDup (List.map CacheUtils.normalized_url url_cache1)).
Proof.
  intros Hcall.
  destruct (get_or_create_cases urlparse _ _ _ _ _ _ Hcall)
    as (normalized & Hnorm & Hid & [->|(Hnone & Hfresh & _ & ->)]).
  - split; [exists []; rewrite app_nil_r; auto|].
    split; [exists normalized; auto|]. auto.
  - split; [eexists; split; [reflexivity|simpl; lia]|].
    split; [exists normalized; auto|].
    split; [intros n i; apply id_of_app|].
    split; intros Hnd; rewrite List.map_app; simpl;
      apply NoDup_snoc; try exact Hnd.
    + intros Hin. apply Hfresh. apply list_elem_of_In. exact Hin.
    + intros Hin. apply List.in_map_iff in Hin as (r & Hr & Hin).
      unfold id_of in Hnone.
      destruct (List.filter _ url_cache) as [|r' rs] eqn:E;
        [|discriminate].
      assert (H : In r (List.filter
                (fun r => bool_decide
                   (CacheUtils.normalized_url r = normalized))
                url_cache)).
      { apply List.filter_In. split; [exact Hin|].
        apply bool_decide_eq_true_2, Hr. }
      rewrite E in H. destruct H.
Qed.

Lemma get_or_create_keeps_table_consistent_witness :
  exists normalized,
    CacheUtils.normalize_url CacheUtils.urlparse_simple
      (u "https://a.com/x?y=1#frag") = Returned normalized
    /\ id_of normalized
         [{| CacheUtils.url := u "https://b.org/";
             CacheUtils.normalized_url := u "https://b.org/";
             CacheUtils.random_id := u "Ab3dE6gH9j" |};
          {| CacheUtils.url := u "https://a.com/x?y=1#frag";
             CacheUtils.normalized_url := u "https://a.com/x";
             CacheUtils.random_id := u "k2LmN5pQ8r" |}]
       = Some (u "k2LmN5pQ8r").
Proof.
  exact (proj1 (proj2 (get_or_create_keeps_table_consistent
           CacheUtils.urlparse_simple (u "https://a.com/x?y=1#frag")
           [{| CacheUtils.url := u "https://b.org/";
               CacheUtils.normalized_url := u "https://b.org/";
               CacheUtils.random_id := u "Ab3dE6gH9j" |}]
           _ [u "Ab3dE6gH9j"; u "k2LmN5pQ8r"] [] (u "k2LmN5pQ8r")
           eq_refl))).
Defined.

Section CitationIds.
Variable urlparse : str -> result str CacheUtils.url_parts.

(** The id the table holds for a URL, when urlparse accepts it. *)
Definition id_of_url (url : str) (url_cache : list CacheUtils.cache_row)
    : option str :=
  match CacheUtils.normalize_url urlparse url with
  | Returned normalized => id_of normalized url_cache
  | Raised _ => None
  end.

(** What the loop of [extract_citations_from_text] maintains: the ids of
    the table are pairwise distinct and every row written so far carries
    the id the table holds for its URL. *)
Definition ids_agree (st : ExtractCitations.state) : Prop :=
  let '(all_rows, url_cache, _) := st in
  List.NoDup (List.map CacheUtils.random_id url_cache)
  /\ Forall (fun row =>
       id_of_url (ExtractCitations.url row) url_cache
       = Some (ExtractCitations.ID row)) all_rows.

Definition table_of (st : ExtractCitations.state)
    : list CacheUtils.cache_row := snd (fst st).

Definition grows (st st' : ExtractCitations.state) : Prop :=
  (exists ext, table_of st' = table_of st ++ ext)
  /\ (exists more, fst (fst st') = fst (fst st) ++ more).

Lemma grows_refl (st : ExtractCitations.state) : grows st st.
Proof. split; exists []; rewrite app_nil_r; reflexivity. Qed.

Lemma grows_trans (a b c : ExtractCitations.state) :
  grows a b -> grows b c -> grows a c.
Proof.
  intros [(e1 & H1) (m1 & H2)] [(e2 & H3) (m2 & H4)]. split.
  - exists (e1 ++ e2). rewrite H3, H1, app_assoc. reflexivity.
  - exists (m1 ++ m2). rewrite H4, H2, app_assoc. reflexivity.
Qed.

Lemma id_of_url_app (url : str)
    (url_cache ext : list CacheUtils.cache_row) (i : str) :
  id_of_url url url_cache = Some i ->
  id_of_url url (url_cache ++ ext) = Some i.
Proof.
  unfold id_of_url. destruct (CacheUtils.normalize_url urlparse url);
    [apply id_of_app | discriminate].
Qed.

(** The state the [for] loop leaves behind, however it ends. *)
Definition left_by (e : ExtractCitations.items_end)
    (st' : ExtractCitations.state) : Prop :=
  match e with
  | ExtractCitations.Ended st => st = st'
  | ExtractCitations.Failed _ st => st = st'
  | ExtractCitations.Running => False
  end.

Lemma items_loop_ids_agree (data : list (option ExtractCitations.item)) :
  forall st st',
  ids_agree st ->
  left_by (ExtractCitations.items_loop urlparse data st) st' ->
  ids_agree st' /\ grows st st'.
Proof.
  induction data as [|[it|] rest IH]; intros st st' Hinv Hrun;
    simpl in Hrun.
  - subst st'. split; [exact Hinv | apply grows_refl].
  - destruct st as [[all_rows url_cache] draws].
    destruct (CacheUtils.get_or_create_id_for_url urlparse _ url_cache draws)
      as [rid cache1 draws1| |message] eqn:Hcall.
    2:{ destruct Hrun. }
    2:{ simpl in Hrun. subst st'. split; [exact Hinv | apply grows_refl]. }
    destruct Hinv as [Hnd Hrows].
    destruct (get_or_create_cases urlparse _ _ _ _ _ _ Hcall)
      as (normalized & Hnorm & Hid & Hcase).
    apply IH in Hrun as [Hinv' Hg].
    + split; [exact Hinv'|]. eapply grows_trans; [|exact Hg].
      split; unfold table_of; simpl.
      * destruct Hcase as [->|(_ & _ & _ & ->)];
          [exists []; rewrite app_nil_r|eexists]; reflexivity.
      * eexists; reflexivity.
    + split.
      * destruct Hcase as [->|(_ & Hfresh & _ & ->)]; [exact Hnd|].
        rewrite List.map_app. simpl. apply NoDup_snoc; [exact Hnd|].
        intros Hin. apply Hfresh, list_elem_of_In, Hin.
      * apply Forall_app. split.
        -- destruct Hcase as [->|(_ & _ & _ & ->)]; [exact Hrows|].
           eapply Forall_impl; [exact Hrows|].
           intros row Hrow. apply id_of_url_app, Hrow.
        -- constructor; [|constructor].
           unfold id_of_url. cbn [ExtractCitations.url ExtractCitations.ID].
           rewrite Hnorm. exact Hid.
  - subst st'. split; [exact Hinv | apply grows_refl].
Qed.

Lemma block_loop_ids_agree (attempts : list ExtractCitations.attempt) :
  forall st st',
  ids_agree st ->
  ExtractCitations.block_loop urlparse attempts st = Some st' ->
  ids_agree st' /\ grows st st'.
Proof.
  induction attempts as [|[error_msg|items] rest IH]; intros st st' Hinv Hrun;
    simpl in Hrun; [discriminate| |].
  - destruct (contains _ error_msg); [apply IH; assumption|].
    injection Hrun as <-. split; [exact Hinv | apply grows_refl].
  - destruct (ExtractCitations.items_loop urlparse items st)
      as [st1|error_msg st1|] eqn:Hitems; [| |discriminate].
    + injection Hrun as <-.
      apply (items_loop_ids_agree items); [exact Hinv|].
      rewrite Hitems. reflexivity.
    + destruct (items_loop_ids_agree items st st1 Hinv) as [Hinv1 Hg1];
        [rewrite Hitems; reflexivity|].
      destruct (contains _ error_msg).
      * destruct (IH _ _ Hinv1 Hrun) as [Hinv' Hg'].
        split; [exact Hinv' | eapply grows_trans; eassumption].
      * injection Hrun as <-. auto.
Qed.

Lemma blocks_loop_ids_agree (blocks : list (list ExtractCitations.attempt)) :
  forall st st',
  ids_agree st ->
  ExtractCitations.blocks_loop urlparse blocks st = Some st' ->
  ids_agree st' /\ grows st st'.
Proof.
  induction blocks as [|attempts rest IH]; intros st st' Hinv Hrun;
    simpl in Hrun.
  - injection Hrun as <-. split; [exact Hinv | apply grows_refl].
  - destruct (ExtractCitations.block_loop urlparse attempts st)
      as [st1|] eqn:Hb; [|discriminate].
    destruct (block_loop_ids_agree _ _ _ Hinv Hb) as [Hinv1 Hg1].
    destruct (IH _ _ Hinv1 Hrun) as [Hinv' Hg'].
    split; [exact Hinv' | eapply grows_trans; eassumption].
Qed.

End CitationIds.

(** X9. When the table the run starts from has pairwise distinct ids,
    the rows [extract_citations_from_text] writes identify URLs up to
    normalization: urlparse accepted the URL of every row written, and
    two rows carry the same ID exactly when their URLs have the same
    normalized form. The table is only extended, and its ids stay
    pairwise distinct. This holds also when a URL that urlparse rejects
    ended the work on a block. *)
Theorem citation_ids_identify_urls
    (urlparse : str -> result str CacheUtils.url_parts)
    (blocks : list (list ExtractCitations.attempt))
    (url_cache url_cache1 : list CacheUtils.cache_row)
    (draws rest : list str) (all_rows : list ExtractCitations.citation) :
  List.NoDup (List.map CacheUtils.random_id url_cache) ->
  ExtractCitations.extract_citations_rows urlparse blocks url_cache draws
    = Some (all_rows, url_cache1, rest) ->
  (forall r1 r2, In r1 all_rows -> In r2 all_rows ->
     exists n1 n2,
       CacheUtils.normalize_url urlparse (ExtractCitations.url r1)
       = Returned n1
       /\ CacheUtils.normalize_url urlparse (ExtractCitations.url r2)
          = Returned n2
       /\ (ExtractCitations.ID r1 = ExtractCitations.ID r2 <-> n1 = n2))
  /\ (exists ext, url_cache1 = url_cache ++ ext)
  /\ List.NoDup (List.map CacheUtils.random_id url_cache1).
Proof.
  intros Hnd Hrun.
  destruct (blocks_loop_ids_agree urlparse blocks ([], url_cache, draws)
              (all_rows, url_cache1, rest))
    as [[Hnd1 Hrows] [Hext _]]; [split; [exact Hnd|constructor] | exact Hrun |].
  split; [|split; [exact Hext | exact Hnd1]].
  intros r1 r2 H1 H2.
  rewrite List.Forall_forall in Hrows.
  pose proof (Hrows r1 H1) as E1. pose proof (Hrows r2 H2) as E2.
  unfold id_of_url in E1, E2.
  destruct (CacheUtils.normalize_url urlparse (ExtractCitations.url r1))
    as [n1|]; [|discriminate].
  destruct (CacheUtils.normalize_url urlparse (ExtractCitations.url r2))
    as [n2|]; [|discriminate].
  exists n1, n2. split; [reflexivity|]. split; [reflexivity|].
  split; intros E.
  - destruct (id_of_row _ _ _ E1) as (a & Ha & Hna & Hia).
    destruct (id_of_row _ _ _ E2) as (b & Hb & Hnb & Hib).
    assert (a = b).
    { apply (NoDup_map_injective CacheUtils.random_id url_cache1);
        try assumption. congruence. }
    congruence.
  - rewrite E in E1. congruence.
Qed.

Lemma citation_ids_identify_urls_witness :
  exists all_rows url_cache1 rest,
    ExtractCitations.extract_citations_rows CacheUtils.urlparse_simple
      [[ExtractCitations.Raises (u "reach token limit");
        ExtractCitations.Data
          [Some {| ExtractCitations.item_url := u " https://a.com/x#s1 ";
                   ExtractCitations.item_statement := u "first" |};
           Some {| ExtractCitations.item_url := u "https://b.org/";
                   ExtractCitations.item_statement := u "second" |}]];
       [ExtractCitations.Data
          [Some {| ExtractCitations.item_url := u "https://a.com/x?q=2";
                   ExtractCitations.item_statement := u "third" |};
           Some {| ExtractCitations.item_url := u "http://a]b/c";
                   ExtractCitations.item_statement := u "fourth" |};
           Some {| ExtractCitations.item_url := u "https://c.net/";
                   ExtractCitations.item_statement := u "fifth" |}]]]
      [{| CacheUtils.url := u "https://b.org/";
          CacheUtils.normalized_url := u "https://b.org/";
          CacheUtils.random_id := u "Ab3dE6gH9j" |}]
      [u "Ab3dE6gH9j"; u "k2LmN5pQ8r"]
    = Some (all_rows, url_cache1, rest)
    /\ List.map ExtractCitations.ID all_rows
       = [u "k2LmN5pQ8r"; u "Ab3dE6gH9j"; u "k2LmN5pQ8r"]
    /\ List.NoDup (List.map CacheUtils.random_id url_cache1).
Proof.
  eexists _, _, _.
  match goal with
  | |- ?run = ?res /\ _ =>
    assert (Hrun : run = res) by (vm_compute; reflexivity)
  end.
  split; [exact Hrun|]. split; [reflexivity|].
  refine (proj2 (proj2 (citation_ids_identify_urls _ _ _ _ _ _ _ _ Hrun))).
  vm_compute. constructor; [intros []|constructor].
Defined.

(** ** statement/verify_no_citations_web.py: tasks and tallies *)

(** The part of [verify_no_citations_web] before the aggregation: the
    tasks, the row each of them contributes, and the frame built from
    the rows. *)
Module WebTasks.
Import WebVerify.

(** A row of [df_no_citations]; the ids are the strings that
    [extract_no_citations] writes. *)
Record nc_row : Type := { nc_ID : str; nc_statement : str }.

(** [build_web_llms()] (utils.py), by the model names of the clients. *)
Definition build_web_llms : list str :=
  [u "gemini-2.5-pro"; u "gemini-2.5-flash"].

Record task : Type := {
  t_statement_id : str;
  t_statement : str;
  t_llm_name : str;
  t_attempt : Z
}.

(** The three nested loops that fill [tasks]. *)
Definition tasks (df_no_citations : list nc_row) : list task :=
  flat_map (fun row =>
    flat_map (fun llm_name =>
      List.map (fun attempt =>
                  {| t_statement_id := nc_ID row;
                     t_statement := nc_statement row;
                     t_llm_name := llm_name;
                     t_attempt := attempt |})
               [1; 2; 3])
      build_web_llms)
    df_no_citations.

(** [verify_single_statement_task], given what the call of
    [verify_statement_with_web_llm] did: the decision and the reason it
    returned (the reason a [str] or not), or the text of the exception
    it raised; the key [success], which the aggregation does not read,
    is left out. *)
Definition verify_single_statement_task (t : task)
    (outcome : result str (pyval * option str)) : vote :=
  match outcome with
  | Returned (decision, reason) =>
    {| ID := t_statement_id t; statement := t_statement t;
       llm_model := t_llm_name t; attempt := t_attempt t;
       decision := decision; reason := reason |}
  | Raised e =>
    {| ID := t_statement_id t; statement := t_statement t;
       llm_model := t_llm_name t; attempt := t_attempt t;
       decision := VBool false; reason := Some (u "验证失败: " ++ e) |}
  end.

(** The rows the futures produce, in the order of submission; the i-th
    outcome belongs to the i-th task. *)
Fixpoint results (ts : list task)
    (outcomes : list (result str (pyval * option str))) : list vote :=
  match ts, outcomes with
  | t :: ts, o :: outcomes =>
    verify_single_statement_task t o :: results ts outcomes
  | _, _ => []
  end.

Definition is_number (d : pyval) : bool :=
  match d with VNum _ => true | _ => false end.

Definition is_number_or_none (d : pyval) : bool :=
  match d with VNum _ | VNone => true | _ => false end.

(** [pd.DataFrame(verification_results)], on the column [decision]:
    when every decision is a number or [None] and one of them is a
    number, the column is numeric and holds NaN, which is truthy, in
    place of [None]; any other column keeps its values. The strings of
    the other columns, and whether a reason is a [str], are kept. *)
Definition data_frame (verification_results : list vote) : list vote :=
  let decisions := List.map decision verification_results in
  if forallb is_number_or_none decisions && existsb is_number decisions
  then List.map (fun v =>
                   match decision v with
                   | VNone =>
                     {| ID := ID v; statement := statement v;
                        llm_model := llm_model v; attempt := attempt v;
                        decision := VNum true; reason := reason v |}
                   | _ => v
                   end)
                verification_results
  else verification_results.

End WebTasks.

Section Tally.
Import WebVerify.

Lemma unique_NoDup (ids : list str) :
  forall seen, List.NoDup (unique seen ids).
Proof.
  induction ids as [|i ids IH]; intros seen; simpl; [constructor|].
  destruct (bool_decide_reflect (i ∈ seen)) as [Hi|Hi]; [apply IH|].
  constructor; [|apply IH].
  intros Hin. apply in_unique in Hin as [_ Hn]. apply Hn. left.
Qed.

Lemma rows_of_nonempty (df : list vote) (sid : str) :
  In sid (List.map ID df) -> rows_of sid df <> [].
Proof.
  intros Hin. apply List.in_map_iff in Hin as (v & Hv & Hin).
  intros E.
  assert (H : In v (rows_of sid df)).
  { apply List.filter_In. split; [exact Hin|].
    apply bool_decide_eq_true_2, Hv. }
  rewrite E in H. destruct H.
Qed.

(** No id of the frame is skipped by [if statement_data.empty]. *)
Lemma final_ids (df : list vote) :
  List.map f_ID (finals_of df) = unique [] (List.map ID df).
Proof.
  unfold finals_of.
  assert (H : forall sid, In sid (unique [] (List.map ID df)) ->
                          In sid (List.map ID df))
    by (intros sid Hin; apply in_unique in Hin; tauto).
  induction (unique [] (List.map ID df)) as [|sid ids IH]; [reflexivity|].
  simpl. rewrite List.map_app, IH by (intros s Hs; apply H; right; exact Hs).
  destruct (rows_of sid df) eqn:E.
  - exfalso. apply (rows_of_nonempty df sid); [apply H; left; reflexivity|].
    exact E.
  - simpl. f_equal. unfold record_of. apply tally_spec.
Qed.

Fixpoint sum_Z (l : list Z) : Z :=
  match l with
  | [] => 0
  | x :: l => x + sum_Z l
  end.

Lemma sum_Z_app (a b : list Z) : sum_Z (a ++ b) = sum_Z a + sum_Z b.
Proof. induction a as [|x a IH]; simpl; [reflexivity|]. rewrite IH. lia. Qed.

Lemma count_partition (df : list vote) (ids : list str) :
  List.NoDup ids ->
  sum_Z (List.map (fun sid => len (rows_of sid df)) ids)
  = len (List.filter (fun v => bool_decide (ID v ∈ ids)) df).
Proof.
  intros Hnd. unfold len. induction df as [|v df IH]; cbn [List.filter].
  - cbn [length]. clear Hnd. induction ids as [|i ids IHi];
      [reflexivity|].
    cbn [List.map sum_Z]. rewrite IHi. reflexivity.
  - assert (Hstep :
      sum_Z (List.map (fun sid => Z.of_nat (length (rows_of sid (v :: df))))
                      ids)
      = (if bool_decide (ID v ∈ ids) then 1 else 0)
        + sum_Z (List.map (fun sid => Z.of_nat (length (rows_of sid df)))
                          ids)).
    { clear IH. induction ids as [|i ids IHi].
      - reflexivity.
      - apply List.NoDup_cons_iff in Hnd as [Hi Hnd].
        cbn [List.map sum_Z]. rewrite IHi by exact Hnd.
        unfold rows_of at 1. cbn [List.filter]. fold (rows_of i df).
        destruct (bool_decide_reflect (ID v = i)) as [E|E].
        + subst i.
          rewrite (bool_decide_eq_false_2 (ID v ∈ ids))
            by (rewrite list_elem_of_In; exact Hi).
          rewrite bool_decide_eq_true_2 by left.
          cbn [length]. lia.
        + destruct (bool_decide_reflect (ID v ∈ ids)) as [Hin|Hin].
          * rewrite bool_decide_eq_true_2 by (right; exact Hin). lia.
          * rewrite bool_decide_eq_false_2
              by (rewrite not_elem_of_cons; split; assumption).
            lia. }
    rewrite Hstep, IH.
    destruct (bool_decide (ID v ∈ ids)); cbn [length]; lia.
Qed.

Lemma sum_bools_bounds (l : list bool) : 0 <= sum_bools l <= len l.
Proof.
  unfold sum_bools, len. pose proof (List.filter_length_le (fun b => b) l).
  lia.
Qed.

Lemma tally_bounds (sid : str) (data : list vote) (combined : str) :
  data <> [] ->
  let r := tally sid data combined in
  f_ID r = sid
  /\ total_votes r = len data
  /\ 1 <= total_votes r
  /\ 0 <= true_votes r /\ 0 <= false_votes r
  /\ true_votes r + false_votes r = total_votes r
  /\ (1 # 2 <= confidence r)%Q /\ (confidence r <= 1)%Q
  /\ (final_decision r = u "正确" <-> false_votes r < true_votes r)
  /\ (final_decision r = u "错误" <-> true_votes r < false_votes r)
  /\ (final_decision r = u "平局" <-> true_votes r = false_votes r).
Proof.
  intros Hne r.
  pose proof (tally_spec sid data combined)
    as (Hid & Ht & Hf & Hn & Hwrong & Hright & Htie).
  fold r in Hid, Ht, Hf, Hn, Hwrong, Hright, Htie.
  pose proof (sum_bools_bounds
                (List.map (fun v => to_bool (decision v)) data)) as Hb.
  unfold len in Hb at 1. rewrite length_map in Hb. fold (len data) in Hb.
  assert (Hpos : 1 <= len data)
    by (unfold len; destruct data; [contradiction|simpl; lia]).
  set (t := sum_bools _) in *. set (n := len data) in *.
  split; [exact Hid|]. split; [exact Hn|]. split; [lia|].
  split; [lia|]. split; [lia|]. split; [lia|].
  assert (Hgt : (n >? 0) = true) by (apply Z.gtb_lt; lia).
  rewrite Hgt in Hwrong, Hright.
  assert (Hq : forall a, n - a < a -> a <= n ->
                 (1 # 2 <= ratio a n)%Q /\ (ratio a n <= 1)%Q).
  { intros a H1 H2. unfold ratio, Qle. simpl.
    rewrite Z2Pos.id by lia. lia. }
  rewrite Hf, Ht.
  destruct (Z.lt_trichotomy t (n - t)) as [H|[H|H]].
  - destruct (Hwrong H) as [Hd Hc]. rewrite Hd, Hc.
    destruct (Hq (n - t) ltac:(lia) ltac:(lia)) as [Q1 Q2].
    split; [exact Q1|]. split; [exact Q2|].
    repeat split; intros; try lia; try discriminate.
  - destruct (Htie H) as [Hd Hc]. rewrite Hd, Hc.
    split; [apply Qle_refl|]. split; [discriminate|].
    repeat split; intros; try lia; try discriminate.
  - destruct (Hright ltac:(lia)) as [Hd Hc]. rewrite Hd, Hc.
    destruct (Hq t ltac:(lia) ltac:(lia)) as [Q1 Q2].
    split; [exact Q1|]. split; [exact Q2|].
    repeat split; intros; try lia; try discriminate.
Qed.

End Tally.

(** X10. On a table of collected votes that has at least one row and
    whose reasons are all strings, the aggregation returns a final table
    with exactly one record per distinct statement id, in the order in
    which the ids first appear. Each record counts the votes of its id:
    at least one, true and false votes adding up to the total; its
    confidence lies between 1/2 and 1; its decision is "正确", "错误" or
    "平局" exactly when the true votes are more than, fewer than, or as
    many as the false votes. Over all records the totals add up to the
    number of votes collected. On a table without rows the aggregation
    raises KeyError (the frame has no column ID); on a table with a
    reason that is not a string it raises TypeError. *)
Theorem verify_no_citations_web_tally (df_verification : list WebVerify.vote) :
  (df_verification = [] ->
   WebVerify.verify_no_citations_web df_verification
   = Raised WebVerify.KeyError)
  /\ (df_verification <> [] ->
      ~ Forall (fun v => WebVerify.reason v <> None) df_verification ->
      WebVerify.verify_no_citations_web df_verification
      = Raised WebVerify.TypeError)
  /\ (df_verification <> [] ->
      Forall (fun v => WebVerify.reason v <> None) df_verification ->
      exists df_final,
        WebVerify.verify_no_citations_web df_verification = Returned df_final
        /\ List.map WebVerify.f_ID df_final
           = WebVerify.unique [] (List.map WebVerify.ID df_verification)
        /\ List.NoDup (List.map WebVerify.f_ID df_final)
        /\ Forall (fun r =>
             WebVerify.total_votes r
             = WebVerify.len
                 (WebVerify.rows_of (WebVerify.f_ID r) df_verification)
             /\ 1 <= WebVerify.total_votes r
             /\ 0 <= WebVerify.true_votes r /\ 0 <= WebVerify.false_votes r
             /\ WebVerify.true_votes r + WebVerify.false_votes r
                = WebVerify.total_votes r
             /\ (1 # 2 <= WebVerify.confidence r)%Q
             /\ (WebVerify.confidence r <= 1)%Q
             /\ (WebVerify.final_decision r = u "正确"
                 <-> WebVerify.false_votes r < WebVerify.true_votes r)
             /\ (WebVerify.final_decision r = u "错误"
                 <-> WebVerify.true_votes r < WebVerify.false_votes r)
             /\ (WebVerify.final_decision r = u "平局"
                 <-> WebVerify.true_votes r = WebVerify.false_votes r))
           df_final
        /\ sum_Z (List.map WebVerify.total_votes df_final)
           = WebVerify.len df_verification).
Proof.
  rewrite verify_no_citations_web_cases.
  split; [intros ->; reflexivity|].
  split.
  { intros Hne Hbad. destruct df_verification as [|v0 df0] eqn:Edf;
      [contradiction|].
    rewrite <- Edf in *. rewrite <- forallb_has_text in Hbad.
    destruct (forallb has_text df_verification); [|reflexivity].
    exfalso. apply Hbad. reflexivity. }
  intros Hne Hall. destruct df_verification as [|v0 df0] eqn:Edf;
    [contradiction|].
  rewrite <- Edf in *. clear Hne Edf v0 df0.
  apply forallb_has_text in Hall. rewrite Hall.
  exists (finals_of df_verification). split; [reflexivity|].
  set (df_final := finals_of df_verification).
  assert (Hrec : Forall (fun r =>
            exists sid, WebVerify.rows_of sid df_verification <> []
              /\ r = record_of sid
                       (WebVerify.rows_of sid df_verification)) df_final).
  { apply List.Forall_forall. intros r Hin.
    apply in_finals_of in Hin as (sid & _ & Hne & ->).
    exists sid. auto. }
  split; [apply final_ids|].
  split; [unfold df_final; rewrite final_ids; apply unique_NoDup|].
  split.
  - eapply Forall_impl; [exact Hrec|].
    intros r (sid & Hne & ->).
    destruct (tally_bounds sid _
                (join (u "; ")
                   (List.map reason_text
                      (WebVerify.rows_of sid df_verification))) Hne)
      as (Hid & Hn & H1 & H2 & H3 & H4 & H5 & H6 & H7 & H8 & H9).
    fold (record_of sid (WebVerify.rows_of sid df_verification))
      in Hid, Hn, H1, H2, H3, H4, H5, H6, H7, H8, H9.
    rewrite Hid. repeat split; try assumption; try apply H7; try apply H8;
      try apply H9.
  - transitivity
      (sum_Z (List.map
                (fun sid => WebVerify.len
                              (WebVerify.rows_of sid df_verification))
                (List.map WebVerify.f_ID df_final))).
    + clear -Hrec. induction Hrec as [|r l (sid & Hne & ->) _ IH];
        [reflexivity|].
      simpl. rewrite IH. f_equal.
      destruct (tally_bounds sid _
                  (join (u "; ")
                     (List.map reason_text
                        (WebVerify.rows_of sid df_verification))) Hne)
        as (Hid & Hn & _).
      fold (record_of sid (WebVerify.rows_of sid df_verification))
        in Hid, Hn.
      rewrite Hid. exact Hn.
    + unfold df_final. rewrite final_ids.
      rewrite count_partition by apply unique_NoDup. f_equal.
      apply List.forallb_filter_id. apply List.forallb_forall.
      intros v Hv. apply bool_decide_eq_true_2, list_elem_of_In, in_unique.
      split; [apply List.in_map, Hv | apply not_elem_of_nil].
Qed.

Lemma verify_no_citations_web_tally_witness :
  exists df_final,
    WebVerify.verify_no_citations_web
      (six_votes (u "NC_001") [WebVerify.VBool true; WebVerify.VNone]
       ++ six_votes (u "NC_002") [WebVerify.VNum true])
    = Returned df_final
    /\ List.map WebVerify.f_ID df_final = [u "NC_001"; u "NC_002"]
    /\ sum_Z (List.map WebVerify.total_votes df_final) = 3.
Proof.
  destruct (proj2 (proj2 (verify_no_citations_web_tally
              (six_votes (u "NC_001") [WebVerify.VBool true; WebVerify.VNone]
               ++ six_votes (u "NC_002") [WebVerify.VNum true]))))
    as (df_final & Hrun & Hids & _ & _ & Hsum).
  - discriminate.
  - repeat (apply List.Forall_cons; [discriminate|]). apply List.Forall_nil.
  - exists df_final. split; [exact Hrun|]. split; [|exact Hsum].
    rewrite Hids. vm_compute. reflexivity.
Defined.

Section CompletionOrder.
Import WebVerify.

Lemma filter_length_Permutation {A} (p : A -> bool) (l l' : list A) :
  Permutation l l' ->
  length (List.filter p l) = length (List.filter p l').
Proof.
  induction 1 as [|x l l' _ IH|x y l|l l' l'' _ IH1 _ IH2]; simpl.
  - reflexivity.
  - destruct (p x); simpl; congruence.
  - destruct (p x), (p y); reflexivity.
  - congruence.
Qed.

Lemma rows_of_Permutation (sid : str) (df df' : list vote) :
  Permutation df df' -> Permutation (rows_of sid df) (rows_of sid df').
Proof.
  unfold rows_of.
  induction 1 as [|x l l' _ IH|x y l|l l' l'' _ IH1 _ IH2]; simpl.
  - constructor.
  - destruct (bool_decide _); [constructor|]; exact IH.
  - destruct (bool_decide (ID x = sid)), (bool_decide (ID y = sid));
      try reflexivity. apply perm_swap.
  - etransitivity; eassumption.
Qed.

Lemma tallies_Permutation (sid : str) (data data' : list vote)
    (combined combined' : str) :
  Permutation data data' ->
  let r := tally sid data combined in
  let r' := tally sid data' combined' in
  true_votes r = true_votes r' /\ false_votes r = false_votes r'
  /\ total_votes r = total_votes r'
  /\ final_decision r = final_decision r'
  /\ confidence r = confidence r'.
Proof.
  intros Hp.
  assert (Hn : len data = len data')
    by (unfold len; rewrite (Permutation_length Hp); reflexivity).
  assert (Ht : sum_bools (List.map (fun v => to_bool (decision v)) data)
               = sum_bools (List.map (fun v => to_bool (decision v)) data')).
  { unfold sum_bools. f_equal.
    apply filter_length_Permutation, Permutation_map, Hp. }
  unfold tally, len in *. rewrite !length_map, Hn, Ht.
  destruct (_ >? _); [|destruct (_ >? _)]; simpl; auto.
Qed.

Lemma forallb_Permutation {A} (p : A -> bool) (l l' : list A) :
  Permutation l l' -> forallb p l = forallb p l'.
Proof.
  intros Hp. apply Bool.eq_iff_eq_true. rewrite !List.forallb_forall.
  split; intros H x Hx; apply H;
    [apply (Permutation_in _ (Permutation_sym Hp)) | apply (Permutation_in _ Hp)];
    exact Hx.
Qed.

End CompletionOrder.

(** X11. The order in which the worker threads complete does not change
    the outcome of the vote. For two orderings of the same collected
    rows: what the loop body of a statement id computes from the votes
    (true, false and total votes, decision, confidence) is the same,
    whatever the reasons are joined to; the loop body raises under one
    exactly when it raises under the other, and the two records it
    builds otherwise have the same true, false and total votes, the same
    decision and the same confidence; the aggregation as a whole raises
    under one exactly when it raises under the other, with the same
    exception, and the two final tables it returns otherwise hold
    records for the same ids, those of one id with the same votes,
    decision and confidence. *)
Theorem tallies_ignore_completion_order
    (df_verification df_verification' : list WebVerify.vote) (sid : str) :
  Permutation df_verification df_verification' ->
  (forall combined combined',
     let r := WebVerify.tally sid
                (WebVerify.rows_of sid df_verification) combined in
     let r' := WebVerify.tally sid
                 (WebVerify.rows_of sid df_verification') combined' in
     WebVerify.true_votes r = WebVerify.true_votes r'
     /\ WebVerify.false_votes r = WebVerify.false_votes r'
     /\ WebVerify.total_votes r = WebVerify.total_votes r'
     /\ WebVerify.final_decision r = WebVerify.final_decision r'
     /\ WebVerify.confidence r = WebVerify.confidence r')
  /\ (forall e,
     WebVerify.aggregate sid (WebVerify.rows_of sid df_verification)
     = Raised e
     <-> WebVerify.aggregate sid (WebVerify.rows_of sid df_verification')
         = Raised e)
  /\ (forall r r',
        WebVerify.aggregate sid (WebVerify.rows_of sid df_verification)
        = Returned r ->
        WebVerify.aggregate sid (WebVerify.rows_of sid df_verification')
        = Returned r' ->
        WebVerify.true_votes r = WebVerify.true_votes r'
        /\ WebVerify.false_votes r = WebVerify.false_votes r'
        /\ WebVerify.total_votes r = WebVerify.total_votes r'
        /\ WebVerify.final_decision r = WebVerify.final_decision r'
        /\ WebVerify.confidence r = WebVerify.confidence r')
  /\ (forall e,
        WebVerify.verify_no_citations_web df_verification = Raised e
        <-> WebVerify.verify_no_citations_web df_verification' = Raised e)
  /\ (forall df_final df_final',
        WebVerify.verify_no_citations_web df_verification
        = Returned df_final ->
        WebVerify.verify_no_citations_web df_verification'
        = Returned df_final' ->
        (In sid (List.map WebVerify.f_ID df_final)
         <-> In sid (List.map WebVerify.f_ID df_final'))
        /\ forall r r',
             In r df_final -> In r' df_final' ->
             WebVerify.f_ID r = sid -> WebVerify.f_ID r' = sid ->
             WebVerify.true_votes r = WebVerify.true_votes r'
             /\ WebVerify.false_votes r = WebVerify.false_votes r'
             /\ WebVerify.total_votes r = WebVerify.total_votes r'
             /\ WebVerify.final_decision r = WebVerify.final_decision r'
             /\ WebVerify.confidence r = WebVerify.confidence r').
Proof.
  intros Hp.
  pose proof (rows_of_Permutation sid _ _ Hp) as Hrows.
  pose proof (forallb_Permutation has_text _ _ Hrows) as Hrt.
  pose proof (forallb_Permutation has_text _ _ Hp) as Hdt.
  rewrite !aggregate_cases, !verify_no_citations_web_cases, <- Hrt.
  assert (Hnil : df_verification = [] <-> df_verification' = []).
  { split; intros ->;
      [|symmetry in Hp]; apply Permutation_nil in Hp; exact Hp. }
  split.
  { intros combined combined'. apply tallies_Permutation, Hrows. }
  split.
  { intros e.
    destruct (forallb has_text (WebVerify.rows_of sid df_verification));
      [split; discriminate | reflexivity]. }
  split.
  { intros r r'.
    destruct (forallb has_text (WebVerify.rows_of sid df_verification));
      [|discriminate].
    intros [= <-] [= <-]. apply tallies_Permutation, Hrows. }
  split.
  { intros e. destruct df_verification as [|v l], df_verification' as [|v' l'];
      try reflexivity.
    - discriminate (proj1 Hnil eq_refl).
    - discriminate (proj2 Hnil eq_refl).
    - rewrite <- Hdt.
      destruct (forallb has_text (v :: l));
        [split; discriminate | reflexivity]. }
  intros df_final df_final' Hrun Hrun'.
  assert (Hf : df_final = finals_of df_verification).
  { clear -Hrun. destruct df_verification as [|v l]; [discriminate|].
    destruct (forallb has_text (v :: l)); [|discriminate].
    injection Hrun as <-. reflexivity. }
  assert (Hf' : df_final' = finals_of df_verification').
  { clear -Hrun'. destruct df_verification' as [|v l]; [discriminate|].
    destruct (forallb has_text (v :: l)); [|discriminate].
    injection Hrun' as <-. reflexivity. }
  clear Hrun Hrun'. subst df_final df_final'.
  split.
  - rewrite !final_ids, !in_unique.
    assert (Hin : In sid (List.map WebVerify.ID df_verification)
                  <-> In sid (List.map WebVerify.ID df_verification')).
    { split; apply Permutation_in, Permutation_map;
        [exact Hp | symmetry; exact Hp]. }
    tauto.
  - intros r r' Hr Hr' Hid Hid'.
    apply in_finals_of in Hr as (s & _ & _ & ->).
    apply in_finals_of in Hr' as (s' & _ & _ & ->).
    assert (Hs : forall s0 data, WebVerify.f_ID (record_of s0 data) = s0)
      by (intros s0 data; apply (tally_spec s0)).
    rewrite Hs in Hid, Hid'. subst s s'. apply tallies_Permutation, Hrows.
Qed.

Lemma tallies_ignore_completion_order_witness :
  exists r r',
    WebVerify.aggregate (u "NC_001")
      (WebVerify.rows_of (u "NC_001")
         (six_votes (u "NC_001")
            [WebVerify.VBool true; WebVerify.VBool false;
             WebVerify.VBool true]))
    = Returned r
    /\ WebVerify.aggregate (u "NC_001")
         (WebVerify.rows_of (u "NC_001")
            (six_votes (u "NC_001")
               [WebVerify.VBool false; WebVerify.VBool true;
                WebVerify.VBool true]))
       = Returned r'
    /\ WebVerify.final_decision r = WebVerify.final_decision r'.
Proof.
  eexists. eexists.
  match goal with
  | |- ?a = Returned ?r /\ ?b = Returned ?r' /\ _ =>
    assert (Ha : a = Returned r) by (vm_compute; reflexivity);
    assert (Hb : b = Returned r') by (vm_compute; reflexivity)
  end.
  split; [exact Ha|]. split; [exact Hb|].
  exact (proj1 (proj2 (proj2 (proj2
           (proj1 (proj2 (proj2
              (tallies_ignore_completion_order
                 (six_votes (u "NC_001")
                    [WebVerify.VBool true; WebVerify.VBool false;
                     WebVerify.VBool true])
                 (six_votes (u "NC_001")
                    [WebVerify.VBool false; WebVerify.VBool true;
                     WebVerify.VBool true])
                 (u "NC_001")
                 (perm_swap _ _ _)))) _ _ Ha Hb))))).
Defined.

Section SixVotes.
Import WebVerify WebTasks.

Definition key_of_vote (v : vote) : str * str := (ID v, statement v).
Definition key_of_row (row : nc_row) : str * str :=
  (nc_ID row, nc_statement row).

Lemma results_keys (ts : list task) :
  forall outcomes, length outcomes = length ts ->
  List.map key_of_vote (results ts outcomes)
  = List.map (fun t => (t_statement_id t, t_statement t)) ts.
Proof.
  induction ts as [|t ts IH]; intros [|o os] Hlen; simpl in *;
    try discriminate; [reflexivity|].
  rewrite IH by lia. f_equal. destruct o as [[d r]|e]; reflexivity.
Qed.

Lemma tasks_keys (df : list nc_row) :
  List.map (fun t => (t_statement_id t, t_statement t)) (tasks df)
  = flat_map (fun row => repeat (key_of_row row) 6) df.
Proof.
  unfold tasks. induction df as [|row df IH]; [reflexivity|].
  cbn [flat_map]. rewrite List.map_app, IH. reflexivity.
Qed.

Lemma data_frame_keys (l : list vote) :
  List.map key_of_vote (data_frame l) = List.map key_of_vote l.
Proof.
  unfold data_frame. destruct (_ && _); [|reflexivity].
  rewrite List.map_map. apply List.map_ext. intros v.
  destruct (decision v); reflexivity.
Qed.

Lemma data_frame_reasons (l : list vote) :
  List.map reason (data_frame l) = List.map reason l.
Proof.
  unfold data_frame. destruct (_ && _); [|reflexivity].
  rewrite List.map_map. apply List.map_ext. intros v.
  destruct (decision v); reflexivity.
Qed.

Lemma data_frame_has_text (l : list vote) :
  forallb has_text (data_frame l) = forallb has_text l.
Proof.
  assert (E : forall l', forallb has_text l'
              = forallb (fun r => match r with Some _ => true | None => false
                                  end) (List.map reason l')).
  { intros l'. induction l' as [|v l' IH]; [reflexivity|].
    cbn [List.map forallb]. rewrite IH. reflexivity. }
  rewrite !E, data_frame_reasons. reflexivity.
Qed.

Lemma rows_of_keys (sid : str) (l : list vote) :
  length (rows_of sid l)
  = length (List.filter (fun k => bool_decide (fst k = sid))
                        (List.map key_of_vote l)).
Proof.
  unfold rows_of. induction l as [|v l IH]; [reflexivity|].
  cbn [List.map List.filter]. unfold key_of_vote at 1. cbn [fst].
  destruct (bool_decide (ID v = sid)); cbn [length]; rewrite IH; reflexivity.
Qed.

Lemma count_keys (sid : str) (df : list nc_row) :
  length (List.filter (fun k => bool_decide (fst k = sid))
            (flat_map (fun row => repeat (key_of_row row) 6) df))
  = (6 * length (List.filter (fun row => bool_decide (nc_ID row = sid)) df))%nat.
Proof.
  induction df as [|row df IH]; [reflexivity|].
  cbn [flat_map]. rewrite List.filter_app, length_app, IH.
  cbn [List.filter repeat key_of_row fst].
  destruct (bool_decide (nc_ID row = sid)); cbn [length app]; lia.
Qed.

Lemma one_row_per_id (sid : str) (df : list nc_row) (row : nc_row) :
  List.NoDup (List.map nc_ID df) -> In row df -> nc_ID row = sid ->
  List.filter (fun row => bool_decide (nc_ID row = sid)) df = [row].
Proof.
  intros Hnd Hin <-. induction df as [|x df IH]; [destruct Hin|].
  simpl in Hnd. apply List.NoDup_cons_iff in Hnd as [Hx Hnd].
  cbn [List.filter].
  assert (Hnone : forall y, nc_ID y ∉ List.map nc_ID df ->
            List.filter (fun r => bool_decide (nc_ID r = nc_ID y)) df = []).
  { clear. intros y Hy. induction df as [|z df IH]; [reflexivity|].
    simpl in Hy. apply not_elem_of_cons in Hy as [Hne Hy].
    cbn [List.filter]. rewrite bool_decide_eq_false_2 by congruence.
    apply IH, Hy. }
  destruct Hin as [->|Hin].
  - rewrite bool_decide_eq_true_2 by reflexivity. f_equal.
    apply Hnone. rewrite list_elem_of_In. exact Hx.
  - rewrite bool_decide_eq_false_2.
    + apply IH; assumption.
    + intros E. apply Hx. rewrite E. apply List.in_map, Hin.
Qed.

End SixVotes.

(** X12. Let the ids of [df_no_citations] be pairwise distinct and let
    every submitted task have produced its row, collected in whatever
    order. When there is at least one statement and every reason
    collected is a string, the final table is built; it has as many
    records as there are statements, and for every statement a record
    with its id and its text that counts exactly six votes: three
    attempts by each of the two web models. When there is no statement,
    the aggregation raises KeyError; when some collected reason is not a
    string, it raises TypeError. *)
Theorem every_statement_gets_six_votes
    (df_no_citations : list WebTasks.nc_row)
    (outcomes : list (result str (WebVerify.pyval * option str)))
    (verification_results : list WebVerify.vote) :
  List.NoDup (List.map WebTasks.nc_ID df_no_citations) ->
  length outcomes = length (WebTasks.tasks df_no_citations) ->
  Permutation verification_results
    (WebTasks.results (WebTasks.tasks df_no_citations) outcomes) ->
  let df_verification := WebTasks.data_frame verification_results in
  (df_no_citations = [] ->
   WebVerify.verify_no_citations_web df_verification
   = Raised WebVerify.KeyError)
  /\ (df_no_citations <> [] ->
      ~ Forall (fun v => WebVerify.reason v <> None) verification_results ->
      WebVerify.verify_no_citations_web df_verification
      = Raised WebVerify.TypeError)
  /\ (df_no_citations <> [] ->
      Forall (fun v => WebVerify.reason v <> None) verification_results ->
      exists df_final,
        WebVerify.verify_no_citations_web df_verification = Returned df_final
        /\ length df_final = length df_no_citations
        /\ forall row, In row df_no_citations ->
             exists r, In r df_final
               /\ WebVerify.f_ID r = WebTasks.nc_ID row
               /\ WebVerify.f_statement r = WebTasks.nc_statement row
               /\ WebVerify.total_votes r = 6).
Proof.
  intros Hnd Hlen Hp df_verification.
  assert (Hkeys : Permutation
            (List.map key_of_vote df_verification)
            (flat_map (fun row => repeat (key_of_row row) 6)
                      df_no_citations)).
  { unfold df_verification. rewrite data_frame_keys.
    rewrite <- tasks_keys, <- (results_keys _ outcomes Hlen).
    apply Permutation_map, Hp. }
  assert (Hempty : df_verification = [] <-> df_no_citations = []).
  { split.
    - intros E. rewrite E in Hkeys. cbn [List.map] in Hkeys.
      apply Permutation_nil in Hkeys.
      destruct df_no_citations; [reflexivity|discriminate].
    - intros E. rewrite E in Hkeys. cbn [flat_map] in Hkeys.
      symmetry in Hkeys. apply Permutation_nil in Hkeys.
      destruct df_verification; [reflexivity|discriminate]. }
  assert (Htext : forallb has_text df_verification
                  = forallb has_text verification_results)
    by apply data_frame_has_text.
  rewrite verify_no_citations_web_cases.
  split.
  { intros E. apply Hempty in E. rewrite E. reflexivity. }
  split.
  { intros Hne Hbad. rewrite <- forallb_has_text, <- Htext in Hbad.
    destruct df_verification; [exfalso; tauto|].
    destruct (forallb has_text _); [|reflexivity].
    exfalso. apply Hbad. reflexivity. }
  intros Hne Hall. apply forallb_has_text in Hall. rewrite <- Htext in Hall.
  destruct df_verification as [|v0 df0] eqn:Edf; [exfalso; tauto|].
  rewrite <- Edf in *. clear Edf v0 df0 Hempty Hne. rewrite Hall.
  clearbody df_verification.
  exists (finals_of df_verification). split; [reflexivity|].
  assert (Hcount : forall sid,
            length (WebVerify.rows_of sid df_verification)
            = (6 * length (List.filter
                             (fun row => bool_decide
                                           (WebTasks.nc_ID row = sid))
                             df_no_citations))%nat).
  { intros sid. rewrite rows_of_keys, <- count_keys.
    apply filter_length_Permutation, Hkeys. }
  assert (Hids : forall sid,
            In sid (List.map WebVerify.ID df_verification)
            <-> In sid (List.map WebTasks.nc_ID df_no_citations)).
  { intros sid.
    assert (E : List.map WebVerify.ID df_verification
                = List.map fst (List.map key_of_vote df_verification))
      by (rewrite List.map_map; reflexivity).
    rewrite E. split.
    - intros Hin. apply List.in_map_iff in Hin as (k & <- & Hk).
      apply (Permutation_in _ Hkeys), List.in_flat_map in Hk
        as (row & Hrow & Hk).
      apply List.repeat_spec in Hk as ->.
      change (fst (key_of_row row)) with (WebTasks.nc_ID row).
      apply List.in_map, Hrow.
    - intros Hin. apply List.in_map_iff in Hin as (row & <- & Hrow).
      change (WebTasks.nc_ID row) with (fst (key_of_row row)).
      apply List.in_map.
      apply (Permutation_in _ (Permutation_sym Hkeys)).
      apply List.in_flat_map. exists row. split; [exact Hrow|]. left.
      reflexivity. }
  split.
  - rewrite <- (length_map WebVerify.f_ID).
    rewrite final_ids.
    rewrite <- (length_map WebTasks.nc_ID df_no_citations).
    apply Permutation_length, NoDup_Permutation;
      [apply NoDup_ListNoDup, unique_NoDup
      | apply NoDup_ListNoDup; exact Hnd |].
    intros sid. rewrite !list_elem_of_In, in_unique, Hids.
    pose proof (not_elem_of_nil sid). tauto.
  - intros row Hrow.
    set (sid := WebTasks.nc_ID row).
    assert (Hsix : length (WebVerify.rows_of sid df_verification)
                   = 6%nat).
    { rewrite Hcount, (one_row_per_id sid _ row Hnd Hrow eq_refl).
      reflexivity. }
    assert (Hne : WebVerify.rows_of sid df_verification <> [])
      by (intros E; rewrite E in Hsix; discriminate).
    exists (record_of sid (WebVerify.rows_of sid df_verification)).
    split; [|split; [|split]].
    + apply in_finals_of. exists sid.
      split; [apply rows_of_in_ids, Hne|]. auto.
    + apply (tally_spec sid).
    + assert (Hst : forall v,
                In v (WebVerify.rows_of sid df_verification) ->
                WebVerify.statement v = WebTasks.nc_statement row).
      { intros v Hv. apply List.filter_In in Hv as [Hv Hvid].
        apply bool_decide_eq_true in Hvid.
        apply (List.in_map key_of_vote) in Hv.
        apply (Permutation_in _ Hkeys), List.in_flat_map in Hv
          as (row' & Hrow' & Hk).
        apply List.repeat_spec in Hk.
        unfold key_of_vote, key_of_row in Hk. injection Hk as Hk1 Hk2.
        assert (Hsame : row' = row).
        { apply (NoDup_map_injective WebTasks.nc_ID df_no_citations);
            try assumption. rewrite <- Hk1, Hvid. reflexivity. }
        rewrite Hk2, Hsame. reflexivity. }
      unfold record_of, WebVerify.tally.
      destruct (WebVerify.rows_of sid df_verification) as [|v vs];
        [contradiction|].
      specialize (Hst v (or_introl eq_refl)).
      destruct (_ >? _); [|destruct (_ >? _)]; exact Hst.
    + pose proof (tally_bounds sid _
                    (join (u "; ")
                       (List.map reason_text
                          (WebVerify.rows_of sid df_verification))) Hne)
        as (_ & Hn & _).
      fold (record_of sid (WebVerify.rows_of sid df_verification)) in Hn.
      rewrite Hn. unfold WebVerify.len. rewrite Hsix. reflexivity.
Qed.

Lemma every_statement_gets_six_votes_witness :
  exists df_final,
    WebVerify.verify_no_citations_web
      (WebTasks.data_frame
         (rev (WebTasks.results
                 (WebTasks.tasks
                    [{| WebTasks.nc_ID := u "NC_001";
                        WebTasks.nc_statement := u "s1" |};
                     {| WebTasks.nc_ID := u "NC_002";
                        WebTasks.nc_statement := u "s2" |}])
                 (repeat (Returned (WebVerify.VBool true, Some (u "ok"))) 11
                  ++ [Raised (u "boom")]))))
    = Returned df_final
    /\ length df_final = 2%nat.
Proof.
  destruct (proj2 (proj2 (every_statement_gets_six_votes
    [{| WebTasks.nc_ID := u "NC_001"; WebTasks.nc_statement := u "s1" |};
     {| WebTasks.nc_ID := u "NC_002"; WebTasks.nc_statement := u "s2" |}]
    (repeat (Returned (WebVerify.VBool true, Some (u "ok"))) 11
     ++ [Raised (u "boom")])
    (rev (WebTasks.results
            (WebTasks.tasks
               [{| WebTasks.nc_ID := u "NC_001";
                   WebTasks.nc_statement := u "s1" |};
                {| WebTasks.nc_ID := u "NC_002";
                   WebTasks.nc_statement := u "s2" |}])
            (repeat (Returned (WebVerify.VBool true, Some (u "ok"))) 11
             ++ [Raised (u "boom")])))
    ltac:(vm_compute; constructor;
          [intros [H|[]]; discriminate H
          |constructor; [intros []|constructor]])
    eq_refl
    ltac:(symmetry; apply Permutation_rev))))
    as (df_final & Hrun & Hlen & _).
  - discriminate.
  - vm_compute. repeat (apply List.Forall_cons; [discriminate|]).
    apply List.Forall_nil.
  - exists df_final. split; [exact Hrun | exact Hlen].
Defined.

(** Two models answer with numbers and one with null under [decision]:
    in the frame the null is NaN and counts as a true vote. *)
Example null_decision_among_numbers_counts_as_true :
  let rows :=
    six_votes (u "NC_001")
      [WebVerify.VNum true; WebVerify.VNum false; WebVerify.VNone] in
  List.map (fun v => WebVerify.to_bool (WebVerify.decision v)) rows
  = [true; false; false]
  /\ List.map (fun v => WebVerify.to_bool (WebVerify.decision v))
       (WebTasks.data_frame rows)
     = [true; false; true].
Proof. vm_compute. split; reflexivity. Qed.

(** ** process/extract_reference_structured.py: every anchor is placed once *)

Section ReferenceOrder.
Import CacheUtils Reference.
Variable urlparse : str -> result str url_parts.
Variable int_max_str_digits : nat.

(** Where the loop sends an anchor. *)
Definition goes_detailed (html : str) (boundary : Z) (l : link) : bool :=
  truthy (href l) && (find html (outer_html l) <? boundary).

Definition goes_summary (html : str) (boundary : Z) (l : link) : bool :=
  truthy (href l) && negb (find html (outer_html l) <? boundary).

Definition numbered_from (start : nat) (indices : list Z) : Prop :=
  indices = List.map Z.of_nat (seq start (length indices)).

Lemma numbered_from_snoc (start : nat) (indices : list Z) :
  numbered_from start indices ->
  numbered_from start
    (indices ++ [Z.of_nat (length indices) + Z.of_nat start]).
Proof.
  unfold numbered_from. intros H. rewrite length_app. simpl.
  rewrite List.seq_app, List.map_app, <- H. simpl. f_equal. f_equal. lia.
Qed.

Lemma extract_detailed_fields (l : link) (index : Z)
    (ref_info : detailed_reference) :
  extract_detailed_reference_simple urlparse l index
  = Returned (Some ref_info) ->
  truthy (href l) = true /\ d_index ref_info = index
  /\ d_url ref_info = href l
  /\ exists parsed_url, urlparse (href l) = Returned parsed_url
                        /\ d_domain ref_info = netloc parsed_url.
Proof.
  unfold extract_detailed_reference_simple.
  destruct (truthy (href l)); simpl; [|discriminate].
  destruct (urlparse (href l)) as [parsed_url|]; [|discriminate].
  destruct (match divs l with [] => _ | _ :: _ => _ end) as [t d].
  intros [= <-]. eauto 6.
Qed.

Lemma extract_detailed_none (l : link) (index : Z) :
  extract_detailed_reference_simple urlparse l index = Returned None ->
  truthy (href l) = false.
Proof.
  unfold extract_detailed_reference_simple.
  destruct (truthy (href l)); simpl; [|reflexivity].
  destruct (urlparse (href l)) as [parsed_url|]; [|discriminate].
  destruct (match divs l with [] => _ | _ :: _ => _ end) as [t d].
  discriminate.
Qed.

Lemma extract_domain_fields (l : link) (index : Z) (info : domain_info) :
  extract_domain_info_simple int_max_str_digits l index
  = Returned (Some info) ->
  truthy (href l) = true /\ s_index info = index /\ s_href info = href l.
Proof.
  unfold extract_domain_info_simple.
  destruct (truthy (href l)); simpl; [|discriminate].
  destruct (trailing_digits (text l)) as [[[b d] a]|];
    [destruct (int int_max_str_digits d); [|discriminate]|];
    intros [= <-]; auto.
Qed.

Lemma extract_domain_none (l : link) (index : Z) :
  extract_domain_info_simple int_max_str_digits l index = Returned None ->
  truthy (href l) = false.
Proof.
  unfold extract_domain_info_simple.
  destruct (truthy (href l)); simpl; [|reflexivity].
  destruct (trailing_digits (text l)) as [[[b d] a]|];
    [destruct (int int_max_str_digits d)|]; discriminate.
Qed.

Lemma classify_order (html : str) (boundary : Z) (links : list link) :
  forall detailed summary r,
  numbered_from 1 (List.map d_index detailed) ->
  numbered_from 1 (List.map s_index summary) ->
  classify urlparse int_max_str_digits html boundary links detailed summary
  = Returned r ->
  List.map d_url (detailed_references r)
  = List.map d_url detailed
    ++ List.map href (List.filter (goes_detailed html boundary) links)
  /\ List.map s_href (domain_summary r)
     = List.map s_href summary
       ++ List.map href (List.filter (goes_summary html boundary) links)
  /\ numbered_from 1 (List.map d_index (detailed_references r))
  /\ numbered_from 1 (List.map s_index (domain_summary r)).
Proof.
  induction links as [|l rest IH]; intros detailed summary r Hd Hs Hrun.
  - simpl in Hrun. injection Hrun as <-. simpl. rewrite !app_nil_r. auto.
  - cbn [classify List.filter] in *. unfold goes_detailed, goes_summary.
    destruct (find html (outer_html l) <? boundary).
    + destruct (extract_detailed_reference_simple urlparse l _)
        as [[ref_info|]|e] eqn:E; [| |discriminate].
      * apply extract_detailed_fields in E as (Ht & Hi & Hu & _).
        rewrite Ht. cbn [andb negb List.map].
        destruct (IH (detailed ++ [ref_info]) summary r)
          as (H1 & H2 & H3 & H4).
        { rewrite List.map_app. cbn [List.map]. rewrite Hi.
          rewrite <- (length_map d_index detailed).
          apply numbered_from_snoc, Hd. }
        { exact Hs. }
        { exact Hrun. }
        rewrite H1, H2, List.map_app, <- app_assoc. cbn [List.map app].
        rewrite Hu. auto.
      * apply extract_detailed_none in E. rewrite E. cbn [andb].
        apply IH; assumption.
    + destruct (extract_domain_info_simple int_max_str_digits l _)
        as [[info|]|e] eqn:E; [| |discriminate].
      * apply extract_domain_fields in E as (Ht & Hi & Hu).
        rewrite Ht. cbn [andb negb List.map].
        destruct (IH detailed (summary ++ [info]) r)
          as (H1 & H2 & H3 & H4).
        { exact Hd. }
        { rewrite List.map_app. cbn [List.map]. rewrite Hi.
          rewrite <- (length_map s_index summary).
          apply numbered_from_snoc, Hs. }
        { exact Hrun. }
        rewrite H1, H2, List.map_app, <- app_assoc. cbn [List.map app].
        rewrite Hu. auto.
      * apply extract_domain_none in E. rewrite E. cbn [andb].
        apply IH; assumption.
Qed.

Lemma split_filter_length {A} (p q : A -> bool) (l : list A) :
  (length (List.filter (fun x => p x && q x) l)
   + length (List.filter (fun x => p x && negb (q x)) l)
   = length (List.filter p l))%nat.
Proof.
  induction l as [|x l IH]; [reflexivity|]. simpl.
  destruct (p x), (q x); simpl; lia.
Qed.

End ReferenceOrder.

(** X13. [extract_reference_structured] gives no result exactly when the
    fragment is empty or holds no marker text. Otherwise it looks at the
    anchors in document order and ends with the exception of the first
    anchor that brings one: the ValueError of urlparse for an anchor
    with a non-empty href found before the marker position whose href
    urlparse rejects, that of int for an anchor with a non-empty href
    found at or after it whose text ends in more digits than int
    converts. When no anchor brings one it returns, every anchor with a
    non-empty href is placed in exactly one of the two lists and no
    other entry is made: the detailed references are, in document order,
    the anchors found before the marker position, the summary those
    found at or after it, and the two lengths add up to the number of
    such anchors. The indices of each list run 1, 2, 3, ... without
    gaps, so anchors with an empty href leave no hole. *)
Theorem extract_reference_structured_places_every_anchor
    (urlparse : str -> result str CacheUtils.url_parts)
    (int_max_str_digits : nat) (reference_html : str)
    (sp : Reference.soup) :
  let html := Reference.html_str sp in
  let boundary := Reference.source_position html in
  let run :=
    Reference.extract_reference_structured urlparse int_max_str_digits
      reference_html sp in
  let marked :=
    reference_html <> [] /\ Reference.source_element sp <> None in
  (run = Returned None
   <-> reference_html = [] \/ Reference.source_element sp = None)
  /\ (forall e,
        run = Raised e
        <-> marked
            /\ first_trouble urlparse int_max_str_digits html boundary
                 (Reference.all_links sp) = Some e)
  /\ ((exists r, run = Returned (Some r))
      <-> marked
          /\ first_trouble urlparse int_max_str_digits html boundary
               (Reference.all_links sp) = None)
  /\ forall r,
       run = Returned (Some r) ->
       List.map Reference.d_url (Reference.detailed_references r)
       = List.map Reference.href
           (List.filter (goes_detailed html boundary)
                        (Reference.all_links sp))
       /\ List.map Reference.s_href (Reference.domain_summary r)
          = List.map Reference.href
              (List.filter (goes_summary html boundary)
                           (Reference.all_links sp))
       /\ numbered_from 1
            (List.map Reference.d_index (Reference.detailed_references r))
       /\ numbered_from 1
            (List.map Reference.s_index (Reference.domain_summary r))
       /\ (length (Reference.detailed_references r)
           + length (Reference.domain_summary r)
           = length (List.filter
                       (fun l => truthy (Reference.href l))
                       (Reference.all_links sp)))%nat.
Proof.
  intros html boundary run marked.
  unfold run, marked, Reference.extract_reference_structured.
  fold html boundary.
  pose proof (classify_cases urlparse int_max_str_digits html boundary
                (Reference.all_links sp) [] []) as Hcases.
  split; [|split; [|split]].
  - destruct reference_html as [|c s]; simpl; [tauto|].
    destruct (Reference.source_element sp); [|tauto].
    destruct (Reference.classify _ _ _ _ _ _ _);
      split; try discriminate; intros [H|H]; discriminate.
  - intros e. destruct reference_html as [|c s]; simpl.
    { split; [discriminate | intros [[H _] _]; contradiction]. }
    destruct (Reference.source_element sp) as [m|].
    2:{ split; [discriminate | intros [[_ H] _]; contradiction]. }
    destruct (first_trouble _ _ _ _ _) as [e'|].
    + rewrite Hcases. split.
      * intros [= ->]. repeat split; discriminate.
      * intros [_ [= ->]]. reflexivity.
    + destruct Hcases as (r & ->). split; [discriminate|].
      intros [_ H]. discriminate.
  - destruct reference_html as [|c s]; simpl.
    { split; [intros (r & H); discriminate
             | intros [[H _] _]; contradiction]. }
    destruct (Reference.source_element sp) as [m|].
    2:{ split; [intros (r & H); discriminate
               | intros [[_ H] _]; contradiction]. }
    destruct (first_trouble _ _ _ _ _) as [e'|].
    + rewrite Hcases. split; [intros (r & H); discriminate|].
      intros [_ H]. discriminate.
    + destruct Hcases as (r & ->). split; [|eauto].
      intros _. repeat split; discriminate.
  - intros r Hr. clear Hcases.
    destruct (negb (truthy reference_html)); [discriminate|].
    destruct (Reference.source_element sp); [|discriminate].
    destruct (Reference.classify _ _ _ _ _ _ _) as [r'|] eqn:Hrun;
      [|discriminate].
    injection Hr as <-.
    destruct (classify_order urlparse int_max_str_digits html boundary
                (Reference.all_links sp) [] [] r' eq_refl eq_refl Hrun)
      as (H1 & H2 & H3 & H4).
    cbn [List.map app] in H1, H2.
    split; [exact H1|]. split; [exact H2|]. split; [exact H3|].
    split; [exact H4|].
    rewrite <- (length_map Reference.d_url), H1.
    rewrite <- (length_map Reference.s_href), H2.
    rewrite !length_map. apply split_filter_length.
Qed.

Lemma extract_reference_structured_places_every_anchor_witness :
  let sp :=
    soup_of [ anchor "https://a.com/1" "a" [] "a"; anchor "" "b" [] "b";
              anchor "https://c.net/3" "c" [] "c" ]
            "全部来源" two_domains in
  exists r,
    Reference.extract_reference_structured CacheUtils.urlparse_simple 4300
      (Reference.html_str sp) sp = Returned (Some r)
    /\ List.map Reference.d_url (Reference.detailed_references r)
       = [u "https://a.com/1"; u "https://c.net/3"]
    /\ numbered_from 1
         (List.map Reference.d_index (Reference.detailed_references r)).
Proof.
  intros sp. eexists.
  match goal with
  | |- ?run = ?res /\ _ =>
    assert (Hrun : run = res) by (vm_compute; reflexivity)
  end.
  split; [exact Hrun|]. split; [reflexivity|].
  exact (proj1 (proj2 (proj2
           (proj2 (proj2 (proj2
              (extract_reference_structured_places_every_anchor
                 CacheUtils.urlparse_simple 4300
                 (Reference.html_str sp) sp)))
            _ Hrun)))).
Defined.

(** ** process/extract_reference_structured.py: the count in a summary text *)

Section DomainCount.
Import Reference.

Definition ends_with_digit (s : str) : Prop :=
  exists p c, s = p ++ [c] /\ isdigit c = true.

Definition ends_with_newline (s : str) : Prop := exists p, s = p ++ [NL].

Lemma span_digits_spec (s : str) :
  let '(d, r) := span_digits s in
  s = d ++ r /\ forallb isdigit d = true
  /\ match r with c :: _ => isdigit c = false | [] => True end.
Proof.
  induction s as [|c s IH]; simpl; [auto|].
  destruct (isdigit c) eqn:Hc.
  - destruct (span_digits s) as [d r]. destruct IH as (-> & Hd & Hr).
    simpl. rewrite Hc. auto.
  - simpl. auto.
Qed.

Lemma digit_value_nonneg (c : N) : 0 <= digit_value c.
Proof. unfold digit_value. destruct (digit_zero c); lia. Qed.

Lemma int_of_digits_nonneg (digits : str) : 0 <= int_of_digits digits.
Proof.
  unfold int_of_digits.
  assert (H : forall acc, 0 <= acc ->
            0 <= fold_left (fun acc c => 10 * acc + digit_value c)
                           digits acc).
  { induction digits as [|c ds IH]; intros acc Hacc; simpl; [exact Hacc|].
    apply IH. pose proof (digit_value_nonneg c). lia. }
  apply H. lia.
Qed.

Lemma trailing_digits_spec (s : str) :
  ~ ends_with_newline s ->
  match trailing_digits s with
  | Some (before, digits, after) =>
    s = before ++ digits /\ after = [] /\ digits <> []
    /\ forallb isdigit digits = true /\ ~ ends_with_digit before
  | None => ~ ends_with_digit s
  end.
Proof.
  intros Hnl. unfold trailing_digits.
  assert (Hs : s = rev (rev s)) by (rewrite rev_involutive; reflexivity).
  destruct (rev s) as [|c r'] eqn:Er.
  - simpl. intros (p & c & E & _). rewrite Hs in E. simpl in E.
    destruct p; discriminate.
  - destruct (N.eqb_spec c NL) as [->|Hc].
    { exfalso. apply Hnl. exists (rev r'). rewrite Hs. reflexivity. }
    pose proof (span_digits_spec (c :: r')) as Hspan.
    destruct (span_digits (c :: r')) as [d before].
    destruct Hspan as (E & Hd & Hb).
    assert (Hnodigit : ~ ends_with_digit (rev before)).
    { intros (p & x & Ep & Hx).
      assert (Eb : before = x :: rev p).
      { rewrite <- (rev_involutive before), Ep, rev_app_distr.
        reflexivity. }
      rewrite Eb in Hb. congruence. }
    destruct d as [|x d]; simpl.
    + simpl in E. subst before. rewrite Hs. exact Hnodigit.
    + split.
      * rewrite Hs, E, rev_app_distr. reflexivity.
      * split; [reflexivity|]. split.
        -- intros H. apply (f_equal (@length N)) in H.
           rewrite length_app in H. simpl in H. lia.
        -- split; [|exact Hnodigit].
           change (rev d ++ [x]) with (rev (x :: d)).
           rewrite forallb_forall in *. intros y Hy. apply Hd.
           apply in_rev. exact Hy.
Qed.

End DomainCount.

(** X14. For an anchor with a non-empty href whose text does not end in
    a newline, [extract_domain_info_simple] splits the text into a
    domain and the decimal digits (of any script) that close it: the
    text is the domain followed by a run of digits, and the domain does
    not itself end in a digit. When the interpreter has no limit on the
    digits int converts, or the run is within it, the entry is returned
    with that domain, the index and the href it was given, and as count
    the number the digits spell, or 1 when there are none; the count is
    never negative. When the run is longer than the limit in force, the
    ValueError of int leaves the function. *)
Theorem extract_domain_info_simple_splits_count (int_max_str_digits : nat)
    (l : Reference.link) (index : Z) :
  Reference.href l <> [] ->
  ~ ends_with_newline (Reference.text l) ->
  exists domain digits,
    Reference.text l = domain ++ digits
    /\ forallb Reference.isdigit digits = true
    /\ ~ ends_with_digit domain
    /\ (int_max_str_digits = 0%nat
        \/ (length digits <= int_max_str_digits)%nat ->
        exists info,
          Reference.extract_domain_info_simple int_max_str_digits l index
          = Returned (Some info)
          /\ Reference.s_index info = index
          /\ Reference.s_href info = Reference.href l
          /\ Reference.s_domain info = domain
          /\ Reference.s_count info
             = (if truthy digits then Reference.int_of_digits digits else 1)
          /\ 0 <= Reference.s_count info)
    /\ ((0 < int_max_str_digits < length digits)%nat ->
        Reference.extract_domain_info_simple int_max_str_digits l index
        = Raised Reference.TooManyDigits).
Proof.
  intros Hh Hnl. unfold Reference.extract_domain_info_simple.
  destruct (Reference.href l) as [|c h] eqn:Eh; [contradiction|].
  cbn [truthy negb].
  pose proof (trailing_digits_spec (Reference.text l) Hnl) as Ht.
  destruct (Reference.trailing_digits (Reference.text l))
    as [[[before digits] after]|].
  - destruct Ht as (E & -> & Hne & Hd & Hb).
    exists before, digits.
    split; [exact E|]. split; [exact Hd|]. split; [exact Hb|]. split.
    + intros Hlim. rewrite (int_returns _ _ Hlim).
      eexists. split; [reflexivity|].
      cbn [Reference.s_index Reference.s_href Reference.s_domain
           Reference.s_count].
      rewrite app_nil_r.
      repeat match goal with |- _ /\ _ => split end; try reflexivity.
      * destruct digits; [contradiction | reflexivity].
      * apply int_of_digits_nonneg.
    + intros Hlim. rewrite (int_raises _ _ Hlim). reflexivity.
  - exists (Reference.text l), [].
    split; [rewrite app_nil_r; reflexivity|]. split; [reflexivity|].
    split; [exact Ht|]. split.
    + intros _. eexists. split; [reflexivity|].
      cbn [Reference.s_index Reference.s_href Reference.s_domain
           Reference.s_count truthy].
      repeat match goal with |- _ /\ _ => split end; try reflexivity.
      lia.
    + cbn [length]. lia.
Qed.

Lemma extract_domain_info_simple_splits_count_witness :
  exists info,
    Reference.extract_domain_info_simple 4300
      (anchor "https://www.sohu.com" "sohu2" [] "sohu2") 4
    = Returned (Some info)
    /\ Reference.s_domain info = u "sohu"
    /\ Reference.s_count info = 2.
Proof.
  destruct (extract_domain_info_simple_splits_count 4300
              (anchor "https://www.sohu.com" "sohu2" [] "sohu2") 4)
    as (domain & digits & Htext & _ & _ & Hret & _).
  - discriminate.
  - intros (p & Hp). apply (f_equal (@rev N)) in Hp.
    rewrite rev_app_distr in Hp. vm_compute in Hp. discriminate.
  - destruct Hret as (info & Hrun & _).
    + right. apply (f_equal (@length N)) in Htext.
      rewrite length_app in Htext.
      change (length (Reference.text
                        (anchor "https://www.sohu.com" "sohu2" [] "sohu2")))
        with 5%nat in Htext.
      apply (Nat.le_trans _ 5); [lia|].
      apply Nat.leb_le. vm_compute. reflexivity.
    + exists info. split; [exact Hrun|].
      vm_compute in Hrun. injection Hrun as <-. split; reflexivity.
Defined.

(** A text that ends in 4301 digits, under the limit of 4300 digits. *)
Example count_beyond_the_digit_limit :
  Reference.extract_domain_info_simple 4300
    {| Reference.outer_html := [];
       Reference.href := u "https://www.sohu.com";
       Reference.divs := [];
       Reference.text := u "sohu" ++ repeat 49%N 4301 |} 1
  = Raised Reference.TooManyDigits.
Proof. vm_compute. reflexivity. Qed.

(** ** metrics_calculator.py: the numbers of a file record *)

Section MetricsNumbers.
Import Metrics.

Lemma guarded_ratio_nonneg (a n : Z) :
  0 <= a -> (0 <= (if n >? 0 then ratio a n else 0))%Q.
Proof.
  intros Ha. destruct (n >? 0); [|apply Qle_refl].
  unfold ratio, Qle. simpl. lia.
Qed.

Lemma guarded_ratio_unit (a n : Z) :
  0 <= a <= n -> ((if n >? 0 then ratio a n else 0) <= 1)%Q.
Proof.
  intros Ha. destruct (Z.gtb_spec n 0) as [Hn|Hn]; [|discriminate].
  unfold ratio, Qle. simpl. rewrite Z2Pos.id by lia. lia.
Qed.

Lemma count_true_bounds (col : list bool) :
  0 <= count_true col <= Z.of_nat (length col).
Proof.
  unfold count_true. pose proof (List.filter_length_le (fun b => b) col).
  lia.
Qed.

Lemma count_eq_bounds (v : str) (col : list str) :
  0 <= count_eq v col <= Z.of_nat (length col).
Proof.
  unfold count_eq.
  pose proof (List.filter_length_le (fun c => bool_decide (c = v)) col).
  lia.
Qed.

(** [final.csv] is absent, unreadable, or a table whose [match] column
    is boolean or missing. *)
Definition boolean_match (f : file final_frame) : Prop :=
  match f with
  | Table (OtherMatch _ _ _) => False
  | _ => True
  end.

(** [final.csv] is a table with rows whose [match] column is summed to
    something that cannot be divided by a number. *)
Definition undivided (f : file final_frame) : Prop :=
  exists n total,
    (0 < n)%nat /\ f = Table (OtherMatch n (Some total) None).

Lemma read_final_facts (f : file final_frame) :
  let '(t, q, b, m) := read_final f in
  (b = false -> In (u "final.csv") m)
  /\ (boolean_match f ->
      (In (u "final.csv") m -> b = false)
      /\ exists aligned rate,
           t = Exactly aligned /\ q = Exactly rate
           /\ 0 <= aligned /\ (0 <= rate)%Q /\ (rate <= 1)%Q)
  /\ (b = true /\ In (u "final.csv") m <-> undivided f)
  /\ (forall name, In name m -> name = u "final.csv").
Proof.
  assert (Hzero : exists aligned rate,
            @Exactly Z 0 = Exactly aligned /\ @Exactly Q 0%Q = Exactly rate
            /\ 0 <= aligned /\ (0 <= rate)%Q /\ (rate <= 1)%Q).
  { exists 0, 0%Q. repeat split; try lia; discriminate. }
  unfold undivided.
  destruct f as [| |[col|k|k [total|] quotient]]; cbn [read_final].
  - split; [intros _; left; reflexivity|].
    split; [intros _; split; [reflexivity | exact Hzero]|].
    split; [|intros name [<-|[]]; reflexivity].
    split; [intros [H _]; discriminate
           |intros (n & t & _ & H); discriminate].
  - split; [intros _; left; reflexivity|].
    split; [intros _; split; [reflexivity | exact Hzero]|].
    split; [|intros name [<-|[]]; reflexivity].
    split; [intros [H _]; discriminate
           |intros (n & t & _ & H); discriminate].
  - split; [discriminate|].
    split.
    { intros _. split; [intros []|].
      eexists _, _. split; [reflexivity|]. split; [reflexivity|].
      split; [apply count_true_bounds|].
      split; [apply guarded_ratio_nonneg, count_true_bounds
             |apply guarded_ratio_unit, count_true_bounds]. }
    split; [|intros name []].
    split; [intros [_ []] | intros (n & t & _ & H); discriminate].
  - split; [discriminate|].
    split; [intros _; split; [intros [] | exact Hzero]|].
    split; [|intros name []].
    split; [intros [_ []] | intros (n & t & _ & H); discriminate].
  - destruct (Z.gtb_spec (Z.of_nat k) 0) as [Hk|Hk];
      [destruct quotient as [rate|]|].
    + split; [discriminate|]. split; [intros []|].
      split; [|intros name []].
      split; [intros [_ []] | intros (n & t & _ & H); discriminate].
    + split; [intros _; left; reflexivity|]. split; [intros []|].
      split; [|intros name [<-|[]]; reflexivity].
      split; [|intros _; split; [reflexivity | left; reflexivity]].
      intros _. exists k, total. split; [lia | reflexivity].
    + split; [discriminate|]. split; [intros []|].
      split; [|intros name []].
      split; [intros [_ []]|].
      intros (n & t & Hn & H). injection H as -> _ _. lia.
  - split; [intros _; left; reflexivity|]. split; [intros []|].
    split; [|intros name [<-|[]]; reflexivity].
    split; [intros [H _]; discriminate
           |intros (n & t & _ & H); discriminate].
Qed.

End MetricsNumbers.

(** X15. In every record [calculate_file_metrics] returns,
    [has_citations] is set, the total is the sum of the two statement
    counts, no count of rows is negative, [no_citations_accuracy] lies
    between 0 and 1, [match_rate] is not negative and is 0 when there
    are no citations (no division by zero), and the flag of
    [no_citations.csv], of [matched.csv] and of
    [no_citations_web_final.csv] is cleared exactly when the file is
    listed in [missing_files]. For [final.csv] a cleared flag always
    comes with the file listed; when the file is absent, unreadable, or
    a table whose [match] column is boolean or missing, the flag is
    cleared exactly when the file is listed, [aligned_statements] is not
    negative and [alignment_rate] lies between 0 and 1. The flag is set
    and the file listed all the same exactly when the table has rows and
    a [match] column that can be summed but whose sum cannot be divided
    by the number of rows: the flag is set before the division. *)
Theorem calculate_file_metrics_numbers (dir : Metrics.results_dir)
    (id : str) (r : Metrics.metrics) :
  Metrics.calculate_file_metrics dir id = Some r ->
  Metrics.has_citations r = true
  /\ Metrics.arxiv_id r = id
  /\ Metrics.total_statements r
     = Metrics.total_citations r + Metrics.total_no_citations r
  /\ 0 <= Metrics.total_citations r /\ 0 <= Metrics.total_no_citations r
  /\ 0 <= Metrics.matched_statements r
  /\ 0 <= Metrics.no_citations_correct r
  /\ 0 <= Metrics.no_citations_incorrect r
  /\ 0 <= Metrics.no_citations_tie r
  /\ (0 <= Metrics.match_rate r)%Q
  /\ (Metrics.total_citations r = 0 -> Metrics.match_rate r = 0%Q)
  /\ (0 <= Metrics.no_citations_accuracy r)%Q
  /\ (Metrics.no_citations_accuracy r <= 1)%Q
  /\ (Metrics.has_no_citations r = false
      <-> In (u "no_citations.csv") (Metrics.missing_files r))
  /\ (Metrics.has_matched r = false
      <-> In (u "matched.csv") (Metrics.missing_files r))
  /\ (Metrics.has_no_citations_verification r = false
      <-> In (u "no_citations_web_final.csv") (Metrics.missing_files r))
  /\ (Metrics.has_final r = false ->
      In (u "final.csv") (Metrics.missing_files r))
  /\ (boolean_match (Metrics.final_csv dir) ->
      (Metrics.has_final r = false
       <-> In (u "final.csv") (Metrics.missing_files r))
      /\ exists aligned rate,
           Metrics.aligned_statements r = Metrics.Exactly aligned
           /\ Metrics.alignment_rate r = Metrics.Exactly rate
           /\ 0 <= aligned /\ (0 <= rate)%Q /\ (rate <= 1)%Q)
  /\ (Metrics.has_final r = true
      /\ In (u "final.csv") (Metrics.missing_files r)
      <-> undivided (Metrics.final_csv dir)).
Proof.
  unfold Metrics.calculate_file_metrics.
  destruct (Metrics.citations_csv dir) as [| |n]; try discriminate.
  set (f2 := Metrics.no_citations_csv dir).
  set (f3 := Metrics.matched_csv dir).
  set (f4 := Metrics.final_csv dir).
  set (f5 := Metrics.no_citations_web_final_csv dir).
  assert (H2 : let '(t, b, m) := Metrics.read_no_citations f2 in
               0 <= t /\ (b = false <-> In (u "no_citations.csv") m)
               /\ ~ In (u "matched.csv") m /\ ~ In (u "final.csv") m
               /\ ~ In (u "no_citations_web_final.csv") m).
  { destruct f2; simpl; repeat split; try lia; try discriminate;
      try tauto; try (intros _; left; reflexivity);
      try (intros [E|[]]; vm_compute in E; discriminate). }
  assert (H3 : let '(t, q, b, m) :=
                 Metrics.read_matched f3 (Z.of_nat n) in
               0 <= t /\ (0 <= q)%Q /\ (Z.of_nat n = 0 -> q = 0%Q)
               /\ (b = false <-> In (u "matched.csv") m)
               /\ ~ In (u "no_citations.csv") m /\ ~ In (u "final.csv") m
               /\ ~ In (u "no_citations_web_final.csv") m).
  { destruct f3; cbn [Metrics.read_matched];
      repeat match goal with |- _ /\ _ => split end;
      try lia; try apply Qle_refl; try reflexivity;
      try (apply guarded_ratio_nonneg; lia);
      try (intros ->; reflexivity);
      try solve [intros _; left; reflexivity];
      try discriminate;
      try solve [split; [intros _; left; reflexivity | reflexivity]];
      try solve [split; [discriminate | intros []]];
      try solve [intros []];
      try solve [intros [E|[]]; vm_compute in E; discriminate]. }
  pose proof (read_final_facts f4) as H4.
  assert (H5 : let '(c, i, t, q, b, m) := Metrics.read_web_final f5 in
               0 <= c /\ 0 <= i /\ 0 <= t /\ (0 <= q)%Q /\ (q <= 1)%Q
               /\ (b = false <-> In (u "no_citations_web_final.csv") m)
               /\ ~ In (u "no_citations.csv") m /\ ~ In (u "matched.csv") m
               /\ ~ In (u "final.csv") m).
  { destruct f5 as [| |[col|k]]; cbn [Metrics.read_web_final];
      repeat match goal with |- _ /\ _ => split end;
      try apply count_eq_bounds;
      try lia; try apply Qle_refl; try discriminate;
      try (apply guarded_ratio_nonneg; apply count_eq_bounds);
      try (apply guarded_ratio_unit; apply count_eq_bounds);
      try (intros _; left; reflexivity); try reflexivity;
      try solve [split; [intros _; left; reflexivity | reflexivity]];
      try solve [split; [discriminate | intros []]];
      try solve [intros []];
      try solve [intros [E|[]]; vm_compute in E; discriminate]. }
  destruct (Metrics.read_no_citations f2) as [[t2 b2] m2].
  destruct (Metrics.read_matched f3 (Z.of_nat n)) as [[[t3 q3] b3] m3].
  destruct (Metrics.read_final f4) as [[[t4 q4] b4] m4].
  destruct (Metrics.read_web_final f5) as [[[[[c5 i5] t5] q5] b5] m5].
  destruct H2 as (A1 & A2 & A3 & A4 & A5).
  destruct H3 as (B1 & B2 & B3 & B4 & B5 & B6 & B7).
  destruct H4 as (C1 & C2 & C3 & C4).
  assert (C5 : ~ In (u "no_citations.csv") m4)
    by (intros H; apply C4 in H; vm_compute in H; discriminate).
  assert (C6 : ~ In (u "matched.csv") m4)
    by (intros H; apply C4 in H; vm_compute in H; discriminate).
  assert (C7 : ~ In (u "no_citations_web_final.csv") m4)
    by (intros H; apply C4 in H; vm_compute in H; discriminate).
  clear C4.
  destruct H5 as (D1 & D2 & D3 & D4 & D5 & D6 & D7 & D8 & D9).
  intros [= <-].
  cbn [Metrics.has_citations Metrics.arxiv_id Metrics.total_statements
       Metrics.total_citations Metrics.total_no_citations
       Metrics.matched_statements Metrics.aligned_statements
       Metrics.no_citations_correct Metrics.no_citations_incorrect
       Metrics.no_citations_tie Metrics.match_rate Metrics.alignment_rate
       Metrics.no_citations_accuracy Metrics.has_no_citations
       Metrics.has_matched Metrics.has_final
       Metrics.has_no_citations_verification Metrics.missing_files].
  assert (Hfin : In (u "final.csv") (m2 ++ m3 ++ m4 ++ m5)
                 <-> In (u "final.csv") m4).
  { rewrite !List.in_app_iff. clear -A4 B6 D9. tauto. }
  repeat match goal with |- _ /\ _ => split end;
    try reflexivity; try assumption; try lia.
  - rewrite !List.in_app_iff. clear -A2 B5 C5 D7. tauto.
  - rewrite !List.in_app_iff. clear -B4 A3 C6 D8. tauto.
  - rewrite !List.in_app_iff. clear -D6 A5 B7 C7. tauto.
  - rewrite Hfin. exact C1.
  - intros Hb. destruct (C2 Hb) as [Hlisted Hnum].
    split; [|exact Hnum]. rewrite Hfin. split; [exact C1 | exact Hlisted].
  - rewrite Hfin. exact C3.
Qed.

Lemma calculate_file_metrics_numbers_witness :
  exists r,
    Metrics.calculate_file_metrics
      {| Metrics.citations_csv := Metrics.Table 12%nat;
         Metrics.no_citations_csv := Metrics.Absent;
         Metrics.matched_csv := Metrics.Table 9%nat;
         Metrics.final_csv :=
           Metrics.Table (Metrics.WithMatch [true; false; true]);
         Metrics.no_citations_web_final_csv := Metrics.Unreadable |}
      (u "2401.00001") = Some r
    /\ (exists aligned rate,
          Metrics.aligned_statements r = Metrics.Exactly aligned
          /\ Metrics.alignment_rate r = Metrics.Exactly rate
          /\ 0 <= aligned /\ (0 <= rate)%Q /\ (rate <= 1)%Q)
    /\ In (u "no_citations.csv") (Metrics.missing_files r).
Proof.
  eexists.
  match goal with
  | |- ?run = ?res /\ _ =>
    assert (Hrun : run = res) by (vm_compute; reflexivity)
  end.
  split; [exact Hrun|].
  pose proof (calculate_file_metrics_numbers _ _ _ Hrun) as H.
  split; [apply H; exact I | apply H; reflexivity].
Defined.

(** A [final.csv] whose [match] column holds words: their sum is a
    string, the division raises, and the record comes back with
    [has_final] set and the file listed as missing. *)
Example final_with_a_text_column_is_listed_and_flagged :
  option_map (fun r => (Metrics.has_final r, Metrics.aligned_statements r,
                        Metrics.alignment_rate r, Metrics.missing_files r))
    (Metrics.calculate_file_metrics
       {| Metrics.citations_csv := Metrics.Table 12%nat;
          Metrics.no_citations_csv := Metrics.Table 3%nat;
          Metrics.matched_csv := Metrics.Table 9%nat;
          Metrics.final_csv :=
            Metrics.Table
              (Metrics.OtherMatch 2 (Some Metrics.Other) None);
          Metrics.no_citations_web_final_csv :=
            Metrics.Table (Metrics.WithDecision [u "正确"]) |}
       (u "2401.00001"))
  = Some (true, Metrics.Other, Metrics.Exactly 0%Q, [u "final.csv"]).
Proof. vm_compute. reflexivity. Qed.

From Stdlib Require Import DecimalPos.

(** ** statement/extract_no_citations.py: the ids of the statements *)

(** The loop over the text blocks of [extract_no_citations_from_text]. *)
Module ExtractNoCitations.

(** [f"{n:03d}"] on the text of a non-negative integer: zeros in front
    up to three characters. *)
Definition zero_pad_3 (digits : str) : str :=
  repeat 48%N (3 - length digits) ++ digits.

(** [f"NC_{statement_counter:03d}"] *)
Definition nc_id (statement_counter : Z) : str :=
  u "NC_" ++ zero_pad_3 (str_of_Z statement_counter).

(** One pass through the [try] body for a block: an exception that
    prints as [msg] before the answer is parsed, or the parsed array; an
    element is the value under ["statement"], [None] when
    [item["statement"].strip()] raises. *)
Inductive attempt : Type :=
| Raises (error_msg : str)
| Data (items : list (option str)).

Definition state : Type := list WebTasks.nc_row * Z.

(** [for item in data] *)
Fixpoint items_loop (data : list (option str)) (st : state) : state :=
  match data with
  | [] => st
  | None :: _ => st
  | Some raw :: rest =>
    let '(all_rows, statement_counter) := st in
    let statement := strip raw in
    items_loop rest
      (all_rows ++ [{| WebTasks.nc_ID := nc_id statement_counter;
                       WebTasks.nc_statement := statement |}],
       statement_counter + 1)
  end.

(** [while retry]; [None] when every supplied attempt asked for another. *)
Fixpoint block_loop (attempts : list attempt) (st : state) : option state :=
  match attempts with
  | [] => None
  | Raises error_msg :: rest =>
    if contains (u "reach token limit") error_msg then block_loop rest st
    else Some st
  | Data items :: _ => Some (items_loop items st)
  end.

Fixpoint blocks_loop (blocks : list (list attempt)) (st : state)
    : option state :=
  match blocks with
  | [] => Some st
  | attempts :: rest =>
    match block_loop attempts st with
    | None => None
    | Some st => blocks_loop rest st
    end
  end.

(** The rows of the returned frame. *)
Definition extract_no_citations_rows (blocks : list (list attempt))
    : option (list WebTasks.nc_row) :=
  option_map fst (blocks_loop blocks ([], 1)).

End ExtractNoCitations.

Section DecimalText.

Definition digit_step (acc : Z) (c : N) : Z := 10 * acc + (Z.of_N c - 48).

(** The number a run of ASCII digits spells. *)
Definition decimal_value (digits : str) : Z := fold_left digit_step digits 0.

Lemma fold_uint_acc (d : Decimal.uint) :
  forall acc : positive,
  fold_left digit_step (bytes_of (NilEmpty.string_of_uint d)) (Z.pos acc)
  = Z.pos (Pos.of_uint_acc d acc).
Proof.
  induction d; intros acc; cbn [NilEmpty.string_of_uint bytes_of
    list_ascii_of_string List.map fold_left Pos.of_uint_acc];
    try reflexivity;
    rewrite <- IHd; f_equal; unfold digit_step; cbn; lia.
Qed.

Lemma fold_uint (d : Decimal.uint) :
  fold_left digit_step (bytes_of (NilEmpty.string_of_uint d)) 0
  = Z.of_N (Pos.of_uint d).
Proof.
  induction d; cbn [NilEmpty.string_of_uint bytes_of
    list_ascii_of_string List.map fold_left Pos.of_uint];
    try reflexivity;
    match goal with
    | |- context [digit_step 0 ?c] =>
      let v := eval vm_compute in (digit_step 0 c) in
      change (digit_step 0 c) with v
    end;
    [exact IHd | apply fold_uint_acc ..].
Qed.

(** [str(n)] spells [n], for the integers a counter takes. *)
Lemma decimal_value_str_of_Z (n : Z) :
  0 <= n -> decimal_value (str_of_Z n) = n.
Proof.
  intros Hn. unfold decimal_value, str_of_Z.
  destruct n as [|p|p]; [reflexivity| |lia].
  cbn [Z.to_int NilZero.string_of_int].
  assert (Hd : Pos.to_uint p <> Decimal.Nil).
  { intros E. apply (f_equal Pos.of_uint) in E.
    rewrite DecimalPos.Unsigned.of_to in E. discriminate. }
  unfold NilZero.string_of_uint.
  destruct (Pos.to_uint p) eqn:E; [contradiction| | | | | | | | | |];
    rewrite <- E at 1; rewrite fold_uint, E, <- E,
      DecimalPos.Unsigned.of_to; reflexivity.
Qed.

Lemma fold_zeros (k : nat) (digits : str) :
  fold_left digit_step (repeat 48%N k ++ digits) 0
  = fold_left digit_step digits 0.
Proof. induction k as [|k IH]; [reflexivity | exact IH]. Qed.

Lemma nc_id_injective (n m : Z) :
  0 <= n -> 0 <= m ->
  ExtractNoCitations.nc_id n = ExtractNoCitations.nc_id m -> n = m.
Proof.
  intros Hn Hm E. unfold ExtractNoCitations.nc_id in E.
  apply app_inv_head in E.
  apply (f_equal (fun s => fold_left digit_step s 0)) in E.
  unfold ExtractNoCitations.zero_pad_3 in E. rewrite !fold_zeros in E.
  fold (decimal_value (str_of_Z n)) in E.
  fold (decimal_value (str_of_Z m)) in E.
  rewrite !decimal_value_str_of_Z in E by assumption.
  exact E.
Qed.

End DecimalText.

Section SequentialIds.
Import ExtractNoCitations.

(** The ids [NC_c], [NC_(c+1)], ... *)
Definition ids_from (c : Z) (k : nat) : list str :=
  List.map (fun i => nc_id (c + Z.of_nat i)) (seq 0 k).

Lemma map_seq_shift (c : Z) (k j : nat) :
  forall s,
  List.map (fun i => nc_id (c + Z.of_nat i)) (seq (s + k) j)
  = List.map (fun i => nc_id (c + Z.of_nat k + Z.of_nat i)) (seq s j).
Proof.
  induction j as [|j IH]; intros s; [reflexivity|].
  cbn [seq List.map]. f_equal; [f_equal; lia | apply (IH (S s))].
Qed.

Lemma ids_from_app (c : Z) (k j : nat) :
  ids_from c (k + j) = ids_from c k ++ ids_from (c + Z.of_nat k) j.
Proof.
  unfold ids_from. rewrite List.seq_app, List.map_app. f_equal.
  apply (map_seq_shift c k j 0).
Qed.

Definition extends (st st' : state) : Prop :=
  exists added,
    fst st' = fst st ++ added
    /\ snd st' = snd st + Z.of_nat (length added)
    /\ List.map WebTasks.nc_ID added = ids_from (snd st) (length added).

Lemma extends_refl (st : state) : extends st st.
Proof.
  exists []. rewrite app_nil_r. simpl. split; [reflexivity|].
  split; [lia | reflexivity].
Qed.

Lemma extends_trans (a b c : state) :
  extends a b -> extends b c -> extends a c.
Proof.
  intros (x & Hx1 & Hx2 & Hx3) (y & Hy1 & Hy2 & Hy3). exists (x ++ y).
  rewrite Hy1, Hx1, Hy2, Hx2, <- app_assoc, length_app, List.map_app,
    ids_from_app, Hx3, Hy3, Hx2.
  split; [reflexivity|]. split; [lia | reflexivity].
Qed.

Lemma items_loop_extends (data : list (option str)) :
  forall st, extends st (items_loop data st).
Proof.
  induction data as [|[raw|] rest IH]; intros [all_rows c];
    cbn [items_loop]; try apply extends_refl.
  eapply extends_trans; [|apply IH].
  eexists [_]. cbn. split; [reflexivity|]. split; [reflexivity|].
  unfold ids_from. cbn. rewrite Z.add_0_r. reflexivity.
Qed.

Lemma block_loop_extends (attempts : list attempt) :
  forall st st', block_loop attempts st = Some st' -> extends st st'.
Proof.
  induction attempts as [|[error_msg|items] rest IH]; intros st st' Hrun;
    simpl in Hrun; [discriminate| |].
  - destruct (contains _ error_msg); [apply IH, Hrun|].
    injection Hrun as <-. apply extends_refl.
  - injection Hrun as <-. apply items_loop_extends.
Qed.

Lemma blocks_loop_extends (blocks : list (list attempt)) :
  forall st st', blocks_loop blocks st = Some st' -> extends st st'.
Proof.
  induction blocks as [|attempts rest IH]; intros st st' Hrun;
    simpl in Hrun.
  - injection Hrun as <-. apply extends_refl.
  - destruct (block_loop attempts st) as [st1|] eqn:Hb; [|discriminate].
    eapply extends_trans; [eapply block_loop_extends, Hb | apply IH, Hrun].
Qed.

Lemma ids_from_NoDup (c : Z) (k : nat) :
  0 <= c -> List.NoDup (ids_from c k).
Proof.
  intros Hc. unfold ids_from.
  assert (H : forall l : list nat, List.NoDup l ->
            List.NoDup (List.map (fun i => nc_id (c + Z.of_nat i)) l)).
  { induction 1 as [|i l Hi _ IH]; simpl; constructor; [|exact IH].
    intros Hin. apply List.in_map_iff in Hin as (j & E & Hj).
    apply nc_id_injective in E; [|lia|lia].
    assert (j = i) by lia. subst j. contradiction. }
  apply H, List.seq_NoDup.
Qed.

End SequentialIds.

(** X16. The statements [extract_no_citations_from_text] collects are
    numbered in the order in which they are written, without gaps and
    starting at 1, whatever the blocks answered, however often a block
    was retried and wherever an answer broke off: the k-th row has the
    id "NC_" followed by k in decimal, padded with zeros to three
    digits. No two rows share an id. *)
Theorem no_citation_ids_are_sequential
    (blocks : list (list ExtractNoCitations.attempt))
    (all_rows : list WebTasks.nc_row) :
  ExtractNoCitations.extract_no_citations_rows blocks = Some all_rows ->
  List.map WebTasks.nc_ID all_rows
  = List.map (fun k => ExtractNoCitations.nc_id (Z.of_nat k))
             (seq 1 (length all_rows))
  /\ List.NoDup (List.map WebTasks.nc_ID all_rows).
Proof.
  unfold ExtractNoCitations.extract_no_citations_rows. intros Hrun.
  destruct (ExtractNoCitations.blocks_loop blocks ([], 1))
    as [[rows c]|] eqn:Hb; [|discriminate].
  injection Hrun as ->.
  destruct (blocks_loop_extends _ _ _ Hb) as (added & H1 & _ & H3).
  simpl in H1, H3. subst added.
  assert (E : List.map WebTasks.nc_ID all_rows
              = ids_from 1 (length all_rows)) by exact H3.
  split.
  - rewrite E. unfold ids_from. rewrite <- List.seq_shift, List.map_map.
    apply List.map_ext. intros i. f_equal. lia.
  - rewrite E. apply ids_from_NoDup. lia.
Qed.

Lemma no_citation_ids_are_sequential_witness :
  exists all_rows,
    ExtractNoCitations.extract_no_citations_rows
      [[ExtractNoCitations.Raises (u "reach token limit");
        ExtractNoCitations.Data [Some (u " a "); Some (u "b")]];
       [ExtractNoCitations.Raises (u "bad json")];
       [ExtractNoCitations.Data [Some (u "c"); None; Some (u "d")]]]
    = Some all_rows
    /\ List.map WebTasks.nc_ID all_rows
       = [u "NC_001"; u "NC_002"; u "NC_003"].
Proof.
  eexists.
  match goal with
  | |- ?run = ?res /\ _ =>
    assert (Hrun : run = res) by (vm_compute; reflexivity)
  end.
  split; [exact Hrun|].
  rewrite (proj1 (no_citation_ids_are_sequential _ _ Hrun)).
  vm_compute. reflexivity.
Defined.
(** ** related_work_evaluator.py: deduplicating URLs *)

Module RelatedWork.

Section Dedup.
Variable urlparse : str -> result str CacheUtils.url_parts.

(** The loop of [_deduplicate_urls]; [seen_normalized] is a set. The
    [ValueError] of [urlparse] on a URL it rejects leaves the loop. *)
Fixpoint dedup_loop (urls : list str) (unique_urls : list str)
    (seen_normalized : gset str) (duplicates : Z)
    : result str (list str * Z) :=
  match urls with
  | [] => Returned (unique_urls, duplicates)
  | url :: rest =>
    match CacheUtils.normalize_url urlparse url with
    | Raised message => Raised message
    | Returned normalized =>
      if bool_decide (normalized ∉ seen_normalized)
      then dedup_loop rest (unique_urls ++ [url])
                      (seen_normalized ∪ {[ normalized ]}) duplicates
      else dedup_loop rest unique_urls seen_normalized (duplicates + 1)
    end
  end.

Definition _deduplicate_urls (urls : list str) : result str (list str) :=
  match dedup_loop urls [] ∅ 0 with
  | Returned (unique_urls, _) => Returned unique_urls
  | Raised message => Raised message
  end.

End Dedup.
End RelatedWork.

Section DedupFacts.
Import RelatedWork.
Variable urlparse : str -> result str CacheUtils.url_parts.

(** The normalized form of a URL that urlparse accepts. *)
Definition norm (url : str) : str :=
  match CacheUtils.normalize_url urlparse url with
  | Returned normalized => normalized
  | Raised _ => []
  end.

Definition accepts (url : str) : Prop :=
  exists normalized, CacheUtils.normalize_url urlparse url
                     = Returned normalized.

(** The message of the first URL of the list that urlparse rejects. *)
Fixpoint first_rejected (urls : list str) : option str :=
  match urls with
  | [] => None
  | url :: rest =>
    match CacheUtils.normalize_url urlparse url with
    | Raised message => Some message
    | Returned _ => first_rejected rest
    end
  end.

(** The URLs the loop keeps, as a function of what has been seen. *)
Fixpoint kept (urls : list str) (seen : gset str) : list str :=
  match urls with
  | [] => []
  | url :: rest =>
    if bool_decide (norm url ∉ seen)
    then url :: kept rest (seen ∪ {[ norm url ]})
    else kept rest seen
  end.

Lemma dedup_loop_cases (urls : list str) :
  forall unique_urls seen duplicates,
  dedup_loop urlparse urls unique_urls seen duplicates
  = match first_rejected urls with
    | Some message => Raised message
    | None =>
      Returned
        (unique_urls ++ kept urls seen,
         duplicates + Z.of_nat (length urls)
         - Z.of_nat (length (kept urls seen)))
    end.
Proof.
  induction urls as [|url rest IH]; intros unique_urls seen duplicates.
  - simpl. rewrite app_nil_r. do 2 f_equal. lia.
  - cbn [dedup_loop kept first_rejected].
    destruct (CacheUtils.normalize_url urlparse url)
      as [normalized|message] eqn:En; [|reflexivity].
    assert (Hn : norm url = normalized)
      by (unfold norm; rewrite En; reflexivity).
    rewrite Hn.
    destruct (bool_decide (normalized ∉ seen)); rewrite IH;
      destruct (first_rejected rest); try reflexivity.
    + rewrite <- app_assoc. cbn [app length]. do 2 f_equal. lia.
    + cbn [length]. do 2 f_equal. lia.
Qed.

Lemma first_rejected_none (urls : list str) :
  first_rejected urls = None <-> Forall accepts urls.
Proof.
  induction urls as [|url rest IH]; simpl.
  - split; [constructor | reflexivity].
  - rewrite List.Forall_cons_iff, <- IH. unfold accepts.
    destruct (CacheUtils.normalize_url urlparse url) as [n|m].
    + split; [eauto | tauto].
    + split; [discriminate | intros [(n & H) _]; discriminate].
Qed.

Lemma kept_sublist (urls : list str) :
  forall seen, sublist (kept urls seen) urls.
Proof.
  induction urls as [|url rest IH]; intros seen; simpl; [constructor|].
  destruct (bool_decide (norm url ∉ seen));
    [apply sublist_skip | apply sublist_cons]; apply IH.
Qed.

Lemma kept_in (urls : list str) :
  forall seen url, In url (kept urls seen) -> In url urls.
Proof.
  induction urls as [|x rest IH]; intros seen url; simpl; [tauto|].
  destruct (bool_decide (norm x ∉ seen)).
  - intros [->|Hin]; [left; reflexivity | right; eapply IH, Hin].
  - intros Hin. right. eapply IH, Hin.
Qed.

Lemma kept_fresh (urls : list str) :
  forall seen url, In url (kept urls seen) -> norm url ∉ seen.
Proof.
  induction urls as [|x rest IH]; intros seen url; simpl; [tauto|].
  destruct (bool_decide_reflect (norm x ∉ seen)) as [Hx|Hx].
  - intros [<-|Hin]; [exact Hx|].
    apply IH in Hin. set_solver.
  - apply IH.
Qed.

Lemma kept_NoDup (urls : list str) :
  forall seen, List.NoDup (List.map norm (kept urls seen)).
Proof.
  induction urls as [|x rest IH]; intros seen; simpl; [constructor|].
  destruct (bool_decide (norm x ∉ seen)); [|apply IH].
  simpl. constructor; [|apply IH].
  intros Hin. apply List.in_map_iff in Hin as (y & Hy & Hin).
  apply kept_fresh in Hin. set_solver.
Qed.

Lemma kept_covers (urls : list str) :
  forall seen url, In url urls ->
  norm url ∈ seen \/ In (norm url) (List.map norm (kept urls seen)).
Proof.
  induction urls as [|x rest IH]; intros seen url; simpl; [tauto|].
  destruct (bool_decide_reflect (norm x ∉ seen)) as [Hx|Hx].
  - intros [->|Hin]; [right; left; reflexivity|].
    destruct (IH (seen ∪ {[ norm x ]}) url Hin) as [Hs|Hk].
    + apply elem_of_union in Hs as [Hs|Hs]; [left; exact Hs|].
      apply elem_of_singleton in Hs. right. left. symmetry. exact Hs.
    + right. right. exact Hk.
  - intros [->|Hin]; [left; apply dec_stable; exact Hx|].
    apply IH, Hin.
Qed.

Lemma kept_all (urls : list str) :
  forall seen,
  List.NoDup (List.map norm urls) ->
  (forall url, In url urls -> norm url ∉ seen) ->
  kept urls seen = urls.
Proof.
  induction urls as [|x rest IH]; intros seen Hnd Hfresh; [reflexivity|].
  simpl in Hnd. apply List.NoDup_cons_iff in Hnd as [Hx Hnd].
  cbn [kept]. rewrite bool_decide_eq_true_2 by (apply Hfresh; left; reflexivity).
  f_equal. apply IH; [exact Hnd|].
  intros url Hin. apply not_elem_of_union. split.
  - apply Hfresh. right. exact Hin.
  - intros E. apply elem_of_singleton in E. apply Hx. rewrite <- E.
    apply List.in_map, Hin.
Qed.

Lemma normalize_url_norm (urls : list str) :
  Forall accepts urls ->
  List.map (CacheUtils.normalize_url urlparse) urls
  = List.map (fun url => Returned (norm url)) urls.
Proof.
  intros H. apply List.map_ext_in. intros url Hin.
  rewrite List.Forall_forall in H. destruct (H url Hin) as (n & Hn).
  unfold norm. rewrite Hn. reflexivity.
Qed.

Lemma NoDup_Returned {E A} (l : list A) :
  List.NoDup l -> List.NoDup (List.map (@Returned E A) l).
Proof.
  intros H. apply List.NoDup_map_inv with (f := fun r =>
    match r with Returned a => Some a | Raised _ => None end).
  rewrite List.map_map. cbn.
  apply (List.NoDup_map_inv (fun o : option A => o)).
  rewrite List.map_map. cbn.
  clear -H. induction H as [|x l Hx _ IH]; simpl; constructor; [|exact IH].
  intros Hin. apply List.in_map_iff in Hin as (y & [= ->] & Hy). tauto.
Qed.

End DedupFacts.

(** X17. On a list of URLs that urlparse accepts, [_deduplicate_urls]
    keeps, in their order, the URLs whose normalized form has not
    occurred earlier in the list: the result is a sub-list of the input,
    no two URLs of the result have the same normalized form, every URL
    of the input has its normalized form represented in the result, and
    the first URL is always kept. A list without such duplicates is
    returned unchanged, so applying the function twice gives the same as
    applying it once. On a list with a URL that urlparse rejects, the
    ValueError of the first such URL leaves the function. *)
Theorem deduplicate_urls_keeps_first_occurrences
    (urlparse : str -> result str CacheUtils.url_parts) (urls : list str) :
  (Forall (accepts urlparse) urls ->
   exists result,
     RelatedWork._deduplicate_urls urlparse urls = Returned result
     /\ sublist result urls
     /\ List.NoDup (List.map (CacheUtils.normalize_url urlparse) result)
     /\ (forall url, In url urls ->
           In (CacheUtils.normalize_url urlparse url)
              (List.map (CacheUtils.normalize_url urlparse) result))
     /\ hd_error result = hd_error urls
     /\ (List.NoDup (List.map (CacheUtils.normalize_url urlparse) urls) ->
         result = urls)
     /\ RelatedWork._deduplicate_urls urlparse result = Returned result)
  /\ (forall message,
        first_rejected urlparse urls = Some message ->
        RelatedWork._deduplicate_urls urlparse urls = Raised message)
  /\ (~ Forall (accepts urlparse) urls ->
      exists message, first_rejected urlparse urls = Some message).
Proof.
  unfold RelatedWork._deduplicate_urls.
  split; [|split].
  2:{ intros message H. rewrite dedup_loop_cases, H. reflexivity. }
  2:{ intros H. rewrite <- first_rejected_none in H.
      destruct (first_rejected urlparse urls); [eauto | tauto]. }
  intros Hacc.
  assert (Hsub : sublist (kept urlparse urls ∅) urls) by apply kept_sublist.
  assert (Hacc' : Forall (accepts urlparse) (kept urlparse urls ∅)).
  { apply List.Forall_forall. intros url Hin.
    rewrite List.Forall_forall in Hacc. apply Hacc.
    eapply kept_in, Hin. }
  assert (Hall : forall l,
            List.NoDup (List.map (norm urlparse) l) -> kept urlparse l ∅ = l).
  { intros l Hnd. apply kept_all; [exact Hnd|].
    intros url _. apply not_elem_of_empty. }
  assert (Hnd : forall l, Forall (accepts urlparse) l ->
            List.NoDup (List.map (CacheUtils.normalize_url urlparse) l) ->
            List.NoDup (List.map (norm urlparse) l)).
  { intros l Hl H. rewrite (normalize_url_norm urlparse l Hl) in H.
    rewrite <- (List.map_map (norm urlparse) Returned) in H.
    apply List.NoDup_map_inv in H. exact H. }
  exists (kept urlparse urls ∅).
  rewrite !dedup_loop_cases.
  rewrite (proj2 (first_rejected_none urlparse urls) Hacc).
  rewrite (proj2 (first_rejected_none urlparse _) Hacc').
  cbn [app].
  split; [reflexivity|]. split; [exact Hsub|].
  split; [|split; [|split; [|split]]].
  - rewrite (normalize_url_norm urlparse _ Hacc').
    rewrite <- (List.map_map (norm urlparse) Returned).
    apply NoDup_Returned, kept_NoDup.
  - intros url Hin.
    rewrite (normalize_url_norm urlparse _ Hacc').
    rewrite List.Forall_forall in Hacc. destruct (Hacc url Hin) as (n & Hn).
    assert (En : norm urlparse url = n) by (unfold norm; rewrite Hn; reflexivity).
    rewrite Hn, <- En.
    rewrite <- (List.map_map (norm urlparse) Returned).
    apply List.in_map.
    destruct (kept_covers urlparse urls ∅ url Hin) as [H|H]; [|exact H].
    exfalso. exact (not_elem_of_empty _ H).
  - destruct urls as [|x rest]; [reflexivity|]. cbn [kept].
    rewrite bool_decide_eq_true_2 by apply not_elem_of_empty. reflexivity.
  - intros H. apply Hall, Hnd; assumption.
  - f_equal. apply Hall, kept_NoDup.
Qed.

Example deduplicate_urls_drops_anchor_variants :
  RelatedWork._deduplicate_urls CacheUtils.urlparse_simple
    [u "https://a.com/x#s1"; u "https://b.org/"; u "https://a.com/x?q=2";
     u "https://a.com/y"]
  = Returned
      [u "https://a.com/x#s1"; u "https://b.org/"; u "https://a.com/y"].
Proof. vm_compute. reflexivity. Qed.

Example deduplicate_urls_raises_on_a_rejected_url :
  RelatedWork._deduplicate_urls CacheUtils.urlparse_simple
    [u "https://a.com/x#s1"; u "http://a]b/c"; u "https://a.com/x?q=2"]
  = Raised (u "Invalid IPv6 URL").
Proof. vm_compute. reflexivity. Qed.

Lemma deduplicate_urls_keeps_first_occurrences_witness :
  exists result,
    RelatedWork._deduplicate_urls CacheUtils.urlparse_simple
      [u "https://a.com/x#s1"; u "https://b.org/"] = Returned result
    /\ result = [u "https://a.com/x#s1"; u "https://b.org/"].
Proof.
  destruct (proj1 (deduplicate_urls_keeps_first_occurrences
                     CacheUtils.urlparse_simple
                     [u "https://a.com/x#s1"; u "https://b.org/"]))
    as (result & Hrun & _ & _ & _ & _ & Hsame & _).
  - repeat (apply List.Forall_cons; [eexists; vm_compute; reflexivity|]).
    apply List.Forall_nil.
  - exists result. split; [exact Hrun|]. apply Hsame.
    vm_compute. constructor; [|constructor; [intros []|constructor]].
    intros [H|[]]. discriminate H.
Defined.

(** ** statement/verify_no_citations_web.py: clean_json_response *)

Module WebJson.

Definition lbrace : N := 123%N.
Definition rbrace : N := 125%N.

(** The loop [for i in range(start_idx, len(response))] on the rest of
    the response from index [i] on; the result is [end_idx], [-1] when
    the loop ends without a [break]. *)
Fixpoint object_end (rest : str) (i : Z) (brace_count : Z) : Z :=
  match rest with
  | [] => -1
  | c :: rest =>
    if (c =? lbrace)%N then object_end rest (i + 1) (brace_count + 1)
    else if (c =? rbrace)%N then
      let brace_count := brace_count - 1 in
      if brace_count =? 0 then i + 1
      else object_end rest (i + 1) brace_count
    else object_end rest (i + 1) brace_count
  end.

Definition clean_json_response (response : str) : str :=
  let response := strip response in
  let start_idx := find response [lbrace] in
  if start_idx =? -1 then response else
  let end_idx :=
    object_end (skipn (Z.to_nat start_idx) response) start_idx 0 in
  if end_idx >? start_idx
  then slice (Z.to_nat start_idx) (Z.to_nat end_idx) response
  else response.

End WebJson.

Section CleanJson.
Import WebJson.

(** Opening minus closing braces. *)
Fixpoint excess (s : str) : Z :=
  match s with
  | [] => 0
  | c :: s =>
    (if (c =? lbrace)%N then 1 else if (c =? rbrace)%N then -1 else 0)
    + excess s
  end.

(** The length of the piece the loop stops after, if it stops. *)
Fixpoint object_length (rest : str) (brace_count : Z) : option nat :=
  match rest with
  | [] => None
  | c :: rest =>
    if (c =? lbrace)%N then option_map S (object_length rest (brace_count + 1))
    else if (c =? rbrace)%N then
      if brace_count - 1 =? 0 then Some 1%nat
      else option_map S (object_length rest (brace_count - 1))
    else option_map S (object_length rest brace_count)
  end.

Lemma object_end_length (rest : str) :
  forall i brace_count,
  object_end rest i brace_count
  = match object_length rest brace_count with
    | Some k => i + Z.of_nat k
    | None => -1
    end.
Proof.
  induction rest as [|c rest IH]; intros i bc; [reflexivity|].
  cbn [object_end object_length].
  destruct (c =? lbrace)%N; [|destruct (c =? rbrace)%N;
    [destruct (bc - 1 =? 0); [reflexivity|]|]];
    rewrite IH; destruct (object_length rest _); simpl; lia.
Qed.

Lemma object_length_spec (rest : str) :
  forall brace_count k,
  object_length rest brace_count = Some k ->
  (0 < k <= length rest)%nat
  /\ brace_count + excess (firstn k rest) = 0
  /\ List.last (firstn k rest) 0%N = rbrace
  /\ object_length (firstn k rest) brace_count = Some k.
Proof.
  induction rest as [|c rest IH]; intros bc k; [discriminate|].
  assert (Hstep : forall bc' k,
            option_map S (object_length rest bc') = Some k ->
            exists j, k = S j
              /\ (0 < j <= length rest)%nat
              /\ bc' + excess (firstn j rest) = 0
              /\ List.last (c :: firstn j rest) 0%N = rbrace
              /\ option_map S (object_length (firstn j rest) bc') = Some k).
  { intros bc' k' H.
    destruct (object_length rest bc') as [j|] eqn:E; [|discriminate].
    injection H as <-. destruct (IH _ _ E) as (Hj & Hx & Hl & Hp).
    exists j. rewrite Hp. repeat split; try assumption; try lia.
    destruct (firstn j rest) as [|x xs] eqn:Ef; [|exact Hl].
    destruct j; [lia|]. destruct rest; [simpl in Hj; lia | discriminate]. }
  cbn [object_length].
  destruct (N.eqb_spec c lbrace) as [Hl|Hl].
  - intros H. apply Hstep in H as (j & -> & Hj & Hx & Hla & Hp).
    cbn [firstn length excess object_length].
    destruct (N.eqb_spec c lbrace); [|contradiction].
    repeat split; try assumption; lia.
  - destruct (N.eqb_spec c rbrace) as [Hr|Hr].
    + destruct (Z.eqb_spec (bc - 1) 0) as [Hz|Hz].
      * intros [= <-]. change (firstn 1 (c :: rest)) with [c].
        cbn [length excess List.last object_length].
        destruct (N.eqb_spec c lbrace); [contradiction|].
        destruct (N.eqb_spec c rbrace); [|contradiction].
        destruct (Z.eqb_spec (bc - 1) 0); [|contradiction].
        repeat split; try lia; try exact Hr.
      * intros H. apply Hstep in H as (j & -> & Hj & Hx & Hla & Hp).
        cbn [firstn length excess object_length].
        destruct (N.eqb_spec c lbrace); [contradiction|].
        destruct (N.eqb_spec c rbrace); [|contradiction].
        destruct (Z.eqb_spec (bc - 1) 0); [contradiction|].
        repeat split; try assumption; lia.
    + intros H. apply Hstep in H as (j & -> & Hj & Hx & Hla & Hp).
      cbn [firstn length excess object_length].
      destruct (N.eqb_spec c lbrace); [contradiction|].
      destruct (N.eqb_spec c rbrace); [contradiction|].
      repeat split; try assumption; lia.
Qed.

Lemma lstrip_id (s : str) :
  match s with c :: _ => isspace c = false | [] => True end ->
  lstrip s = s.
Proof. destruct s as [|c s]; simpl; [reflexivity|]. intros ->. reflexivity. Qed.

Lemma rstrip_last (s : str) :
  match rstrip s with
  | [] => True
  | c :: r => isspace (List.last (c :: r) 0%N) = false
  end.
Proof.
  induction s as [|c s IH]; simpl; [exact I|].
  destruct (rstrip s) as [|x r].
  - destruct (isspace c) eqn:Hc; [exact I | exact Hc].
  - exact IH.
Qed.

Lemma rstrip_id (s : str) :
  s <> [] -> isspace (List.last s 0%N) = false -> rstrip s = s.
Proof.
  induction s as [|c s IH]; intros Hne Hl; [contradiction|].
  destruct s as [|d s].
  - simpl in *. rewrite Hl. reflexivity.
  - change (rstrip (c :: d :: s))
      with (match rstrip (d :: s) with
            | [] => if isspace c then [] else [c]
            | x :: r => c :: x :: r
            end).
    rewrite IH by (discriminate || exact Hl). reflexivity.
Qed.

Lemma rstrip_head (s : str) :
  match s with
  | c :: _ => isspace c = false -> hd_error (rstrip s) = Some c
  | [] => True
  end.
Proof.
  destruct s as [|c s]; [exact I|]. intros Hc. simpl.
  destruct (rstrip s); [rewrite Hc|]; reflexivity.
Qed.

(** A stripped string is empty or begins and ends with a character that
    is not white space; stripping it again changes nothing. *)
Lemma strip_ends (s : str) :
  strip s = []
  \/ (exists c r, strip s = c :: r /\ isspace c = false
                  /\ isspace (List.last (strip s) 0%N) = false).
Proof.
  unfold strip. pose proof (lstrip_head s) as Hh.
  pose proof (rstrip_last (lstrip s)) as Hl.
  pose proof (rstrip_head (lstrip s)) as Hr.
  destruct (lstrip s) as [|c t]; [left; reflexivity|].
  specialize (Hr Hh).
  destruct (rstrip (c :: t)) as [|x r]; [discriminate|].
  injection Hr as ->. right. eauto.
Qed.

Lemma strip_fixed (s : str) :
  s = [] \/ (isspace (hd 0%N s) = false /\ isspace (List.last s 0%N) = false) ->
  strip s = s.
Proof.
  intros [->|[Hh Hl]]; [reflexivity|]. unfold strip.
  destruct s as [|c s]; [reflexivity|].
  rewrite lstrip_id by exact Hh. apply rstrip_id; [discriminate | exact Hl].
Qed.

Lemma strip_idempotent (s : str) : strip (strip s) = strip s.
Proof.
  apply strip_fixed. destruct (strip_ends s) as [H|(c & r & E & Hc & Hl)];
    [left; exact H|].
  right. rewrite E in *. auto.
Qed.

Lemma find_brace (s : str) :
  find s [lbrace] = -1 /\ Forall (fun c => c <> lbrace) s
  \/ exists pre post,
       s = pre ++ lbrace :: post
       /\ Forall (fun c => c <> lbrace) pre
       /\ find s [lbrace] = Z.of_nat (length pre).
Proof.
  unfold find.
  assert (H : forall i,
            find_from [lbrace] s i = -1 /\ Forall (fun c => c <> lbrace) s
            \/ exists pre post,
                 s = pre ++ lbrace :: post
                 /\ Forall (fun c => c <> lbrace) pre
                 /\ find_from [lbrace] s i = i + Z.of_nat (length pre)).
  { induction s as [|c s IH]; intros i.
    - left. split; [reflexivity | constructor].
    - cbn [find_from startswith].
      destruct (N.eqb_spec lbrace c) as [E|E].
      + right. exists [], s. subst c. simpl. split; [reflexivity|].
        split; [constructor | lia].
      + simpl. destruct (IH (i + 1)) as [[H1 H2]|(pre & post & -> & Hp & Hf)].
        * left. split; [exact H1|]. constructor; [congruence | exact H2].
        * right. exists (c :: pre), post. split; [reflexivity|].
          split; [constructor; [congruence | exact Hp]|].
          rewrite Hf. simpl length. lia. }
  destruct (H 0) as [H0|(pre & post & E & Hp & Hf)]; [left; exact H0|].
  right. exists pre, post. auto.
Qed.

End CleanJson.

(** X18. [clean_json_response] returns either the stripped response as
    it is, or the first brace-balanced piece of it: a piece that starts
    at the first opening brace of the stripped response, begins with [{]
    and ends with [}], and holds as many opening as closing braces. A
    response without an opening brace is only stripped. Cleaning a
    cleaned response changes nothing. *)
Theorem clean_json_response_first_object (response : str) :
  let stripped := strip response in
  let result := WebJson.clean_json_response response in
  (result = stripped
   \/ exists pre post,
        stripped = pre ++ result ++ post
        /\ Forall (fun c => c <> WebJson.lbrace) pre
        /\ hd_error result = Some WebJson.lbrace
        /\ List.last result 0%N = WebJson.rbrace
        /\ excess result = 0)
  /\ (Forall (fun c => c <> WebJson.lbrace) stripped -> result = stripped)
  /\ WebJson.clean_json_response result = result.
Proof.
  intros stripped result.
  assert (Hcases :
    (result = stripped
     /\ (Forall (fun c => c <> WebJson.lbrace) stripped
         \/ exists pre post,
              stripped = pre ++ WebJson.lbrace :: post
              /\ Forall (fun c => c <> WebJson.lbrace) pre
              /\ object_length (WebJson.lbrace :: post) 0 = None))
    \/ exists pre post,
         stripped = pre ++ result ++ post
         /\ Forall (fun c => c <> WebJson.lbrace) pre
         /\ hd_error result = Some WebJson.lbrace
         /\ List.last result 0%N = WebJson.rbrace
         /\ excess result = 0
         /\ object_length result 0 = Some (length result)).
  { unfold result, WebJson.clean_json_response. fold stripped.
    destruct (find_brace stripped)
      as [[Hf Hno]|(pre & post & E & Hpre & Hf)].
    - rewrite Hf. left. auto.
    - rewrite Hf.
      destruct (Z.eqb_spec (Z.of_nat (length pre)) (-1)) as [|_]; [lia|].
      rewrite Nat2Z.id, E, drop_app_length, object_end_length.
      destruct (object_length (WebJson.lbrace :: post) 0) as [k|] eqn:Ek.
      + destruct (object_length_spec _ _ _ Ek) as (Hk & Hx & Hl & Hp).
        destruct (Z.gtb_spec (Z.of_nat (length pre) + Z.of_nat k)
                             (Z.of_nat (length pre))) as [_|]; [|lia].
        right. unfold slice. rewrite drop_app_length.
        replace (Z.to_nat (Z.of_nat (length pre) + Z.of_nat k)
                 - length pre)%nat with k by lia.
        exists pre, (skipn k (WebJson.lbrace :: post)).
        rewrite take_drop. split; [reflexivity|]. split; [exact Hpre|].
        split; [destruct k; [lia | reflexivity]|].
        split; [exact Hl|]. split; [lia|].
        rewrite length_take, Nat.min_l by lia. exact Hp.
      + destruct (Z.gtb_spec (-1) (Z.of_nat (length pre))); [lia|].
        left. split; [reflexivity|]. right. eauto. }
  split; [|split].
  - destruct Hcases as [[H _]|(pre & post & H1 & H2 & H3 & H4 & H5 & _)];
      [left; exact H|].
    right. exists pre, post. auto.
  - intros Hno.
    destruct Hcases as [[H _]|(pre & post & H1 & H2 & H3 & H4 & H5 & _)];
      [exact H|].
    exfalso. rewrite H1 in Hno.
    apply Forall_app in Hno as [_ Hno]. apply Forall_app in Hno as [Hno _].
    destruct result as [|c r]; [discriminate|]. injection H3 as ->.
    apply Forall_cons in Hno as [Hc _]. apply Hc. reflexivity.
  - assert (Hfix : strip result = result).
    { destruct Hcases
        as [[H _]|(pre & post & H1 & H2 & H3 & H4 & H5 & _)].
      - rewrite H. apply strip_idempotent.
      - apply strip_fixed. right.
        destruct result as [|c r]; [discriminate|]. injection H3 as ->.
        rewrite H4. split; reflexivity. }
    unfold WebJson.clean_json_response at 1. rewrite Hfix.
    destruct Hcases
      as [[H [Hno|(pre & post & E & Hpre & Hnone)]]
         |(pre & post & H1 & H2 & H3 & H4 & H5 & H6)].
    + destruct (find_brace result)
        as [[Hf _]|(pre & post & E & _ & _)]; [rewrite Hf; reflexivity|].
      exfalso. rewrite <- H, E in Hno. apply Forall_app in Hno as [_ Hno].
      apply Forall_cons in Hno as [Hc _]. apply Hc. reflexivity.
    + rewrite H, E.
      destruct (find_brace (pre ++ WebJson.lbrace :: post))
        as [[Hf Hno]|(pre' & post' & E' & Hpre' & Hf)].
      * rewrite Hf. reflexivity.
      * assert (Hsame : pre' = pre /\ post' = post).
        { clear -E' Hpre Hpre'. revert pre' E' Hpre'.
          induction pre as [|c pre IH]; intros pre' E' Hpre'.
          - destruct pre' as [|c' pre'].
            + injection E' as <-. auto.
            + injection E' as <- _. apply Forall_cons in Hpre' as [Hc _].
              exfalso. apply Hc. reflexivity.
          - apply Forall_cons in Hpre as [Hc Hpre].
            destruct pre' as [|c' pre'].
            + injection E' as -> _. exfalso. apply Hc. reflexivity.
            + injection E' as <- E'. apply Forall_cons in Hpre' as [_ Hpre'].
              destruct (IH Hpre _ E' Hpre') as [-> ->]. auto. }
        destruct Hsame as [-> ->]. rewrite Hf.
        destruct (Z.eqb_spec (Z.of_nat (length pre)) (-1)) as [|_]; [lia|].
        rewrite Nat2Z.id, drop_app_length, object_end_length, Hnone.
        destruct (Z.gtb_spec (-1) (Z.of_nat (length pre))); [lia|].
        reflexivity.
    + destruct result as [|c r] eqn:Er; [discriminate|]. injection H3 as ->.
      unfold find. cbn [find_from startswith]. rewrite N.eqb_refl.
      cbn [andb Z.eqb]. change (Z.to_nat 0) with 0%nat.
      change (skipn 0 (WebJson.lbrace :: r)) with (WebJson.lbrace :: r).
      rewrite object_end_length, H6.
      destruct (Z.gtb_spec (0 + Z.of_nat (length (WebJson.lbrace :: r))) 0)
        as [_|Hle]; [|simpl length in Hle; lia].
      unfold slice. cbn [skipn].
      replace (Z.to_nat (0 + Z.of_nat (length (WebJson.lbrace :: r)))
               - 0)%nat
        with (length (WebJson.lbrace :: r)) by lia.
      apply firstn_all.
Qed.

Example clean_json_response_drops_the_chatter :
  WebJson.clean_json_response
    (u "Sure! {" ++ quote ++ u "decision" ++ quote
     ++ u ": true, " ++ quote ++ u "meta" ++ quote ++ u ": {}} Hope it helps"
     ++ [NL])
  = u "{" ++ quote ++ u "decision" ++ quote ++ u ": true, " ++ quote
    ++ u "meta" ++ quote ++ u ": {}}".
Proof. vm_compute. reflexivity. Qed.
(** ** related_work_evaluator.py: precision and recall *)

Module Evaluate.

(** What a paper holds under [title]: a [str], or a value of another
    type, of which only the truth value matters: a falsy one ([None],
    0, an empty list) is treated like the empty title, a truthy one (a
    number, a list of words) makes [title.lower()] raise. *)
Inductive title : Type :=
| Text (s : str)
| Falsy
| Truthy.

Inductive error : Type := AttributeError.

(** A predicted paper, by the two keys [evaluate_predictions] reads;
    [is_academic_paper] is the truth value of what the key holds. *)
Record predicted : Type := { is_academic_paper : bool; p_title : title }.

(** A ground-truth entry. *)
Record ground_truth : Type := { g_title : title }.

(** The returned record, without [f1_score] (a chain of rounded float
    operations) and with the three title lists as the sets they are
    made from; [precision] and [recall] are single quotients and are
    kept as the exact rationals. *)
Record evaluation : Type := {
  arxiv_id : str;
  predicted_count : Z;
  ground_truth_count : Z;
  intersection_count : Z;
  precision : Q;
  recall : Q;
  predicted_titles : gset str;
  ground_truth_titles : gset str;
  intersection_titles : gset str
}.

Definition truth (t : title) : bool :=
  match t with
  | Text s => truthy s
  | Falsy => false
  | Truthy => true
  end.

(** [string.punctuation] *)
Definition punctuation (c : N) : bool :=
  ((33 <=? c) && (c <=? 47) || (58 <=? c) && (c <=? 64)
   || (91 <=? c) && (c <=? 96) || (123 <=? c) && (c <=? 126))%N.

(** [s.split()]: the maximal runs without whitespace; [cur] is the run
    being read. *)
Fixpoint words (s : str) (cur : str) : list str :=
  match s with
  | [] => if truthy cur then [cur] else []
  | c :: s' =>
    if isspace c then (if truthy cur then [cur] else []) ++ words s' []
    else words s' (cur ++ [c])
  end.

Section Evaluate.
(** [str.lower], which goes through the case tables of Unicode. *)
Variable str_lower : str -> str.

Definition normalize_title (t : title) : result error str :=
  match t with
  | Falsy => Returned []
  | Truthy => Raised AttributeError
  | Text s =>
    if negb (truthy s) then Returned [] else
    let title := str_lower s in
    let title := List.filter (fun c => negb (punctuation c)) title in
    Returned (join (u " ") (words title []))
  end.

Fixpoint collect_predicted (papers : list predicted) (titles : gset str)
    : result error (gset str) :=
  match papers with
  | [] => Returned titles
  | paper :: rest =>
    if is_academic_paper paper && truth (p_title paper) then
      match normalize_title (p_title paper) with
      | Raised e => Raised e
      | Returned title =>
        if truthy title then collect_predicted rest (titles ∪ {[ title ]})
        else collect_predicted rest titles
      end
    else collect_predicted rest titles
  end.

Fixpoint collect_ground_truth (papers : list ground_truth)
    (titles : gset str) : result error (gset str) :=
  match papers with
  | [] => Returned titles
  | paper :: rest =>
    match normalize_title (g_title paper) with
    | Raised e => Raised e
    | Returned title =>
      if truthy title then collect_ground_truth rest (titles ∪ {[ title ]})
      else collect_ground_truth rest titles
    end
  end.

Definition len (s : gset str) : Z := Z.of_nat (size s).

Definition ratio (a b : Z) : Q := Qmake a (Z.to_pos b).

Definition evaluate_predictions (predicted_papers : list predicted)
    (ground_truth_papers : list ground_truth) (arxiv_id : str)
    : result error evaluation :=
  match collect_predicted predicted_papers ∅ with
  | Raised e => Raised e
  | Returned predicted_titles =>
    match collect_ground_truth ground_truth_papers ∅ with
    | Raised e => Raised e
    | Returned ground_truth_titles =>
      let intersection := predicted_titles ∩ ground_truth_titles in
      let precision :=
        if bool_decide (predicted_titles ≠ ∅)
        then ratio (len intersection) (len predicted_titles) else 0%Q in
      let recall :=
        if bool_decide (ground_truth_titles ≠ ∅)
        then ratio (len intersection) (len ground_truth_titles) else 0%Q in
      Returned
        {| arxiv_id := arxiv_id;
           predicted_count := len predicted_titles;
           ground_truth_count := len ground_truth_titles;
           intersection_count := len intersection;
           precision := precision;
           recall := recall;
           predicted_titles := predicted_titles;
           ground_truth_titles := ground_truth_titles;
           intersection_titles := intersection |}
    end
  end.

End Evaluate.
End Evaluate.

Section EvaluateFacts.
Import Evaluate.
Variable str_lower : str -> str.

(** The paper contributes [t] to the predicted set. *)
Definition predicts (paper : predicted) (t : str) : Prop :=
  is_academic_paper paper = true /\ truth (p_title paper) = true
  /\ normalize_title str_lower (p_title paper) = Returned t /\ t <> [].

(** The entry contributes [t] to the ground-truth set. *)
Definition lists (paper : ground_truth) (t : str) : Prop :=
  normalize_title str_lower (g_title paper) = Returned t /\ t <> [].

(** The title of the paper reaches [title.lower()] without being a
    [str]. *)
Definition bad_prediction (paper : predicted) : bool :=
  is_academic_paper paper
  && match p_title paper with Truthy => true | _ => false end.

Definition bad_entry (paper : ground_truth) : bool :=
  match g_title paper with Truthy => true | _ => false end.

Lemma truthy_true {A} (l : list A) : truthy l = true <-> l <> [].
Proof. destruct l; simpl; split; congruence. Qed.

Lemma normalize_title_raises (t : title) :
  normalize_title str_lower t = Raised AttributeError <-> t = Truthy.
Proof.
  destruct t as [s| |]; simpl; [destruct (negb (truthy s))| |];
    split; congruence.
Qed.

Lemma collect_predicted_raises (papers : list predicted) :
  forall titles,
  existsb bad_prediction papers = true ->
  collect_predicted str_lower papers titles = Raised AttributeError.
Proof.
  induction papers as [|paper rest IH]; intros titles; simpl;
    [discriminate|].
  unfold bad_prediction at 1.
  destruct (is_academic_paper paper); cbn [andb orb]; [|apply IH].
  destruct (p_title paper) as [s| |] eqn:Et; cbn [truth andb orb].
  - intros H. destruct s as [|c s]; cbn [truthy]; [apply IH, H|].
    cbn [normalize_title truthy negb].
    match goal with
    | |- context [truthy ?t] => destruct (truthy t)
    end; apply IH, H.
  - apply IH.
  - reflexivity.
Qed.

Lemma collect_predicted_spec (papers : list predicted) :
  forall titles,
  existsb bad_prediction papers = false ->
  exists P,
    collect_predicted str_lower papers titles = Returned P
    /\ forall t, t ∈ P
         <-> t ∈ titles
             \/ exists paper, In paper papers /\ predicts paper t.
Proof.
  induction papers as [|paper rest IH]; intros titles Hok.
  - exists titles. split; [reflexivity|]. intros t.
    split; [auto | intros [H|(p & [] & _)]; exact H].
  - cbn [existsb] in Hok. apply Bool.orb_false_iff in Hok as [Hp Hok].
    cbn [collect_predicted].
    assert (Hskip : forall T : gset str,
              (forall t, ~ predicts paper t) ->
              exists P,
                collect_predicted str_lower rest T = Returned P
                /\ forall t, t ∈ P
                     <-> t ∈ T
                         \/ exists p, In p (paper :: rest) /\ predicts p t).
    { intros T Hnone. destruct (IH T Hok) as (P & HP & Hin).
      exists P. split; [exact HP|]. intros t. rewrite Hin. split.
      - intros [H|(p & Hp' & Hc)]; [auto|]. right. exists p.
        split; [right; exact Hp' | exact Hc].
      - intros [H|(p & [<-|Hp'] & Hc)]; [auto| |].
        + exfalso. exact (Hnone t Hc).
        + right. exists p. auto. }
    destruct (is_academic_paper paper) eqn:Ha; cbn [andb].
    2:{ apply Hskip. intros t (H & _). congruence. }
    destruct (truth (p_title paper)) eqn:Ht.
    2:{ apply Hskip. intros t (_ & H & _). congruence. }
    destruct (normalize_title str_lower (p_title paper)) as [title|[]] eqn:En.
    2:{ apply normalize_title_raises in En. unfold bad_prediction in Hp.
        rewrite Ha, En in Hp. discriminate. }
    destruct (truthy title) eqn:Hn.
    2:{ apply Hskip. intros t (_ & _ & E & Hne). rewrite En in E.
        injection E as <-. apply truthy_true in Hne. congruence. }
    apply truthy_true in Hn.
    destruct (IH (titles ∪ {[ title ]}) Hok) as (P & HP & Hin).
    exists P. split; [exact HP|]. intros t.
    rewrite Hin, elem_of_union, elem_of_singleton. split.
    + intros [[H|H]|(p & Hp' & Hc)]; [auto| |].
      * right. exists paper. split; [left; reflexivity|].
        subst t. unfold predicts. auto.
      * right. exists p. split; [right; exact Hp' | exact Hc].
    + intros [H|(p & [<-|Hp'] & Hc)]; [auto| |].
      * left. right. destruct Hc as (_ & _ & E & _). rewrite En in E.
        injection E as <-. reflexivity.
      * right. exists p. auto.
Qed.

Lemma collect_ground_truth_raises (papers : list ground_truth) :
  forall titles,
  existsb bad_entry papers = true ->
  collect_ground_truth str_lower papers titles = Raised AttributeError.
Proof.
  induction papers as [|paper rest IH]; intros titles; simpl;
    [discriminate|].
  unfold bad_entry at 1.
  destruct (g_title paper) as [s| |] eqn:Et; cbn [orb normalize_title].
  - intros H. destruct s as [|c s]; cbn [truthy negb]; [apply IH, H|].
    match goal with
    | |- context [truthy ?t] => destruct (truthy t)
    end; apply IH, H.
  - cbn [truthy]. apply IH.
  - reflexivity.
Qed.

Lemma collect_ground_truth_spec (papers : list ground_truth) :
  forall titles,
  existsb bad_entry papers = false ->
  exists G,
    collect_ground_truth str_lower papers titles = Returned G
    /\ forall t, t ∈ G
         <-> t ∈ titles
             \/ exists paper, In paper papers /\ lists paper t.
Proof.
  induction papers as [|paper rest IH]; intros titles Hok.
  - exists titles. split; [reflexivity|]. intros t.
    split; [auto | intros [H|(p & [] & _)]; exact H].
  - cbn [existsb] in Hok. apply Bool.orb_false_iff in Hok as [Hp Hok].
    cbn [collect_ground_truth].
    destruct (normalize_title str_lower (g_title paper)) as [title|[]] eqn:En.
    2:{ apply normalize_title_raises in En. unfold bad_entry in Hp.
        rewrite En in Hp. discriminate. }
    destruct (truthy title) eqn:Hn.
    + apply truthy_true in Hn.
      destruct (IH (titles ∪ {[ title ]}) Hok) as (G & HG & Hin).
      exists G. split; [exact HG|]. intros t.
      rewrite Hin, elem_of_union, elem_of_singleton. split.
      * intros [[H|H]|(p & Hp' & Hc)]; [auto| |].
        -- right. exists paper. split; [left; reflexivity|].
           subst t. unfold lists. auto.
        -- right. exists p. split; [right; exact Hp' | exact Hc].
      * intros [H|(p & [<-|Hp'] & Hc)]; [auto| |].
        -- left. right. destruct Hc as (E & _). rewrite En in E.
           injection E as <-. reflexivity.
        -- right. exists p. auto.
    + destruct (IH titles Hok) as (G & HG & Hin).
      exists G. split; [exact HG|]. intros t. rewrite Hin. split.
      * intros [H|(p & Hp' & Hc)]; [auto|]. right. exists p.
        split; [right; exact Hp' | exact Hc].
      * intros [H|(p & [<-|Hp'] & Hc)]; [auto| |].
        -- exfalso. destruct Hc as (E & Hne). rewrite En in E.
           injection E as <-. apply truthy_true in Hne. congruence.
        -- right. exists p. auto.
Qed.

Lemma ratio_unit (a b : Z) :
  0 <= a <= b -> 0 < b -> (0 <= ratio a b)%Q /\ (ratio a b <= 1)%Q.
Proof.
  intros Ha Hb. unfold ratio, Qle. simpl. rewrite Z2Pos.id by lia. lia.
Qed.

Lemma ratio_one (a b : Z) : 0 < b -> (ratio a b == 1)%Q <-> a = b.
Proof.
  intros Hb. unfold ratio, Qeq. simpl. rewrite Z2Pos.id by lia. lia.
Qed.

End EvaluateFacts.

(** X19. [evaluate_predictions] compares sets of normalized titles.
    When no paper flagged academic and no ground-truth entry holds a
    truthy value that is not a string under [title], it returns: the
    predicted set holds exactly the non-empty normalized titles of the
    papers flagged academic that have a title, the ground-truth set the
    non-empty normalized titles of the reference list; so the order of
    the papers and repeated papers make no difference. The intersection
    count never exceeds either count, precision and recall lie between
    0 and 1 and are 0 when their set is empty, precision is 1 exactly
    when the predicted set is non-empty and within the ground truth, and
    recall is 1 exactly when the ground truth is non-empty and within
    the predicted set. With such a value under [title], the
    AttributeError of [normalize_title] leaves the function. *)
Theorem evaluate_predictions_precision_recall
    (str_lower : str -> str)
    (predicted_papers : list Evaluate.predicted)
    (ground_truth_papers : list Evaluate.ground_truth) (arxiv_id : str) :
  (existsb bad_prediction predicted_papers
   || existsb bad_entry ground_truth_papers = true ->
   Evaluate.evaluate_predictions str_lower predicted_papers
     ground_truth_papers arxiv_id
   = Raised Evaluate.AttributeError)
  /\ (existsb bad_prediction predicted_papers
      || existsb bad_entry ground_truth_papers = false ->
      exists e,
        Evaluate.evaluate_predictions str_lower predicted_papers
          ground_truth_papers arxiv_id
        = Returned e
        /\ let P := Evaluate.predicted_titles e in
           let G := Evaluate.ground_truth_titles e in
           (forall t, t ∈ P <->
              exists paper, In paper predicted_papers
                            /\ predicts str_lower paper t)
           /\ (forall t, t ∈ G <->
                 exists paper, In paper ground_truth_papers
                               /\ lists str_lower paper t)
           /\ Evaluate.intersection_titles e = P ∩ G
           /\ Evaluate.predicted_count e = Z.of_nat (size P)
           /\ Evaluate.ground_truth_count e = Z.of_nat (size G)
           /\ Evaluate.intersection_count e = Z.of_nat (size (P ∩ G))
           /\ 0 <= Evaluate.intersection_count e
              <= Evaluate.predicted_count e
           /\ Evaluate.intersection_count e
              <= Evaluate.ground_truth_count e
           /\ (0 <= Evaluate.precision e)%Q
           /\ (Evaluate.precision e <= 1)%Q
           /\ (0 <= Evaluate.recall e)%Q /\ (Evaluate.recall e <= 1)%Q
           /\ (P = ∅ -> Evaluate.precision e = 0%Q)
           /\ (G = ∅ -> Evaluate.recall e = 0%Q)
           /\ ((Evaluate.precision e == 1)%Q <-> P ≠ ∅ /\ P ⊆ G)
           /\ ((Evaluate.recall e == 1)%Q <-> G ≠ ∅ /\ G ⊆ P)).
Proof.
  unfold Evaluate.evaluate_predictions. split.
  { intros Hbad. apply Bool.orb_true_iff in Hbad.
    destruct (existsb bad_prediction predicted_papers) eqn:Hp.
    - rewrite (collect_predicted_raises str_lower _ _ Hp). reflexivity.
    - destruct Hbad as [Hbad|Hbad]; [discriminate|].
      destruct (collect_predicted_spec str_lower predicted_papers ∅ Hp)
        as (P & -> & _).
      rewrite (collect_ground_truth_raises str_lower _ _ Hbad).
      reflexivity. }
  intros Hok. apply Bool.orb_false_iff in Hok as [Hp Hg].
  destruct (collect_predicted_spec str_lower predicted_papers ∅ Hp)
    as (P & -> & HP0).
  destruct (collect_ground_truth_spec str_lower ground_truth_papers ∅ Hg)
    as (G & -> & HG0).
  eexists. split; [reflexivity|].
  cbn [Evaluate.predicted_titles Evaluate.ground_truth_titles
       Evaluate.intersection_titles Evaluate.predicted_count
       Evaluate.ground_truth_count Evaluate.intersection_count
       Evaluate.precision Evaluate.recall].
  assert (HP : forall t, t ∈ P <->
            exists paper, In paper predicted_papers
                          /\ predicts str_lower paper t).
  { intros t. rewrite HP0.
    split; [intros [H|H]; [exfalso; exact (not_elem_of_empty _ H) | exact H]
          | auto]. }
  assert (HG : forall t, t ∈ G <->
            exists paper, In paper ground_truth_papers
                          /\ lists str_lower paper t).
  { intros t. rewrite HG0.
    split; [intros [H|H]; [exfalso; exact (not_elem_of_empty _ H) | exact H]
          | auto]. }
  split; [exact HP|]. split; [exact HG|].
  clear HP HG HP0 HG0 Hp Hg.
  unfold Evaluate.len.
  assert (HIP : (size (P ∩ G) <= size P)%nat)
    by (clear; apply subseteq_size, intersection_subseteq_l).
  assert (HIG : (size (P ∩ G) <= size G)%nat)
    by (clear; apply subseteq_size, intersection_subseteq_r).
  assert (Hpos : forall X : gset str, X ≠ ∅ -> (0 < size X)%nat).
  { clear. intros X HX. destruct (size X) eqn:E; [|lia].
    apply size_empty_inv in E. exfalso. apply HX. apply leibniz_equiv, E. }
  assert (Hsub : forall X Y : gset str,
            size (X ∩ Y) = size X <-> X ⊆ Y).
  { clear. intros X Y. split.
    - intros E. assert (HXY : X ∩ Y ≡ X).
      { apply set_subseteq_size_equiv;
          [apply intersection_subseteq_l | lia]. }
      intros x Hx. apply HXY in Hx. apply elem_of_intersection in Hx.
      tauto.
    - intros HXY. f_equal. apply leibniz_equiv.
      apply subseteq_intersection_1, HXY. }
  assert (Hcomm : G ∩ P = P ∩ G)
    by (clear; apply leibniz_equiv; intros x; rewrite !elem_of_intersection; tauto).
  repeat match goal with |- _ /\ _ => split end;
    try reflexivity; try lia.
  - destruct (bool_decide_reflect (P ≠ ∅)) as [H|H]; [|apply Qle_refl].
    apply ratio_unit; [lia | specialize (Hpos P H); lia].
  - destruct (bool_decide_reflect (P ≠ ∅)) as [H|H]; [|discriminate].
    apply ratio_unit; [lia | specialize (Hpos P H); lia].
  - destruct (bool_decide_reflect (G ≠ ∅)) as [H|H]; [|apply Qle_refl].
    apply ratio_unit; [lia | specialize (Hpos G H); lia].
  - destruct (bool_decide_reflect (G ≠ ∅)) as [H|H]; [|discriminate].
    apply ratio_unit; [lia | specialize (Hpos G H); lia].
  - intros E. rewrite bool_decide_eq_false_2 by (intros H; exact (H E)).
    reflexivity.
  - intros E. rewrite bool_decide_eq_false_2 by (intros H; exact (H E)).
    reflexivity.
  - destruct (bool_decide_reflect (P ≠ ∅)) as [H|H].
    + rewrite ratio_one by (specialize (Hpos P H); lia).
      rewrite <- Hsub. split; [intros E; split; [exact H | lia]|].
      intros [_ E]. lia.
    + split; [intros E; discriminate E | intros [E _]; contradiction].
  - destruct (bool_decide_reflect (G ≠ ∅)) as [H|H].
    + rewrite ratio_one by (specialize (Hpos G H); lia).
      rewrite <- Hsub.
      rewrite Hcomm.
      split; [intros E; split; [exact H | lia]|].
      intros [_ E]. lia.
    + split; [intros E; discriminate E | intros [E _]; contradiction].
Qed.

Lemma evaluate_predictions_precision_recall_witness :
  exists e,
    Evaluate.evaluate_predictions Py.lower
      [{| Evaluate.is_academic_paper := true;
          Evaluate.p_title := Evaluate.Text (u "Deep  Learning: A Survey") |};
       {| Evaluate.is_academic_paper := false;
          Evaluate.p_title := Evaluate.Truthy |};
       {| Evaluate.is_academic_paper := true;
          Evaluate.p_title := Evaluate.Falsy |}]
      [{| Evaluate.g_title := Evaluate.Text (u "deep learning a survey") |};
       {| Evaluate.g_title := Evaluate.Text (u "Another Paper") |}]
      (u "2108.09091")
    = Returned e
    /\ (Evaluate.precision e <= 1)%Q
    /\ Evaluate.intersection_count e <= Evaluate.predicted_count e.
Proof.
  destruct (proj2 (evaluate_predictions_precision_recall Py.lower
      [{| Evaluate.is_academic_paper := true;
          Evaluate.p_title := Evaluate.Text (u "Deep  Learning: A Survey") |};
       {| Evaluate.is_academic_paper := false;
          Evaluate.p_title := Evaluate.Truthy |};
       {| Evaluate.is_academic_paper := true;
          Evaluate.p_title := Evaluate.Falsy |}]
      [{| Evaluate.g_title := Evaluate.Text (u "deep learning a survey") |};
       {| Evaluate.g_title := Evaluate.Text (u "Another Paper") |}]
      (u "2108.09091")) eq_refl)
    as (e & Hrun & H).
  exists e. split; [exact Hrun|]. split; apply H.
Defined.

Example normalize_title_of_a_title :
  Evaluate.normalize_title Py.lower
    (Evaluate.Text (u "  Deep  Learning: A Survey! "))
  = Returned (u "deep learning a survey").
Proof. vm_compute. reflexivity. Qed.

Example title_that_is_a_list_ends_the_evaluation :
  Evaluate.evaluate_predictions Py.lower
    [{| Evaluate.is_academic_paper := true;
        Evaluate.p_title := Evaluate.Truthy |}]
    [] (u "2108.09091")
  = Raised Evaluate.AttributeError.
Proof. reflexivity. Qed.

(** ** statement/verify_alignment.py: verify *)

Module VerifyAlignment.

(** A row of [df_match]. *)
Record match_row : Type := {
  ID : str;
  statement : str;
  source_sentence : str;
  url : str
}.

(** A row of [final.csv]. *)
Record final_row : Type := {
  f_row : match_row;
  f_match : bool;
  f_reason : str
}.

(** The [while retry] loop of one row, run against the outcomes of the
    successive calls of [check_alignment]: [None] when every supplied
    call asked for another one, [Some None] for [fail = True]. *)
Fixpoint row_loop (calls : list (result str (bool * str)))
    : option (option (bool * str)) :=
  match calls with
  | [] => None
  | Returned verdict :: _ => Some (Some verdict)
  | Raised e :: rest =>
    if contains (u "reach token limit") e then row_loop rest
    else Some None
  end.

(** The loop over the rows, each with the calls made for it. *)
Fixpoint rows_loop
    (df_match : list (match_row * list (result str (bool * str))))
    (results : list final_row) : option (list final_row) :=
  match df_match with
  | [] => Some results
  | (row, calls) :: rest =>
    match row_loop calls with
    | None => None
    | Some None => rows_loop rest results
    | Some (Some (m, reason)) =>
      rows_loop rest
        (results ++ [{| f_row := row; f_match := m; f_reason := reason |}])
    end
  end.

Definition sum_match (df_final : list final_row) : Z :=
  Z.of_nat (length (List.filter f_match df_final)).

Definition ratio (a b : Z) : Q := Qmake a (Z.to_pos b).

(** The frame written to [final.csv] and the returned match rate. *)
Definition verify
    (df_match : list (match_row * list (result str (bool * str))))
    : option (list final_row * Q) :=
  match rows_loop df_match [] with
  | None => None
  | Some df_final =>
    let match_rate :=
      if truthy df_final then
        let total_statements := Z.of_nat (length df_final) in
        if total_statements >? 0
        then ratio (sum_match df_final) total_statements else 0%Q
      else 0%Q in
    Some (df_final, match_rate)
  end.

End VerifyAlignment.

Section VerifyFacts.
Import VerifyAlignment.

(** The call that decided a row: the first one that is not a failure on
    the token limit. *)
Definition decided_by (calls : list (result str (bool * str)))
    (verdict : bool * str) : Prop :=
  exists waits rest,
    calls = List.map Raised waits ++ Returned verdict :: rest
    /\ Forall (fun e => contains (u "reach token limit") e = true) waits.

Lemma row_loop_decided (calls : list (result str (bool * str)))
    (verdict : bool * str) :
  row_loop calls = Some (Some verdict) -> decided_by calls verdict.
Proof.
  induction calls as [|[v|e] rest IH]; simpl; [discriminate| |].
  - intros [= <-]. exists [], rest. split; [reflexivity | constructor].
  - destruct (contains _ e) eqn:He; [|discriminate].
    intros H. destruct (IH H) as (waits & rest' & -> & Hw).
    exists (e :: waits), rest'. split; [reflexivity|].
    constructor; assumption.
Qed.

Lemma rows_loop_spec
    (df_match : list (match_row * list (result str (bool * str)))) :
  forall results df_final,
  rows_loop df_match results = Some df_final ->
  exists added,
    df_final = results ++ added
    /\ sublist (List.map f_row added) (List.map fst df_match)
    /\ Forall (fun r => exists calls,
                 In (f_row r, calls) df_match
                 /\ decided_by calls (f_match r, f_reason r)) added.
Proof.
  induction df_match as [|[row calls] rest IH]; intros results df_final;
    simpl.
  - intros [= <-]. exists []. rewrite app_nil_r.
    split; [reflexivity|]. split; constructor.
  - destruct (row_loop calls) as [[[m reason]|]|] eqn:Hrow; [| |discriminate].
    + intros H. destruct (IH _ _ H) as (added & -> & Hsub & Hall).
      exists ({| f_row := row; f_match := m; f_reason := reason |} :: added).
      rewrite <- app_assoc. split; [reflexivity|]. split.
      * simpl. apply sublist_skip, Hsub.
      * constructor.
        -- exists calls. split; [left; reflexivity|].
           apply row_loop_decided, Hrow.
        -- eapply Forall_impl; [exact Hall|].
           intros r (c & Hin & Hd). exists c. split; [right|]; assumption.
    + intros H. destruct (IH _ _ H) as (added & -> & Hsub & Hall).
      exists added. split; [reflexivity|]. split.
      * simpl. apply sublist_cons, Hsub.
      * eapply Forall_impl; [exact Hall|].
        intros r (c & Hin & Hd). exists c. split; [right|]; assumption.
Qed.

End VerifyFacts.

(** X20. When [verify] returns, the rows of [final.csv] are rows of
    [df_match] in their original order, each with the verdict of the
    first call for it that did not fail on the token limit; rows whose
    deciding call failed otherwise are left out. The match rate is the
    share of rows with [match] set among the rows written, lies between
    0 and 1, and is 0 when no row was written. *)
Theorem verify_keeps_decided_rows
    (df_match :
       list (VerifyAlignment.match_row * list (result str (bool * str))))
    (df_final : list VerifyAlignment.final_row) (match_rate : Q) :
  VerifyAlignment.verify df_match = Some (df_final, match_rate) ->
  sublist (List.map VerifyAlignment.f_row df_final)
          (List.map fst df_match)
  /\ Forall (fun r => exists calls,
               In (VerifyAlignment.f_row r, calls) df_match
               /\ decided_by calls
                    (VerifyAlignment.f_match r, VerifyAlignment.f_reason r))
            df_final
  /\ (0 <= match_rate)%Q /\ (match_rate <= 1)%Q
  /\ (df_final = [] -> match_rate = 0%Q)
  /\ (df_final <> [] ->
      match_rate
      = VerifyAlignment.ratio (VerifyAlignment.sum_match df_final)
          (Z.of_nat (length df_final))).
Proof.
  unfold VerifyAlignment.verify. intros Hrun.
  destruct (VerifyAlignment.rows_loop df_match []) as [rows|] eqn:Hrows;
    [|discriminate].
  injection Hrun as -> <-.
  destruct (rows_loop_spec _ _ _ Hrows) as (added & E & Hsub & Hall).
  simpl in E. subst added.
  split; [exact Hsub|]. split; [exact Hall|].
  assert (Hb : 0 <= VerifyAlignment.sum_match df_final
               <= Z.of_nat (length df_final)).
  { unfold VerifyAlignment.sum_match.
    pose proof (List.filter_length_le VerifyAlignment.f_match df_final).
    lia. }
  destruct df_final as [|r rs].
  - simpl. repeat split; try apply Qle_refl; try discriminate; congruence.
  - cbn [truthy].
    destruct (Z.gtb_spec (Z.of_nat (length (r :: rs))) 0) as [_|H];
      [|simpl length in H; lia].
    assert (Hlen : 0 < Z.of_nat (length (r :: rs))) by (simpl length; lia).
    unfold VerifyAlignment.ratio, Qle. cbn [Qnum Qden].
    rewrite Z2Pos.id by exact Hlen.
    repeat split; try lia; try discriminate.
Qed.

Lemma verify_keeps_decided_rows_witness :
  let a := {| VerifyAlignment.ID := u "Ab3dE6gH9j";
              VerifyAlignment.statement := u "s1";
              VerifyAlignment.source_sentence := u "t1";
              VerifyAlignment.url := u "https://a.com/x" |} in
  let b := {| VerifyAlignment.ID := u "k2LmN5pQ8r";
              VerifyAlignment.statement := u "s2";
              VerifyAlignment.source_sentence := u "t2";
              VerifyAlignment.url := u "https://b.org/" |} in
  exists df_final match_rate,
    VerifyAlignment.verify
      [(a, [Raised (u "reach token limit"); Returned (true, u "ok")]);
       (b, [Raised (u "bad json"); Returned (true, u "never asked")])]
    = Some (df_final, match_rate)
    /\ List.map VerifyAlignment.f_row df_final = [a]
    /\ (match_rate <= 1)%Q.
Proof.
  intros a b. eexists _, _.
  match goal with
  | |- ?run = ?res /\ _ =>
    assert (Hrun : run = res) by (vm_compute; reflexivity)
  end.
  split; [exact Hrun|]. split; [reflexivity|].
  exact (proj1 (proj2 (proj2 (proj2
           (verify_keeps_decided_rows _ _ _ Hrun))))).
Defined.
(** ** statement_evaluator.py and related_work_evaluator.py: arXiv ids *)

Module ArxivId.
Import Reference.

Definition dot : N := 46%N.

(** A match of [\d{4}\.\d{5}] at the head of [s]; [\d] is a decimal
    digit of any script. *)
Definition strict (s : str) : option str :=
  match s with
  | y1 :: y2 :: y3 :: y4 :: p :: n1 :: n2 :: n3 :: n4 :: n5 :: _ =>
    if forallb isdigit [y1; y2; y3; y4] && (p =? dot)%N
       && forallb isdigit [n1; n2; n3; n4; n5]
    then Some [y1; y2; y3; y4; p; n1; n2; n3; n4; n5] else None
  | _ => None
  end.

(** A match of [\d{4}\.\d+] at the head of [s]; the run of digits is
    taken whole. *)
Definition loose (s : str) : option str :=
  match s with
  | y1 :: y2 :: y3 :: y4 :: p :: rest =>
    if forallb isdigit [y1; y2; y3; y4] && (p =? dot)%N then
      match fst (span_digits rest) with
      | [] => None
      | number => Some ([y1; y2; y3; y4; p] ++ number)
      end
    else None
  | _ => None
  end.

(** [re.search]: the match at the leftmost position that has one. *)
Fixpoint search (at_head : str -> option str) (s : str) : option str :=
  match at_head s with
  | Some m => Some m
  | None =>
    match s with
    | [] => None
    | _ :: s' => search at_head s'
    end
  end.

(** statement_evaluator.py *)
Definition extract_arxiv_id_from_filename (filename : str) : option str :=
  match search strict filename with
  | Some id => Some id
  | None => search loose filename
  end.

(** related_work_evaluator.py, [SurveyEvaluationWorkflow.extract_arxiv_id] *)
Definition extract_arxiv_id (filename : str) : option str :=
  search strict filename.

End ArxivId.

Section ArxivIdFacts.
Import Reference ArxivId.

(** Four digits, a dot, and between [lo] and [hi] digits. *)
Definition id_shape (lo hi : nat) (id : str) : Prop :=
  exists year number,
    id = year ++ [dot] ++ number
    /\ length year = 4%nat /\ forallb isdigit year = true
    /\ (lo <= length number <= hi)%nat /\ forallb isdigit number = true.

Lemma search_spec (at_head : str -> option str) (s : str) :
  match search at_head s with
  | Some m => exists pre rest, s = pre ++ rest /\ at_head rest = Some m
  | None => forall pre rest, s = pre ++ rest -> at_head rest = None
  end.
Proof.
  induction s as [|c s IH]; cbn [search].
  - destruct (at_head []) as [m|] eqn:E.
    + exists [], []. auto.
    + intros pre rest H. symmetry in H. apply app_eq_nil in H as [_ ->].
      exact E.
  - destruct (at_head (c :: s)) as [m|] eqn:E.
    + exists [], (c :: s). auto.
    + destruct (search at_head s) as [m|].
      * destruct IH as (pre & rest & -> & Hm). exists (c :: pre), rest.
        auto.
      * intros pre rest H. destruct pre as [|x pre].
        -- simpl in H. subst rest. exact E.
        -- injection H as _ H. apply (IH pre rest H).
Qed.

Lemma strict_shape (s id : str) :
  strict s = Some id -> id_shape 5 5 id /\ exists post, s = id ++ post.
Proof.
  unfold strict.
  destruct s as [|y1 [|y2 [|y3 [|y4 [|p [|n1 [|n2 [|n3 [|n4 [|n5 post]]]]]]]]]];
    try discriminate.
  destruct (forallb isdigit [y1; y2; y3; y4]) eqn:Hy; [|discriminate].
  destruct (N.eqb_spec p dot) as [->|]; [|discriminate].
  destruct (forallb isdigit [n1; n2; n3; n4; n5]) eqn:Hn; [|discriminate].
  intros [= <-]. split; [|exists post; reflexivity].
  exists [y1; y2; y3; y4], [n1; n2; n3; n4; n5].
  repeat split; try assumption; simpl; lia.
Qed.

Lemma span_digits_run (s : str) :
  forallb isdigit (fst (span_digits s)) = true
  /\ s = fst (span_digits s) ++ snd (span_digits s)
  /\ match snd (span_digits s) with
     | c :: _ => isdigit c = false
     | [] => True
     end.
Proof.
  pose proof (span_digits_spec s) as H.
  destruct (span_digits s) as [d r]. simpl. tauto.
Qed.

Lemma span_digits_cons (c : N) (s : str) :
  isdigit c = true ->
  fst (span_digits (c :: s)) = c :: fst (span_digits s).
Proof.
  intros Hc. cbn [span_digits]. rewrite Hc.
  destruct (span_digits s). reflexivity.
Qed.

Lemma loose_shape (s id : str) :
  loose s = Some id ->
  exists year number post,
    id = year ++ [dot] ++ number /\ s = id ++ post
    /\ length year = 4%nat /\ forallb isdigit year = true
    /\ number <> [] /\ forallb isdigit number = true
    /\ match post with c :: _ => isdigit c = false | [] => True end.
Proof.
  unfold loose.
  destruct s as [|y1 [|y2 [|y3 [|y4 [|p rest]]]]]; try discriminate.
  destruct (forallb isdigit [y1; y2; y3; y4]) eqn:Hy; [|discriminate].
  destruct (N.eqb_spec p dot) as [->|]; [|discriminate].
  cbn [andb]. destruct (span_digits_run rest) as (Hd & Hrest & Hnext).
  destruct (fst (span_digits rest)) as [|n number] eqn:E; [discriminate|].
  intros [= <-].
  exists [y1; y2; y3; y4], (n :: number), (snd (span_digits rest)).
  repeat split; try assumption; try discriminate.
  rewrite Hrest at 1. reflexivity.
Qed.

(** Where the strict pattern matches nowhere, a loose match has at most
    four digits after the dot. *)
Lemma loose_short (s id : str) :
  strict s = None -> loose s = Some id -> id_shape 1 4 id.
Proof.
  intros Hstrict Hloose.
  destruct (loose_shape _ _ Hloose)
    as (year & number & post & -> & Hs & Hy & Hyd & Hne & Hnd & _).
  exists year, number. repeat split; try assumption.
  - destruct number; [contradiction | simpl; lia].
  - destruct (Nat.le_gt_cases (length number) 4) as [H|H]; [exact H|].
    exfalso.
    destruct year as [|y1 [|y2 [|y3 [|y4 [|]]]]]; try discriminate.
    destruct number as [|n1 [|n2 [|n3 [|n4 [|n5 more]]]]];
      simpl in H; try lia.
    subst s. cbn [app] in Hstrict. unfold strict in Hstrict.
    rewrite Hyd in Hstrict. cbn [forallb] in Hnd.
    repeat (apply andb_prop in Hnd as [? Hnd]).
    cbn [forallb] in Hstrict.
    repeat match goal with H : isdigit _ = true |- _ =>
      rewrite H in Hstrict; clear H end.
    rewrite N.eqb_refl in Hstrict. discriminate.
Qed.

End ArxivIdFacts.

(** X21. What [extract_arxiv_id_from_filename] returns is a piece of
    the file name made of four digits, a dot and one to five digits:
    exactly five when the pattern with five digits matches somewhere in
    the name, and otherwise at most four, the whole run of digits after
    the dot. It returns nothing exactly when no place in the name has
    four digits, a dot and a digit. Whenever
    [SurveyEvaluationWorkflow.extract_arxiv_id] finds an id, both
    functions return the same one. A digit is a decimal digit of any
    script, as [\d] has it. *)
Theorem extract_arxiv_id_from_filename_shape (filename : str) :
  (forall id,
     ArxivId.extract_arxiv_id_from_filename filename = Some id ->
     id_shape 1 5 id
     /\ (exists pre post, filename = pre ++ id ++ post)
     /\ (ArxivId.extract_arxiv_id filename = None -> id_shape 1 4 id))
  /\ (ArxivId.extract_arxiv_id_from_filename filename = None
      <-> forall pre rest, filename = pre ++ rest ->
                           ArxivId.loose rest = None)
  /\ (forall id,
        ArxivId.extract_arxiv_id filename = Some id ->
        id_shape 5 5 id
        /\ ArxivId.extract_arxiv_id_from_filename filename = Some id).
Proof.
  unfold ArxivId.extract_arxiv_id_from_filename, ArxivId.extract_arxiv_id.
  pose proof (search_spec ArxivId.strict filename) as Hs.
  pose proof (search_spec ArxivId.loose filename) as Hl.
  assert (Hwiden : forall lo hi lo' hi' id,
            (lo' <= lo)%nat -> (hi <= hi')%nat ->
            id_shape lo hi id -> id_shape lo' hi' id).
  { intros lo hi lo' hi' id H1 H2 (y & n & E & Hy & Hyd & Hn & Hnd).
    exists y, n. repeat split; try assumption; lia. }
  assert (Himplies : forall s id,
            ArxivId.strict s = Some id -> ArxivId.loose s <> None).
  { intros s id H.
    destruct s as [|y1 [|y2 [|y3 [|y4 [|p [|n1 [|n2 [|n3 [|n4 [|n5 post]]]]]]]]]];
      try discriminate. unfold ArxivId.strict in H. unfold ArxivId.loose.
    destruct (forallb Reference.isdigit [y1; y2; y3; y4]); [|discriminate].
    destruct (p =? ArxivId.dot)%N; [|discriminate].
    cbn [andb] in *.
    destruct (forallb Reference.isdigit [n1; n2; n3; n4; n5]) eqn:Hn;
      [|discriminate].
    cbn [forallb] in Hn. apply andb_prop in Hn as [Hn1 _].
    rewrite (span_digits_cons _ _ Hn1). discriminate. }
  destruct (ArxivId.search ArxivId.strict filename) as [id|].
  - destruct Hs as (pre & rest & E & Hm).
    destruct (strict_shape _ _ Hm) as (Hshape & post & Hrest).
    split; [|split].
    + intros id' [= <-]. split; [eapply Hwiden; [| |exact Hshape]; lia|].
      split; [|discriminate]. exists pre, post. rewrite E, Hrest.
      reflexivity.
    + split; [discriminate|]. intros Hnone. exfalso.
      apply (Himplies _ _ Hm), (Hnone pre rest E).
    + intros id' [= <-]. auto.
  - split; [|split].
    + intros id Hid. rewrite Hid in Hl.
      destruct Hl as (pre & rest & E & Hm).
      pose proof (loose_short _ _ (Hs pre rest E) Hm) as Hshape.
      split; [eapply Hwiden; [| |exact Hshape]; lia|].
      split; [|intros _; exact Hshape].
      destruct (loose_shape _ _ Hm) as (y & n & post & _ & Hrest & _).
      exists pre, post. rewrite E, Hrest. reflexivity.
    + destruct (ArxivId.search ArxivId.loose filename) as [id|].
      * destruct Hl as (pre & rest & E & Hm).
        split; [discriminate|]. intros Hnone.
        rewrite (Hnone pre rest E) in Hm. discriminate.
      * split; [intros _; exact Hl | reflexivity].
    + discriminate.
Qed.

Lemma extract_arxiv_id_from_filename_shape_witness :
  ArxivId.extract_arxiv_id_from_filename
    (u "parsed_liminghao+openai+2108.09091.json")
  = Some (u "2108.09091")
  /\ id_shape 5 5 (u "2108.09091").
Proof.
  assert (Hrun : ArxivId.extract_arxiv_id
                   (u "parsed_liminghao+openai+2108.09091.json")
                 = Some (u "2108.09091")) by (vm_compute; reflexivity).
  destruct (proj2 (proj2 (extract_arxiv_id_from_filename_shape
                            (u "parsed_liminghao+openai+2108.09091.json")))
              _ Hrun) as [Hshape Hsame].
  split; [exact Hsame | exact Hshape].
Defined.

Example extract_arxiv_id_falls_back_to_short_numbers :
  ArxivId.extract_arxiv_id_from_filename (u "report_0704.0001v2.json")
  = Some (u "0704.0001")
  /\ ArxivId.extract_arxiv_id (u "report_0704.0001v2.json") = None.
Proof. split; vm_compute; reflexivity. Qed.
